(** * Job execution engine of the workflow runner: remote actions, reusable
    workflows and the run context

    A shallow embedding of [pkg/runner/step_action_remote.go],
    [pkg/runner/reusable_workflow.go] and [pkg/runner/run_context.go], and
    of [ParseRawOn] of [pkg/jobparser/model.go].

    Go strings are byte sequences: they are modelled as [string] (a list of
    [ascii] bytes).  Go maps are [gmap]s; a map that may be [nil] is an
    [option] of a [gmap].  Effects (the expression evaluator, the container
    driver, the source fetcher, the file system, the logger, the mutex) are
    calls of an operation tree [Exec], answered by a backend. *)

From Stdlib Require Import Ascii String List Bool Arith Lia DecimalString.
From stdpp Require Import gmap strings list.

(** ** The parts of Go's [strings] package the runner calls *)

Module GoStrings.

(** [strings.HasPrefix(s, prefix)]. *)
Fixpoint HasPrefix (s prefix : string) {struct prefix} : bool :=
  match prefix with
  | EmptyString => true
  | String p prefix' =>
      match s with
      | String c s' => Ascii.eqb c p && HasPrefix s' prefix'
      | EmptyString => false
      end
  end.

(** [s[n:]] for [n <= len(s)]. *)
Fixpoint drop_bytes (n : nat) (s : string) : string :=
  match n, s with
  | S k, String _ s' => drop_bytes k s'
  | _, _ => s
  end.

(** [strings.TrimPrefix(s, prefix)]. *)
Definition TrimPrefix (s prefix : string) : string :=
  if HasPrefix s prefix then drop_bytes (String.length prefix) s else s.

(** [strings.Contains(s, substr)]. *)
Fixpoint Contains (s substr : string) : bool :=
  HasPrefix s substr ||
  match s with
  | EmptyString => false
  | String _ s' => Contains s' substr
  end.

(** The longest prefix of [s] whose bytes all satisfy [p], and the rest. *)
Fixpoint span (p : ascii -> bool) (s : string) : string * string :=
  match s with
  | EmptyString => (EmptyString, EmptyString)
  | String c s' =>
      if p c then let '(a, b) := span p s' in (String c a, b)
      else (EmptyString, s)
  end.

(** [strings.SplitN(s, sep, 2)] for a one-byte separator: the slice has one
    element when [sep] does not occur and two otherwise. *)
Definition SplitN2 (s : string) (sep : ascii) : list string :=
  match span (fun c => negb (Ascii.eqb c sep)) s with
  | (a, String _ b) => [a; b]
  | (a, EmptyString) => [a]
  end.

(** Every byte of [s] satisfies [p]. *)
Fixpoint all_bytes (p : ascii -> bool) (s : string) : bool :=
  match s with
  | EmptyString => true
  | String c s' => p c && all_bytes p s'
  end.

(** [strings.Join(parts, sep)]. *)
Fixpoint Join (parts : list string) (sep : string) : string :=
  match parts with
  | [] => ""
  | [a] => a
  | a :: rest => a +:+ sep +:+ Join rest sep
  end.

(** The first pair, in argument order, whose old string starts [s].  The
    replacers of this program have no empty old string; such a pair is
    skipped. *)
Fixpoint first_match (pairs : list (string * string)) (s : string)
  : option (string * string) :=
  match pairs with
  | [] => None
  | (old, new) :: rest =>
      if negb (String.eqb old "") && HasPrefix s old then Some (old, new)
      else first_match rest s
  end.

(** [strings.NewReplacer(pairs...).Replace(s)]: replacements are made in the
    order they appear in [s], without overlapping matches; at each position
    the old strings are compared in argument order.  [skip] counts the bytes
    of a match that are still to be passed over. *)
Fixpoint Replace_from (pairs : list (string * string)) (skip : nat) (s : string)
  : string :=
  match s with
  | EmptyString => EmptyString
  | String c s' =>
      match skip with
      | S k => Replace_from pairs k s'
      | O =>
          match first_match pairs s with
          | Some (old, new) =>
              new +:+ Replace_from pairs (String.length old - 1) s'
          | None => String c (Replace_from pairs 0 s')
          end
      end
  end.

Definition Replace (pairs : list (string * string)) (s : string) : string :=
  Replace_from pairs 0 s.

(** [strings.ReplaceAll(s, old, new)] for a non-empty [old]. *)
Definition ReplaceAll (s old new : string) : string := Replace [(old, new)] s.

(** [strings.Trim(s, cutset)] for a one-byte cutset. *)
Fixpoint TrimLeft1 (s : string) (c : ascii) : string :=
  match s with
  | String d s' => if Ascii.eqb d c then TrimLeft1 s' c else s
  | EmptyString => EmptyString
  end.

Fixpoint TrimRight1 (s : string) (c : ascii) : string :=
  match s with
  | EmptyString => EmptyString
  | String d s' =>
      match TrimRight1 s' c with
      | EmptyString => if Ascii.eqb d c then EmptyString else String d EmptyString
      | t => String d t
      end
  end.

Definition Trim1 (s : string) (c : ascii) : string := TrimRight1 (TrimLeft1 s c) c.

(** Bytewise image of a string. *)
Fixpoint map_bytes (f : ascii -> ascii) (s : string) : string :=
  match s with
  | EmptyString => EmptyString
  | String c s' => String (f c) (map_bytes f s')
  end.

End GoStrings.

Import GoStrings.

(** ** Cache keys: [safeFilename] *)

(** The quotation mark and the backslash, by their codes. *)
Definition quote_byte : ascii := "034"%char.
Definition backslash_byte : ascii := "092"%char.

(** func safeFilename(s string) string *)
Definition safeFilename (s : string) : string :=
  Replace
    [ ("<", "-"); (">", "-"); (":", "-");
      (String quote_byte "", "-"); ("/", "-");
      (String backslash_byte "", "-"); ("|", "-"); ("?", "-"); ("*", "-") ]
    s.

(** The fixed set of path-hostile bytes. *)
Definition path_hostile (c : ascii) : bool :=
  existsb (Ascii.eqb c)
    [ "<"%char; ">"%char; ":"%char; quote_byte; "/"%char; backslash_byte;
      "|"%char; "?"%char; "*"%char ].

Definition sanitize_byte (c : ascii) : ascii :=
  if path_hostile c then "-"%char else c.


(** ** Container names: [createSimpleContainerName] *)

(** The class [a-zA-Z0-9-] of the pattern. *)
Definition name_byte (c : ascii) : bool :=
  let n := nat_of_ascii c in
  ((97 <=? n) && (n <=? 122)) || ((65 <=? n) && (n <=? 90))
  || ((48 <=? n) && (n <=? 57)) || (n =? 45).

(** [for strings.Contains(v, "--") { v = strings.ReplaceAll(v, "--", "-") }].
    Every pass shortens [v], so [len(v)] passes are enough. *)
Fixpoint collapse_dashes (fuel : nat) (v : string) : string :=
  match fuel with
  | O => v
  | S fuel' =>
      if Contains v "--" then collapse_dashes fuel' (ReplaceAll v "--" "-")
      else v
  end.

(** func createSimpleContainerName(parts ...string) string.  The pattern
    [[^a-zA-Z0-9-]] is applied to bytes here and to runes in Go; a rune of
    several bytes then gives several hyphens instead of one, which the loop
    over "--" merges, so the result is the same. *)
Definition createSimpleContainerName (parts : list string) : string :=
  Join
    (filter (fun v => negb (String.eqb v ""))
       (map (fun v =>
               let v := map_bytes (fun c => if name_byte c then c else "-"%char) v in
               let v := Trim1 v "-"%char in
               collapse_dashes (String.length v) v)
          parts))
    "_".

(** ** Errors *)

(** A Go [error] value: [errors.New] and [fmt.Errorf] without [%w] give an
    [errorString]; [fmt.Errorf] with [%w] gives a [wrapError] that keeps its
    cause.  [msg] is the whole formatted message. *)
Inductive error : Type :=
| errorString (msg : string)
| wrapError (msg : string) (cause : error).

(** [err.Error()]. *)
Definition Error (e : error) : string :=
  match e with
  | errorString msg => msg
  | wrapError msg _ => msg
  end.

(** [%d] of a non-negative integer. *)
Definition decimal (n : nat) : string := NilEmpty.string_of_uint (Nat.to_uint n).

(** ** Data of the collaborators *)

(** git.NewGitCloneExecutorInput *)
Record NewGitCloneExecutorInput : Type := {
  clone_URL : string;
  clone_Ref : string;
  clone_Dir : string;
  clone_Token : string }.

(** The outcome of running a clone executor, classified the way the runner
    inspects it: [nil]; an error with [errors.Is(err, git.ErrShortRef)], whose
    [*git.Error] carries the full commit; an error with
    [errors.Is(err, gogit.ErrForceNeeded)]; any other error. *)
Inductive cloneResult : Type :=
| cloneOk
| cloneErrShortRef (err : error) (commit : string)
| cloneErrForceNeeded (err : error)
| cloneErr (err : error).

Definition cloneResult_error (r : cloneResult) : option error :=
  match r with
  | cloneOk => None
  | cloneErrShortRef err _ | cloneErrForceNeeded err | cloneErr err => Some err
  end.

(** [http.Get]: a transport error or a response with a status code. *)
Inductive httpResult : Type :=
| httpErr (err : error)
| httpStatus (code : nat).

(** The error of [os.Stat]: [nil], one with [errors.Is(err, fs.ErrNotExist)],
    or another one. *)
Inductive statResult : Type :=
| statOk
| statNotExist
| statErr (err : error).

(** The fields of model.GithubContext that action preparation reads or
    writes. *)
Record GithubContext : Type := {
  ghc_Repository : string;
  ghc_Ref : string;
  ghc_Token : string;
  ghc_ActionRepository : string;
  ghc_ActionRef : string }.

(** The parsed action manifest (model.Action); only its presence matters
    here. *)
Inductive Action : Type := mkAction (name : string).

(** container.NewContainerInput, without the fields no credential decision
    and no operation order depends on (Entrypoint, WorkingDir, Mounts, Binds,
    Stdout, Stderr). *)
Record NewContainerInput : Type := {
  nci_Name : string;
  nci_Image : string;
  nci_Username : string;
  nci_Password : string;
  nci_Cmd : list string;
  nci_Env : list string;
  nci_NetworkMode : string;
  nci_NetworkAliases : list string;
  nci_Privileged : bool;
  nci_UsernsMode : string;
  nci_Platform : string;
  nci_Options : string;
  nci_AutoRemove : bool }.

(** container.ExecutionsEnvironment: an interface value, [None] for [nil].
    A method call on [nil] panics in Go; here it is an operation on [None]. *)
Definition ExecutionsEnvironment : Type := option NewContainerInput.

(** container.FileEntry *)
Record FileEntry : Type := {
  fe_Name : string;
  fe_Mode : nat;
  fe_Body : string }.

(** Log levels of the logger calls ([Debugf], [Infof], [Errorf]). *)
Inductive level : Type := DebugLevel | InfoLevel | ErrorLevel.

(** Which evaluator interpolates: [rc.ExprEval] or the one
    [rc.NewExpressionEvaluator(ctx)] has just returned. *)
Inductive evaluator : Type := rcExprEval | newEvaluator.

(** ** Operations on the outside world *)

(** One call of a collaborator.  Each is answered by the backend with a
    value of type [Resp]. *)
Inductive Op : Type :=
| OpLog (lvl : level) (msg : string)
    (** a logger call *)
| OpEvalBool (expr : string)
    (** EvalBool(ctx, rc.ExprEval, expr, exprparser.DefaultStatusCheckSuccess) *)
| OpNewExpressionEvaluator
    (** rc.NewExpressionEvaluator(ctx) *)
| OpInterpolate (ev : evaluator) (template : string)
    (** ev.Interpolate(ctx, template) *)
| OpGetGithubContext
    (** rc.getGithubContext(ctx): reads the configuration, the event payload
        and the git working copy *)
| OpHttpGet (url : string)
    (** http.Get(url) *)
| OpGitClone (input : NewGitCloneExecutorInput)
    (** git.NewGitCloneExecutor(input)(ctx) *)
| OpStat (name : string)
    (** os.Stat(name) *)
| OpLock
    (** executorLock.Lock() *)
| OpUnlock
    (** executorLock.Unlock() *)
| OpReadAction (uses actionDir actionPath : string)
    (** sar.readAction(ctx, sar.Step, actionDir, actionPath, reader, os.WriteFile) *)
| OpNewWorkflowPlanner (directory workflow : string)
    (** model.NewWorkflowPlanner(path.Join(directory, workflow), true) *)
| OpPlanEvent (eventName : string)
    (** planner.PlanEvent(eventName) *)
| OpNewReusableWorkflowRunner
    (** NewReusableWorkflowRunner(rc) *)
| OpRunPlan
    (** runner.NewPlanExecutor(plan)(ctx) *)
| OpRunnerArch
    (** container.RunnerArch(ctx) *)
| OpPull (c : ExecutionsEnvironment) (forcePull : bool)
    (** c.Pull(forcePull)(ctx) *)
| OpCreate (c : ExecutionsEnvironment) (capAdd capDrop : list string)
    (** c.Create(capAdd, capDrop)(ctx) *)
| OpStart (c : ExecutionsEnvironment) (attach : bool)
    (** c.Start(attach)(ctx) *)
| OpCopy (c : ExecutionsEnvironment) (destPath : string) (files : list FileEntry)
    (** c.Copy(destPath, files...)(ctx) *)
| OpNetworkCreate (name : string)
    (** container.NewDockerNetworkCreateExecutor(name)(ctx) *)
| OpGoSchedule (tasks : nat).
    (** the order in which the Go scheduler lets the goroutines of one
        parallel executor advance *)

Definition Resp (o : Op) : Type :=
  match o with
  | OpLog _ _ => unit
  | OpEvalBool _ => (bool * option error)%type
  | OpNewExpressionEvaluator => unit
  | OpInterpolate _ _ => string
  | OpGetGithubContext => GithubContext
  | OpHttpGet _ => httpResult
  | OpGitClone _ => cloneResult
  | OpStat _ => statResult
  | OpLock => unit
  | OpUnlock => unit
  | OpReadAction _ _ _ => (option Action * option error)%type
  | OpNewWorkflowPlanner _ _ => option error
  | OpPlanEvent _ => option error
  | OpNewReusableWorkflowRunner => option error
  | OpRunPlan => option error
  | OpRunnerArch => string
  | OpPull _ _ => option error
  | OpCreate _ _ _ => option error
  | OpStart _ _ => option error
  | OpCopy _ _ _ => option error
  | OpNetworkCreate _ => option error
  | OpGoSchedule _ => list nat
  end.

(** A computation that calls operations and ends with a value. *)
Inductive Exec (A : Type) : Type :=
| Ret (a : A)
| Vis (o : Op) (k : Resp o -> Exec A).

Arguments Ret {A} a.
Arguments Vis {A} o k.

Fixpoint bind {A B : Type} (m : Exec A) (f : A -> Exec B) : Exec B :=
  match m with
  | Ret a => f a
  | Vis o k => Vis o (fun r => bind (k r) f)
  end.

(** Call one operation and return its answer. *)
Definition call (o : Op) : Exec (Resp o) := Vis o Ret.

(** [ev.Interpolate(ctx, template)]. *)
Definition Interpolate (ev : evaluator) (template : string) : Exec string :=
  call (OpInterpolate ev template).

Notation "x <- m ;; f" := (bind m (fun x => f))
  (at level 20, m at level 99, f at level 200, only parsing).
Notation "' pat <- m ;; f" := (bind m (fun x => match x with pat => f end))
  (at level 20, pat pattern, m at level 99, f at level 200, only parsing).

(** The backend answers an operation given the operations made so far. *)
Definition Backend : Type := forall (history : list Op) (o : Op), Resp o.

(** Run [m] against [B] after [history]: the value and the operations made,
    in order. *)
Fixpoint run {A : Type} (B : Backend) (m : Exec A) (history : list Op)
  : A * list Op :=
  match m with
  | Ret a => (a, [])
  | Vis o k =>
      let '(a, ops) := run B (k (B history o)) (history ++ [o]) in
      (a, o :: ops)
  end.

(** ** Executors ([common.Executor])

    An executor is a closure [func(ctx) error] over mutable objects (a run
    context, a step).  [Executor S] is an executor over captured state [S]:
    it returns the error ([None] for [nil]) and the state it leaves. *)
Definition Executor (S : Type) : Type := S -> Exec (option error * S).

(** An executor that touches no captured state. *)
Definition stateless {S : Type} (m : Exec (option error)) : Executor S :=
  fun s => e <- m ;; Ret (e, s).

(** Modelled from the spec: [common.NewPipelineExecutor], absent from the
    sources.  "sequence(ops...): run in declared order; stop and propagate
    the first error; a missing/absent operation is a no-op and never
    errors." *)
Fixpoint NewPipelineExecutor {S : Type} (executors : list (option (Executor S)))
  : Executor S :=
  fun s =>
    match executors with
    | [] => Ret (None, s)
    | None :: rest => NewPipelineExecutor rest s
    | Some e :: rest =>
        '(err, s') <- e s ;;
        match err with
        | Some _ => Ret (err, s')
        | None => NewPipelineExecutor rest s'
        end
    end.

(** Modelled from the spec: [common.NewConditionalExecutor], absent from the
    sources.  "conditional(predicate, thenOp, elseOp): predicate is evaluated
    synchronously before dispatch; elseOp may be absent (no-op)." *)
Definition NewConditionalExecutor {S : Type} (conditional : Exec bool)
    (trueExecutor falseExecutor : option (Executor S)) : Executor S :=
  fun s =>
    b <- conditional ;;
    match (if b then trueExecutor else falseExecutor) with
    | Some e => e s
    | None => Ret (None, s)
    end.

(** Modelled from the spec: [Executor.IfBool], absent from the sources.
    "guard(op, flag): run op only if flag is true, else no-op." *)
Definition IfBool {S : Type} (e : Executor S) (flag : bool) : Executor S :=
  fun s => if flag then e s else Ret (None, s).

(** Modelled from the spec: [common.NewErrorExecutor], absent from the
    sources: an operation "yielding success or a single error", here the
    given error. *)
Definition NewErrorExecutor {S : Type} (err : error) : Executor S :=
  fun s => Ret (Some err, s).

(** Modelled from the spec: [common.NewInfoExecutor], absent from the
    sources: the condition is "downgraded to a logged warning and execution
    proceeds", so the executor logs the message and returns no error. *)
Definition NewInfoExecutor {S : Type} (msg : string) : Executor S :=
  stateless (_ <- call (OpLog InfoLevel msg) ;; Ret None).

Definition first_error (firstErr e : option error) : option error :=
  match firstErr with
  | Some _ => firstErr
  | None => e
  end.

(** The tasks left, each run to its end, in order. *)
Fixpoint run_in_order (firstErr : option error) (tasks : list (Exec (option error)))
  : Exec (option error) :=
  match tasks with
  | [] => Ret firstErr
  | t :: rest => e <- t ;; run_in_order (first_error firstErr e) rest
  end.

(** The unfinished tasks are kept in their order; the first [parallel] of
    them are in flight.  Each entry [i] of the schedule lets in-flight task
    [i] advance: it makes its next call, or, when it has returned, its error
    is collected and it leaves the list.  When the schedule is used up the
    tasks left run to their end in order. *)
Fixpoint run_scheduled (parallel : nat) (schedule : list nat)
    (firstErr : option error) (tasks : list (Exec (option error)))
  : Exec (option error) :=
  match schedule with
  | [] => run_in_order firstErr tasks
  | i :: schedule' =>
      if i <? parallel then
        match tasks !! i with
        | None => run_scheduled parallel schedule' firstErr tasks
        | Some (Ret e) =>
            run_scheduled parallel schedule' (first_error firstErr e) (delete i tasks)
        | Some (Vis o k) =>
            Vis o (fun r => run_scheduled parallel schedule' firstErr (<[i := k r]> tasks))
        end
      else run_scheduled parallel schedule' firstErr tasks
  end.

(** Modelled from the spec: [common.NewParallelExecutor], absent from the
    sources.  "parallel(maxConcurrency, ops...): run up to maxConcurrency
    concurrently; wait for all to finish; return the first error encountered
    (others are not retried or re-surfaced)."  How the tasks interleave is
    the scheduler's choice, which the backend gives as the answer to
    [OpGoSchedule]. *)
Definition NewParallelExecutor (parallel : nat) (executors : list (Exec (option error)))
  : Exec (option error) :=
  schedule <- call (OpGoSchedule (length executors)) ;;
  run_scheduled parallel schedule None executors.

(** ** Remote actions ([step_action_remote.go]) *)

Record remoteAction : Type := {
  ra_URL : string;
  ra_Org : string;
  ra_Repo : string;
  ra_Path : string;
  ra_Ref : string }.

Definition not_slash_at (c : ascii) : bool :=
  negb (Ascii.eqb c "/") && negb (Ascii.eqb c "@").
Definition not_slash (c : ascii) : bool := negb (Ascii.eqb c "/").
Definition not_at (c : ascii) : bool := negb (Ascii.eqb c "@").
(** What [.] matches: any byte but the newline. *)
Definition not_newline (c : ascii) : bool := negb (Ascii.eqb c "010").

(** [r.FindStringSubmatch(action)] for the pattern
    "^([^/@]+)/([^/@]+)(/([^@]*))?(@(.*))?$": the groups 1, 2, 4 and 6 of the
    match, [None] when there is none.  Each repetition is followed by a byte
    outside its class or by the end, so it takes the longest run and the
    match is unique.  The delimiters are ASCII, which no byte of a longer
    UTF-8 sequence is, so matching bytes agrees with matching runes. *)
Definition match_action (action : string) : option (string * string * string * string) :=
  let '(org, rest1) := span not_slash_at action in
  match org, rest1 with
  | String _ _, String c1 rest2 =>
      if Ascii.eqb c1 "/" then
        let '(repo, rest3) := span not_slash_at rest2 in
        match repo with
        | EmptyString => None
        | String _ _ =>
            let '(path, rest4) :=
              match rest3 with
              | String c3 rest =>
                  if Ascii.eqb c3 "/" then span not_at rest else (EmptyString, rest3)
              | EmptyString => (EmptyString, rest3)
              end in
            match rest4 with
            | EmptyString => Some (org, repo, path, EmptyString)
            | String c4 ref =>
                if Ascii.eqb c4 "@" && all_bytes not_newline ref
                then Some (org, repo, path, ref)
                else None
            end
        end
      else None
  | _, _ => None
  end.

(** func parseAction(action string) *remoteAction *)
Definition parseAction (action : string) : option remoteAction :=
  match match_action action with
  | None => None
  | Some (org, repo, path, ref) =>
      if String.eqb ref "" then None
      else Some {| ra_URL := ""; ra_Org := org; ra_Repo := repo;
                   ra_Path := path; ra_Ref := ref |}
  end.

Definition set_ra_URL (ra : remoteAction) (url : string) : remoteAction :=
  {| ra_URL := url; ra_Org := ra_Org ra; ra_Repo := ra_Repo ra;
     ra_Path := ra_Path ra; ra_Ref := ra_Ref ra |}.

(** The loop of [newRemoteAction] over the schemas. *)
Fixpoint newRemoteAction_from (schemas : list string) (action : string)
  : option remoteAction :=
  match schemas with
  | [] => parseAction action
  | schema :: rest =>
      if HasPrefix action schema then
        match SplitN2 (TrimPrefix action schema) "/" with
        | [host; tail] =>
            match parseAction tail with
            | None => None
            | Some ret => Some (set_ra_URL ret (schema +:+ host))
            end
        | _ => None
        end
      else newRemoteAction_from rest action
  end.

(** func newRemoteAction(action string) *remoteAction *)
Definition newRemoteAction (action : string) : option remoteAction :=
  newRemoteAction_from ["https://"; "http://"] action.

(** func (ra *remoteAction) CloneURL(defaultURL string) string *)
Definition CloneURL (ra : remoteAction) (defaultURL : string) : string :=
  let u := if String.eqb (ra_URL ra) "" then defaultURL else ra_URL ra in
  let u := if negb (HasPrefix u "http://") && negb (HasPrefix u "https://")
           then "https://" +:+ u else u in
  u +:+ "/" +:+ ra_Org ra +:+ "/" +:+ ra_Repo ra.

(** func (ra *remoteAction) IsCheckout() bool *)
Definition IsCheckout (ra : remoteAction) : bool :=
  String.eqb (ra_Org ra) "actions" && String.eqb (ra_Repo ra) "checkout".

(** func (ra *remoteAction) GetAvailableCloneURL(actionURLs []string) (string, error) *)
Fixpoint GetAvailableCloneURL (ra : remoteAction) (actionURLs : list string)
  : Exec (string * option error) :=
  match actionURLs with
  | [] => Ret ("", Some (errorString "no available url found"))
  | u :: rest =>
      let cloneURL := CloneURL ra u in
      Vis (OpHttpGet cloneURL) (fun resp : httpResult =>
        match resp with
        | httpErr err => Ret ("", Some err)
        | httpStatus code =>
            if code =? 200 then Ret (cloneURL, None)
            else if code =? 404 then GetAvailableCloneURL ra rest
            else Ret ("", Some (errorString
                   ("unexpected http status code: " +:+ decimal code)))
        end)
  end.

(** ** The job model and the run context ([run_context.go]) *)

(** model.JobType *)
Inductive JobType : Type :=
| JobTypeDefault
| JobTypeReusableWorkflowLocal
| JobTypeReusableWorkflowRemote.

(** model.ContainerSpec.  [Env] is a map in Go, ranged over in an order the
    language leaves open: it is the list of its entries in the order of that
    range.  [Credentials] is [None] for a [nil] map. *)
Record ContainerSpec : Type := {
  cs_Image : string;
  cs_Env : list (string * string);
  cs_Cmd : list string;
  cs_Options : string;
  cs_Credentials : option (gmap string string) }.

(** model.Job, by what its methods return: [If.Value], [Uses], [Type()],
    [Container()] ([None] for [nil]), [RunsOn()] ([None] for a [nil] slice)
    and [Services], a map ranged over in an open order, as the list of its
    entries in the order of that range. *)
Record Job : Type := {
  job_Name : string;
  job_If : string;
  job_Uses : string;
  job_Type : JobType;
  job_Container : option ContainerSpec;
  job_RunsOn : option (list string);
  job_Services : list (string * ContainerSpec) }.

(** The fields of the model.GithubContext behind
    [Config.PresetGitHubContext] that the functions below read. *)
Record PresetContext : Type := {
  preset_Repository : string;
  preset_Sha : string }.

(** The fields of runner.Config that the functions below read.
    [PresetGitHubContext] is a pointer: [None] for [nil]. *)
Record Config : Type := {
  ContainerNamePrefix : string;
  ContainerNetworkMode : string;
  NeedCreateNetwork : bool;
  ForcePull : bool;
  ContainerCapAdd : list string;
  ContainerCapDrop : list string;
  ContainerOptions : string;
  ContainerArchitecture : string;
  Privileged : bool;
  UsernsMode : string;
  AutoRemove : bool;
  ReuseContainers : bool;
  Secrets : gmap string string;
  Platforms : gmap string string;
  PlatformPicker : option (list string -> string);
  NoSkipCheckout : bool;
  ReplaceGheActionWithGithubCom : list string;
  ReplaceGheActionTokenWithGithubCom : string;
  DefaultActionsURLs : list string;
  GitHubInstance : string;
  Token : string;
  PresetGitHubContext : option PresetContext }.

(** [config.PresetGitHubContext.Repository] and
    [config.PresetGitHubContext.Sha], read without a test for [nil].  On a
    [nil] preset the read panics and gives no value; the panic is in
    [rc_Executor], where the code that reads these fields is called, and the
    value here is then the empty string. *)
Definition Preset_Repository (config : Config) : string :=
  match PresetGitHubContext config with
  | Some preset => preset_Repository preset
  | None => ""
  end.

Definition Preset_Sha (config : Config) : string :=
  match PresetGitHubContext config with
  | Some preset => preset_Sha preset
  | None => ""
  end.

(** What [rc.cleanUpJobContainer] has been set to. *)
Inductive cleanUp : Type :=
| cleanUpUnset
| cleanUpJobContainerAndVolumes.

(** runner.RunContext.  [rc_WorkflowName] is [rc.Run.Workflow.Name], [rc_Job]
    is [rc.Run.Job()], [rc_callerJobID] is [rc.caller.runContext.Run.JobID]
    ([None] when [rc.caller] is [nil]), and [rc_ActionCacheDir] is the value
    of [rc.ActionCacheDir()], which depends on the process environment
    only. *)
Record RunContext : Type := {
  rc_Name : string;
  rc_Config : Config;
  rc_WorkflowName : string;
  rc_Job : Job;
  rc_EventJSON : string;
  rc_callerJobID : option string;
  rc_ActionCacheDir : string;
  rc_JobContainer : ExecutionsEnvironment;
  rc_ServiceContainers : list ExecutionsEnvironment;
  rc_cleanUpJobContainer : cleanUp }.

Definition set_ServiceContainers (rc : RunContext) (cs : list ExecutionsEnvironment)
  : RunContext :=
  {| rc_Name := rc_Name rc; rc_Config := rc_Config rc;
     rc_WorkflowName := rc_WorkflowName rc; rc_Job := rc_Job rc;
     rc_EventJSON := rc_EventJSON rc; rc_callerJobID := rc_callerJobID rc;
     rc_ActionCacheDir := rc_ActionCacheDir rc;
     rc_JobContainer := rc_JobContainer rc;
     rc_ServiceContainers := cs;
     rc_cleanUpJobContainer := rc_cleanUpJobContainer rc |}.

Definition set_cleanUpJobContainer (rc : RunContext) (c : cleanUp) : RunContext :=
  {| rc_Name := rc_Name rc; rc_Config := rc_Config rc;
     rc_WorkflowName := rc_WorkflowName rc; rc_Job := rc_Job rc;
     rc_EventJSON := rc_EventJSON rc; rc_callerJobID := rc_callerJobID rc;
     rc_ActionCacheDir := rc_ActionCacheDir rc;
     rc_JobContainer := rc_JobContainer rc;
     rc_ServiceContainers := rc_ServiceContainers rc;
     rc_cleanUpJobContainer := c |}.

Definition set_JobContainer (rc : RunContext) (c : ExecutionsEnvironment) : RunContext :=
  {| rc_Name := rc_Name rc; rc_Config := rc_Config rc;
     rc_WorkflowName := rc_WorkflowName rc; rc_Job := rc_Job rc;
     rc_EventJSON := rc_EventJSON rc; rc_callerJobID := rc_callerJobID rc;
     rc_ActionCacheDir := rc_ActionCacheDir rc;
     rc_JobContainer := c;
     rc_ServiceContainers := rc_ServiceContainers rc;
     rc_cleanUpJobContainer := rc_cleanUpJobContainer rc |}.

(** func (rc *RunContext) String() string *)
Definition rc_String (rc : RunContext) : string :=
  let name := rc_WorkflowName rc +:+ "/" +:+ rc_Name rc in
  match rc_callerJobID rc with
  | Some jobID => jobID +:+ "/" +:+ name
  | None => name
  end.

(** func (rc *RunContext) jobContainerName() string *)
Definition jobContainerName (rc : RunContext) : string :=
  createSimpleContainerName
    [ ContainerNamePrefix (rc_Config rc);
      "WORKFLOW-" +:+ rc_WorkflowName rc;
      "JOB-" +:+ rc_Name rc ].

(** model.StepType *)
Inductive StepType : Type :=
| StepTypeRun
| StepTypeUsesDockerURL
| StepTypeUsesActionLocal
| StepTypeUsesActionRemote
| StepTypeReusableWorkflowLocal
| StepTypeReusableWorkflowRemote
| StepTypeInvalid.

(** model.Step, by what action preparation reads: [Uses], [With] and
    [Type()]. *)
Record Step : Type := {
  step_Uses : string;
  step_With : gmap string string;
  step_Type : StepType }.

(** func isLocalCheckout(ghc *model.GithubContext, step *model.Step) bool *)
Definition isLocalCheckout (ghc : GithubContext) (step : Step) : bool :=
  match step_Type step with
  | StepTypeInvalid => false
  | StepTypeUsesActionRemote =>
      match newRemoteAction (step_Uses step) with
      | None => false
      | Some remoteAction =>
          if negb (IsCheckout remoteAction) then false
          else if match step_With step !! "repository" with
                  | Some repository => negb (String.eqb repository (ghc_Repository ghc))
                  | None => false
                  end then false
          else if match step_With step !! "ref" with
                  | Some repository => negb (String.eqb repository (ghc_Ref ghc))
                  | None => false
                  end then false
          else true
      end
  | _ => false
  end.

(** runner.stepActionRemote: the step, its run context, and the two fields
    that preparation sets. *)
Record stepActionRemote : Type := {
  sar_Step : Step;
  sar_RunContext : RunContext;
  sar_action : option Action;
  sar_remoteAction : option remoteAction }.

Definition set_sar_remoteAction (sar : stepActionRemote) (ra : option remoteAction)
  : stepActionRemote :=
  {| sar_Step := sar_Step sar; sar_RunContext := sar_RunContext sar;
     sar_action := sar_action sar; sar_remoteAction := ra |}.

Definition set_sar_action (sar : stepActionRemote) (a : option Action)
  : stepActionRemote :=
  {| sar_Step := sar_Step sar; sar_RunContext := sar_RunContext sar;
     sar_action := a; sar_remoteAction := sar_remoteAction sar |}.

(** func (sar *stepActionRemote) getGithubContext(ctx) *model.GithubContext *)
Definition sar_getGithubContext (sar : stepActionRemote) : Exec GithubContext :=
  ghc <- call OpGetGithubContext ;;
  Ret match sar_remoteAction sar with
      | Some remoteAction =>
          {| ghc_Repository := ghc_Repository ghc; ghc_Ref := ghc_Ref ghc;
             ghc_Token := ghc_Token ghc;
             ghc_ActionRepository := ra_Org remoteAction +:+ "/" +:+ ra_Repo remoteAction;
             ghc_ActionRef := ra_Ref remoteAction |}
      | None => ghc
      end.

Definition set_ghc_Token (ghc : GithubContext) (token : string) : GithubContext :=
  {| ghc_Repository := ghc_Repository ghc; ghc_Ref := ghc_Ref ghc;
     ghc_Token := token; ghc_ActionRepository := ghc_ActionRepository ghc;
     ghc_ActionRef := ghc_ActionRef ghc |}.

(** [m[key]] on a Go map: the empty string for a missing key. *)
Definition index (m : gmap string string) (key : string) : string :=
  default "" (m !! key).

(** A loop that collects one result per element, in order. *)
Fixpoint mapM {A B : Type} (f : A -> Exec B) (l : list A) : Exec (list B) :=
  match l with
  | [] => Ret []
  | a :: rest => b <- f a ;; bs <- mapM f rest ;; Ret (b :: bs)
  end.

(** A loop run for its effects. *)
Fixpoint forM_ {A : Type} (f : A -> Exec unit) (l : list A) : Exec unit :=
  match l with
  | [] => Ret tt
  | a :: rest => _ <- f a ;; forM_ f rest
  end.

(** ** Slices of strings and [strings.Index] *)

(** [s[:n]] for [n <= len(s)]. *)
Fixpoint take_bytes (n : nat) (s : string) : string :=
  match n, s with
  | S k, String c s' => String c (take_bytes k s')
  | _, _ => EmptyString
  end.

(** [strings.Index(s, substr)]: the index of the first instance of [substr]
    in [s], [-1] when there is none. *)
Fixpoint Index (s substr : string) : Z :=
  if HasPrefix s substr then 0%Z
  else
    match s with
    | EmptyString => (-1)%Z
    | String _ s' =>
        let i := Index s' substr in
        if (i =? -1)%Z then (-1)%Z else (i + 1)%Z
    end.

(** The byte is an ASCII letter. *)
Definition ascii_letter (c : ascii) : bool :=
  let n := nat_of_ascii c in
  ((97 <=? n) && (n <=? 122)) || ((65 <=? n) && (n <=? 90)).

(** func trimToLen(s string, l int) string *)
Definition trimToLen (s : string) (l : Z) : string :=
  let l := if (l <? 0)%Z then 0%Z else l in
  if (Z.of_nat (String.length s) >? l)%Z then take_bytes (Z.to_nat l) s else s.

(** ** Environments: [mergeMaps] and [GetEnv] *)

(** func mergeMaps(maps ...map[string]string) map[string]string.  The inner
    loop assigns every entry of [m]; a map has each key once, so the order
    of that range does not show in the result. *)
Definition mergeMaps (maps : list (gmap string string)) : gmap string string :=
  fold_left
    (fun rtnMap m => map_fold (fun k v rtnMap => <[k := v]> rtnMap) rtnMap m)
    maps ∅.

(** func (rc *RunContext) GetEnv() map[string]string, on what it reads and
    writes: [Env] is the field [rc.Env] ([None] for a [nil] map), which it
    sets and returns; [sources] is [None] when one of [rc.Run],
    [rc.Run.Workflow], [rc.Config] and [rc.Run.Job()] is [nil], and otherwise
    [rc.Run.Workflow.Env], [job.Environment()] and [rc.Config.Env]. *)
Definition GetEnv (Env : option (gmap string string))
    (sources : option (gmap string string * gmap string string * gmap string string))
  : gmap string string :=
  let Env :=
    match Env with
    | Some Env => Env
    | None =>
        match sources with
        | Some (workflowEnv, jobEnvironment, configEnv) =>
            mergeMaps [workflowEnv; jobEnvironment; configEnv]
        | None => ∅
        end
    end in
  <["ACT" := "true"]> Env.

(** ** Dynamic values: [interface{}] *)

(** A value of type [interface{}] as the decoders of YAML and JSON give it:
    [nil], a string, a [[]string], a [[]interface{}], a
    [map[string]interface{}] (the list of its entries in the order of a
    range over it; a key occurs once), or a value of another dynamic type
    (a number, a boolean, ...), kept as its text. *)
#[warnings="-register-all"] Inductive any : Type :=
| anyNil
| anyString (s : string)
| anyStrings (l : list string)
| anySlice (l : list any)
| anyMap (m : list (string * any))
| anyOther (text : string).

(** [m[k]] with the comma-ok form, on the entries of a map. *)
Fixpoint map_entry (m : list (string * any)) (k : string) : option any :=
  match m with
  | [] => None
  | (k', v) :: rest => if String.eqb k' k then Some v else map_entry rest k
  end.

(** func nestedMapLookup(m map[string]interface{}, ks ...string) (rval interface{}) *)
Fixpoint nestedMapLookup (m : list (string * any)) (ks : list string) {struct ks} : any :=
  match ks with
  | [] => anyNil
  | k :: rest =>
      match map_entry m k with
      | None => anyNil
      | Some rval =>
          match rest with
          | [] => rval
          | _ :: _ =>
              match rval with
              | anyMap m' => nestedMapLookup m' rest
              | _ => anyNil
              end
          end
      end
  end.

(** ** Workflow triggers: [ParseRawOn] ([jobparser/model.go]) *)

(** jobparser.Event; [ev_Acts] is [None] for a [nil] map. *)
Record Event : Type := {
  ev_Name : string;
  ev_Acts : option (gmap string (list string)) }.

(** yaml.Kind, with the zero value of a node that was never set. *)
Inductive Kind : Type :=
| ZeroKind
| DocumentNode
| SequenceNode
| MappingNode
| ScalarNode
| AliasNode.

(** A [*yaml.Node] by what [ParseRawOn] asks of it: its kind and the
    outcome of [Decode] into a [string], a [[]interface{}] and a
    [map[string]interface{}]. *)
Record Node : Type := {
  node_Kind : Kind;
  Decode_string : string + error;
  Decode_slice : list any + error;
  Decode_map : list (string * any) + error }.

(** What a function returns, or the panic that ends it. *)
Inductive outcome (A : Type) : Type :=
| returned (a : A)
| failed (err : error)
| panicked.

Arguments returned {A} a.
Arguments failed {A} err.
Arguments panicked {A}.

Section JobParser.

(** The verbs [%T], [%#v] and [%v] of [fmt], taken as given. *)
Variable fmt_T : any -> string.
Variable fmt_sharp_v : any -> string.
Variable fmt_v_Kind : Kind -> string.

(** The loop of the sequence case: one event per string, an error at the
    first element that is not a string. *)
Fixpoint events_of_sequence (val : list any) (res : list Event) : outcome (list Event) :=
  match val with
  | [] => returned res
  | v :: rest =>
      match v with
      | anyString t =>
          events_of_sequence rest (res ++ [{| ev_Name := t; ev_Acts := None |}])
      | t => failed (errorString ("invalid type " +:+ fmt_T t))
      end
  end.

(** [acts[act][i] = v.(string)] for every element of [b]: the type
    assertion panics at an element that is not a string. *)
Fixpoint strings_of_slice (b : list any) : option (list string) :=
  match b with
  | [] => Some []
  | anyString v :: rest =>
      match strings_of_slice rest with
      | Some l => Some (v :: l)
      | None => None
      end
  | _ :: _ => None
  end.

(** The loop over the activity types of one event. *)
Fixpoint acts_of_map (t : list (string * any)) (acts : gmap string (list string))
  : outcome (gmap string (list string)) :=
  match t with
  | [] => returned acts
  | (act, branches) :: rest =>
      match branches with
      | anyString b => acts_of_map rest (<[act := [b]]> acts)
      | anyStrings b => acts_of_map rest (<[act := b]> acts)
      | anySlice b =>
          match strings_of_slice b with
          | Some l => acts_of_map rest (<[act := l]> acts)
          | None => panicked
          end
      | _ => failed (errorString ("unknown on type: " +:+ fmt_sharp_v branches))
      end
  end.

(** The loop of the mapping case. *)
Fixpoint events_of_mapping (val : list (string * any)) (res : list Event)
  : outcome (list Event) :=
  match val with
  | [] => returned res
  | (k, v) :: rest =>
      match v with
      | anyNil | anyString _ | anyStrings _ =>
          events_of_mapping rest (res ++ [{| ev_Name := k; ev_Acts := Some ∅ |}])
      | anyMap t =>
          match acts_of_map t ∅ with
          | returned acts =>
              events_of_mapping rest (res ++ [{| ev_Name := k; ev_Acts := Some acts |}])
          | failed err => failed err
          | panicked => panicked
          end
      | anySlice _ => events_of_mapping rest res
      | anyOther _ => failed (errorString ("unknown on type: " +:+ fmt_sharp_v v))
      end
  end.

(** func ParseRawOn(rawOn *yaml.Node) ([]*Event, error) *)
Definition ParseRawOn (rawOn : Node) : outcome (list Event) :=
  match node_Kind rawOn with
  | ScalarNode =>
      match Decode_string rawOn with
      | inr err => failed err
      | inl val => returned [{| ev_Name := val; ev_Acts := None |}]
      end
  | SequenceNode =>
      match Decode_slice rawOn with
      | inr err => failed err
      | inl val => events_of_sequence val []
      end
  | MappingNode =>
      match Decode_map rawOn with
      | inr err => failed err
      | inl val => events_of_mapping val []
      end
  | kind => failed (errorString ("unknown on type: " +:+ fmt_v_Kind kind))
  end.

End JobParser.

(** ** Vocabulary of the further properties *)

(** The first byte of a string, when it has one, is not [c]. *)
Definition not_led_by (c : ascii) (s : string) : Prop :=
  match s with
  | EmptyString => True
  | String d _ => Ascii.eqb d c = false
  end.

(** Every value a computation can return satisfies [Q], whatever the
    answers. *)
Inductive returns {A : Type} (Q : A -> Prop) : Exec A -> Prop :=
| returns_Ret (a : A) : Q a -> returns Q (Ret a)
| returns_Vis (o : Op) (k : Resp o -> Exec A) :
    (forall r, returns Q (k r)) -> returns Q (Vis o k).

(** Where a trace stands with [executorLock]: not taken yet, held, or
    released again. *)
Inductive lock_phase : Type :=
| lock_untaken
| lock_held
| lock_released.

(** The lock is held around the fetch and nothing else.  Before the lock is
    taken the only call is the one that takes it; while it is held the only
    calls are tests of the directory, clones and the release; once it is
    released, no call takes or releases it, tests a directory or clones, so
    every other call of the trace, the planning and the running of a
    workflow among them, comes after the release; and the trace does not
    end with the lock held.  [phase] is where the trace starts. *)
Fixpoint lock_around_fetch (phase : lock_phase) (ops : list Op) : bool :=
  match ops with
  | [] => match phase with lock_held => false | _ => true end
  | o :: rest =>
      match phase with
      | lock_untaken =>
          match o with
          | OpLock => lock_around_fetch lock_held rest
          | _ => false
          end
      | lock_held =>
          match o with
          | OpUnlock => lock_around_fetch lock_released rest
          | OpStat _ | OpGitClone _ => lock_around_fetch lock_held rest
          | _ => false
          end
      | lock_released =>
          match o with
          | OpLock | OpUnlock | OpStat _ | OpGitClone _ => false
          | _ => lock_around_fetch lock_released rest
          end
      end
  end.

(** What the remote-action requests of a run are made to: every GET asks
    for [url] and every clone is made from [url]. *)
Definition fetches_from (url : string) (o : Op) : Prop :=
  match o with
  | OpHttpGet u => u = url
  | OpGitClone input => clone_URL input = url
  | _ => True
  end.

(** An operation that reaches no container, image or network of the
    driver. *)
Definition no_driver_op (o : Op) : bool :=
  match o with
  | OpPull _ _ | OpCreate _ _ _ | OpStart _ _ | OpCopy _ _ _ | OpNetworkCreate _ => false
  | _ => true
  end.

(** A call that the provisioning of a job makes whatever the
    configuration: a log line, an interpolation, the making of an evaluator,
    the query of the architecture, the scheduling of parallel tasks, and
    the pull, creation, start of a container and the copy into it. *)
Definition provisioning_op (o : Op) : bool :=
  match o with
  | OpLog _ _ | OpNewExpressionEvaluator | OpInterpolate _ _ | OpRunnerArch
  | OpGoSchedule _ | OpPull _ _ | OpCreate _ _ _ | OpStart _ _ | OpCopy _ _ _ => true
  | _ => false
  end.


(** ** The reference grammar of the specification *)

(** An organisation or repository segment: not empty, without slash or
    at-sign. *)
Definition segment (s : string) : Prop :=
  s <> "" /\ all_bytes not_slash_at s = true.

(** [{org}/{repo}[/{path}]@{ref}]: the path, when present, has no at-sign
    and the ref is not empty. *)
Inductive PlainActionReference : string -> Prop :=
| reference_without_path (org repo ref : string) :
    segment org -> segment repo -> ref <> "" ->
    PlainActionReference (org +:+ "/" +:+ repo +:+ "@" +:+ ref)
| reference_with_path (org repo path ref : string) :
    segment org -> segment repo -> all_bytes not_at path = true -> ref <> "" ->
    PlainActionReference (org +:+ "/" +:+ repo +:+ "/" +:+ path +:+ "@" +:+ ref).

(** The remote-action grammar: a plain reference, "optionally prefixed with
    an explicit http(s)://{host}/". *)
Inductive RemoteActionReference : string -> Prop :=
| reference_plain (s : string) :
    PlainActionReference s -> RemoteActionReference s
| reference_with_host (schema host s : string) :
    schema = "https://" \/ schema = "http://" ->
    PlainActionReference s ->
    RemoteActionReference (schema +:+ host +:+ "/" +:+ s).

(** ** What a trace shows *)

Definition is_GitClone (o : Op) : bool :=
  match o with OpGitClone _ => true | _ => false end.
Definition is_Stat (o : Op) : bool :=
  match o with OpStat _ => true | _ => false end.
Definition is_Create (o : Op) : bool :=
  match o with OpCreate _ _ _ => true | _ => false end.
Definition is_NetworkCreate (name : string) (o : Op) : bool :=
  match o with OpNetworkCreate n => String.eqb n name | _ => false end.

(** Every clone of the trace is made while [executorLock] is held; [held]
    tells whether it is held at the start. *)
Fixpoint clones_under_lock (held : bool) (ops : list Op) : bool :=
  match ops with
  | [] => true
  | OpLock :: rest => clones_under_lock true rest
  | OpUnlock :: rest => clones_under_lock false rest
  | OpGitClone _ :: rest => held && clones_under_lock held rest
  | _ :: rest => clones_under_lock held rest
  end.

(** Every operation a computation can make satisfies [P], whatever the
    answers. *)
Inductive ops_in {A : Type} (P : Op -> Prop) : Exec A -> Prop :=
| ops_in_Ret (a : A) : ops_in P (Ret a)
| ops_in_Vis (o : Op) (k : Resp o -> Exec A) :
    P o -> (forall r, ops_in P (k r)) -> ops_in P (Vis o k).

(** ** Goroutines and the mutex

    Several goroutines run executors against one [executorLock].  A
    goroutine is running its computation or waiting for the answer to a call
    it has issued; [Lock] can be taken only while nobody holds the lock. *)
Inductive goroutine (A : Type) : Type :=
| Running (m : Exec A)
| Waiting (o : Op) (k : Resp o -> Exec A).

Arguments Running {A} m.
Arguments Waiting {A} o k.

Record machine (A : Type) : Type := {
  lock_owner : option nat;
  goroutines : list (goroutine A) }.

Arguments lock_owner {A} m.
Arguments goroutines {A} m.

Definition is_lock_op (o : Op) : bool :=
  match o with OpLock | OpUnlock => true | _ => false end.

Inductive step {A : Type} : machine A -> machine A -> Prop :=
| step_Lock (m : machine A) (i : nat) (k : unit -> Exec A) :
    lock_owner m = None ->
    goroutines m !! i = Some (Running (Vis OpLock k)) ->
    step m {| lock_owner := Some i;
              goroutines := <[i := Running (k tt)]> (goroutines m) |}
| step_Unlock (m : machine A) (i : nat) (k : unit -> Exec A) :
    goroutines m !! i = Some (Running (Vis OpUnlock k)) ->
    step m {| lock_owner := None;
              goroutines := <[i := Running (k tt)]> (goroutines m) |}
| step_call (m : machine A) (i : nat) (o : Op) (k : Resp o -> Exec A) :
    is_lock_op o = false ->
    goroutines m !! i = Some (Running (Vis o k)) ->
    step m {| lock_owner := lock_owner m;
              goroutines := <[i := Waiting o k]> (goroutines m) |}
| step_answer (m : machine A) (i : nat) (o : Op) (k : Resp o -> Exec A) (r : Resp o) :
    goroutines m !! i = Some (Waiting o k) ->
    step m {| lock_owner := lock_owner m;
              goroutines := <[i := Running (k r)]> (goroutines m) |}.

Inductive reachable {A : Type} (m0 : machine A) : machine A -> Prop :=
| reachable_start : reachable m0 m0
| reachable_step (m m' : machine A) : reachable m0 m -> step m m' -> reachable m0 m'.

(** All goroutines at their start, the lock free. *)
Definition start {A : Type} (bodies : list (Exec A)) : machine A :=
  {| lock_owner := None; goroutines := map Running bodies |}.

(** Goroutine [i] is in the middle of a clone. *)
Definition fetching {A : Type} (m : machine A) (i : nat) : Prop :=
  exists input k, goroutines m !! i = Some (Waiting (OpGitClone input) k).

(** One move of goroutine [i], as [step] allows it: it takes the lock when
    the lock is free and stays blocked otherwise, releases it, issues its
    next call, or receives the answer of the backend to the call it waits
    for. *)
Definition advance {A : Type} (Bk : Backend) (i : nat) (m : machine A) : machine A :=
  match goroutines m !! i with
  | Some (Running (Vis o k)) =>
      match o as o' return (Resp o' -> Exec A) -> machine A with
      | OpLock => fun k =>
          match lock_owner m with
          | None => {| lock_owner := Some i;
                       goroutines := <[i := Running (k tt)]> (goroutines m) |}
          | Some _ => m
          end
      | OpUnlock => fun k =>
          {| lock_owner := None;
             goroutines := <[i := Running (k tt)]> (goroutines m) |}
      | o' => fun k =>
          {| lock_owner := lock_owner m;
             goroutines := <[i := Waiting o' k]> (goroutines m) |}
      end k
  | Some (Waiting o k) =>
      {| lock_owner := lock_owner m;
         goroutines := <[i := Running (k (Bk [] o))]> (goroutines m) |}
  | _ => m
  end.

(** The machine after the goroutines have moved in the order of the
    schedule. *)
Definition interleave {A : Type} (Bk : Backend) (schedule : list nat) (m : machine A)
  : machine A :=
  fold_left (fun m i => advance Bk i m) schedule m.

(** A computation that clones only between a [Lock] and the next [Unlock]
    of its own; [held] tells whether it holds the lock. *)
Inductive disciplined {A : Type} : bool -> Exec A -> Prop :=
| disciplined_Ret (held : bool) (a : A) : disciplined held (Ret a)
| disciplined_Lock (k : unit -> Exec A) :
    (forall r, disciplined true (k r)) -> disciplined false (Vis OpLock k)
| disciplined_Unlock (k : unit -> Exec A) :
    (forall r, disciplined false (k r)) -> disciplined true (Vis OpUnlock k)
| disciplined_call (held : bool) (o : Op) (k : Resp o -> Exec A) :
    is_lock_op o = false ->
    (is_GitClone o = true -> held = true) ->
    (forall r, disciplined held (k r)) ->
    disciplined held (Vis o k).

(** ** Vocabulary of the properties *)

(** What preparation may call: the context, the logger, the action
    servers, one clone into the directory named after the raw [uses]
    string, and the manifest reader. *)
Definition prepare_op (sar : stepActionRemote) (o : Op) : Prop :=
  o = OpGetGithubContext
  \/ (exists lvl msg, o = OpLog lvl msg)
  \/ (exists url, o = OpHttpGet url)
  \/ (exists input, o = OpGitClone input
        /\ clone_Dir input =
             rc_ActionCacheDir (sar_RunContext sar) +:+ "/" +:+
             safeFilename (step_Uses (sar_Step sar)))
  \/ (exists actionDir actionPath,
        o = OpReadAction (step_Uses (sar_Step sar)) actionDir actionPath).

(** The invariant of the machine: a goroutine that holds the lock follows
    the discipline of a holder, every other one that of a non-holder, and a
    goroutine in the middle of a clone holds the lock. *)
Definition lock_invariant {A : Type} (m : machine A) : Prop :=
  forall (i : nat) (g : goroutine A),
    goroutines m !! i = Some g ->
    match g with
    | Running t => disciplined (bool_decide (lock_owner m = Some i)) t
    | Waiting o k =>
        is_lock_op o = false
        /\ (is_GitClone o = true -> lock_owner m = Some i)
        /\ forall r, disciplined (bool_decide (lock_owner m = Some i)) (k r)
    end.

(** The backend interpolates by the function [interp], whatever was called
    before. *)
Definition interpolates (Bk : Backend) (interp : string -> string) : Prop :=
  forall (h : list Op) (ev : evaluator) (template : string),
    Bk h (OpInterpolate ev template) = interp template.

(** An operation other than the creation of a container. *)
Definition not_Create (o : Op) : Prop := is_Create o = false.

(** Credentials that cannot be resolved: a mapping without exactly two
    entries, or exactly one of the user name and the password empty after
    interpolation. *)
Definition partial_credentials (interp : string -> string) (creds : gmap string string)
  : Prop :=
  let username := interp (index creds "username") in
  let password := interp (index creds "password") in
  size creds <> 2
  \/ (username = "" /\ password <> "")
  \/ (username <> "" /\ password = "").

(** In the trace, every creation of a container comes after the creation of
    the network [name]; [seen] tells whether the network has been created
    before the trace starts. *)
Fixpoint creates_after_network (name : string) (seen : bool) (ops : list Op) : bool :=
  match ops with
  | [] => true
  | o :: rest =>
      (negb (is_Create o) || seen)
      && creates_after_network name (seen || is_NetworkCreate name o) rest
  end.

(** The same for a computation, whatever the answers. *)
Inductive network_first {A : Type} (name : string) : bool -> Exec A -> Prop :=
| network_first_Ret (seen : bool) (a : A) : network_first name seen (Ret a)
| network_first_Vis (seen : bool) (o : Op) (k : Resp o -> Exec A) :
    (is_Create o = true -> seen = true) ->
    (forall r, network_first name (seen || is_NetworkCreate name o) (k r)) ->
    network_first name seen (Vis o k).

(** ** Stub collaborators and example inputs

    A recording stub backend, in the manner of a test double: the calls made
    are the trace that [run] returns. *)

(** ASCII instances of [strings.ToLower] and [strings.EqualFold]. *)
Definition ascii_ToLower (s : string) : string :=
  map_bytes
    (fun c =>
       let n := nat_of_ascii c in
       if (65 <=? n) && (n <=? 90) then ascii_of_nat (n + 32) else c)
    s.

Definition ascii_EqualFold (s t : string) : bool :=
  String.eqb (ascii_ToLower s) (ascii_ToLower t).

(** A driver whose constructor always gives a handle. *)
Definition stub_NewContainer (input : NewContainerInput) : ExecutionsEnvironment :=
  Some input.

Definition stub_GetActPath (c : ExecutionsEnvironment) : string := "/var/run/act".

Definition stub_github : GithubContext :=
  {| ghc_Repository := "octocat/hello-world"; ghc_Ref := "refs/heads/main";
     ghc_Token := ""; ghc_ActionRepository := ""; ghc_ActionRef := "" |}.

(** A backend whose calls all succeed, but for what it is told to answer to
    [os.Stat], to a clone, to the evaluation of a condition and to the
    scheduler; it interpolates a template to itself. *)
Definition stub_backend (stat : statResult) (clone : cloneResult)
    (condition : bool * option error) (schedule : list nat) : Backend :=
  fun _ o =>
    match o return Resp o with
    | OpLog _ _ => tt
    | OpEvalBool _ => condition
    | OpNewExpressionEvaluator => tt
    | OpInterpolate _ template => template
    | OpGetGithubContext => stub_github
    | OpHttpGet _ => httpStatus 200
    | OpGitClone _ => clone
    | OpStat _ => stat
    | OpLock => tt
    | OpUnlock => tt
    | OpReadAction _ _ _ => (Some (mkAction "setup"), None)
    | OpNewWorkflowPlanner _ _ => None
    | OpPlanEvent _ => None
    | OpNewReusableWorkflowRunner => None
    | OpRunPlan => None
    | OpRunnerArch => "X64"
    | OpPull _ _ => None
    | OpCreate _ _ _ => None
    | OpStart _ _ => None
    | OpCopy _ _ _ => None
    | OpNetworkCreate _ => None
    | OpGoSchedule _ => schedule
    end.

Definition example_config : Config :=
  {| ContainerNamePrefix := "act";
     ContainerNetworkMode := "host";
     NeedCreateNetwork := true;
     ForcePull := false;
     ContainerCapAdd := [];
     ContainerCapDrop := [];
     ContainerOptions := "";
     ContainerArchitecture := "";
     Privileged := false;
     UsernsMode := "";
     AutoRemove := true;
     ReuseContainers := false;
     Secrets := {[ "DOCKER_USERNAME" := "bob" ]};
     Platforms := {[ "ubuntu-latest" := "node:16-bullseye" ]};
     PlatformPicker := None;
     NoSkipCheckout := false;
     ReplaceGheActionWithGithubCom := [];
     ReplaceGheActionTokenWithGithubCom := "";
     DefaultActionsURLs := ["https://gitea.com"];
     GitHubInstance := "https://gitea.example.com";
     Token := "secret-token";
     PresetGitHubContext :=
       Some {| preset_Repository := "octocat/hello-world";
               preset_Sha := "0123456789abcdef0123456789abcdef01234567" |} |}.

Definition example_run_context (job : Job) : RunContext :=
  {| rc_Name := "build";
     rc_Config := example_config;
     rc_WorkflowName := "ci";
     rc_Job := job;
     rc_EventJSON := "{}";
     rc_callerJobID := None;
     rc_ActionCacheDir := "/home/runner/.cache/act";
     rc_JobContainer := None;
     rc_ServiceContainers := [];
     rc_cleanUpJobContainer := cleanUpUnset |}.

(** A service with an image and the given credentials mapping. *)
Definition example_service (credentials : option (gmap string string)) : ContainerSpec :=
  {| cs_Image := "postgres:15"; cs_Env := [("POSTGRES_DB", "ci")]; cs_Cmd := [];
     cs_Options := ""; cs_Credentials := credentials |}.

(** A default job with one service. *)
Definition example_job (credentials : option (gmap string string)) : Job :=
  {| job_Name := "build"; job_If := "always()"; job_Uses := "";
     job_Type := JobTypeDefault; job_Container := None;
     job_RunsOn := Some ["ubuntu-latest"];
     job_Services := [("db", example_service credentials)] |}.

(** A job with a container spec that declares no credentials. *)
Definition example_container_job : Job :=
  {| job_Name := "build"; job_If := ""; job_Uses := "";
     job_Type := JobTypeDefault;
     job_Container := Some {| cs_Image := "node:16"; cs_Env := []; cs_Cmd := [];
                              cs_Options := ""; cs_Credentials := None |};
     job_RunsOn := Some ["ubuntu-latest"];
     job_Services := [] |}.

(** Jobs that call a reusable workflow. *)
Definition example_local_workflow_job : Job :=
  {| job_Name := "call"; job_If := ""; job_Uses := "./.gitea/workflows/build.yml";
     job_Type := JobTypeReusableWorkflowLocal; job_Container := None;
     job_RunsOn := None; job_Services := [] |}.

Definition example_remote_workflow_job : Job :=
  {| job_Name := "call"; job_If := "";
     job_Uses := "octocat/hello-world/.github/workflows/ci.yml@v1";
     job_Type := JobTypeReusableWorkflowRemote; job_Container := None;
     job_RunsOn := None; job_Services := [] |}.

(** A run started without a preset GitHub context, and a job in it that
    calls a local reusable workflow under the condition [false]. *)
Definition example_config_without_preset : Config :=
  {| ContainerNamePrefix := "act";
     ContainerNetworkMode := "host";
     NeedCreateNetwork := true;
     ForcePull := false;
     ContainerCapAdd := [];
     ContainerCapDrop := [];
     ContainerOptions := "";
     ContainerArchitecture := "";
     Privileged := false;
     UsernsMode := "";
     AutoRemove := true;
     ReuseContainers := false;
     Secrets := ∅;
     Platforms := {[ "ubuntu-latest" := "node:16-bullseye" ]};
     PlatformPicker := None;
     NoSkipCheckout := false;
     ReplaceGheActionWithGithubCom := [];
     ReplaceGheActionTokenWithGithubCom := "";
     DefaultActionsURLs := ["https://gitea.com"];
     GitHubInstance := "https://gitea.example.com";
     Token := "secret-token";
     PresetGitHubContext := None |}.

Definition example_run_context_without_preset (job : Job) : RunContext :=
  {| rc_Name := "call";
     rc_Config := example_config_without_preset;
     rc_WorkflowName := "ci";
     rc_Job := job;
     rc_EventJSON := "{}";
     rc_callerJobID := None;
     rc_ActionCacheDir := "/home/runner/.cache/act";
     rc_JobContainer := None;
     rc_ServiceContainers := [];
     rc_cleanUpJobContainer := cleanUpUnset |}.

Definition example_skipped_local_workflow_job : Job :=
  {| job_Name := "call"; job_If := "false"; job_Uses := "./.gitea/workflows/build.yml";
     job_Type := JobTypeReusableWorkflowLocal; job_Container := None;
     job_RunsOn := None; job_Services := [] |}.

(** A step that uses a remote action, not prepared yet. *)
Definition example_step (uses : string) : stepActionRemote :=
  {| sar_Step := {| step_Uses := uses; step_With := ∅;
                    step_Type := StepTypeUsesActionRemote |};
     sar_RunContext := example_run_context example_container_job;
     sar_action := None;
     sar_remoteAction := None |}.

(** A job in a container that declares the given credentials. *)
Definition example_credentials_job (credentials : gmap string string) : Job :=
  {| job_Name := "build"; job_If := ""; job_Uses := "";
     job_Type := JobTypeDefault;
     job_Container := Some {| cs_Image := "node:16"; cs_Env := []; cs_Cmd := [];
                              cs_Options := ""; cs_Credentials := Some credentials |};
     job_RunsOn := Some ["ubuntu-latest"];
     job_Services := [] |}.

(** A job for a runner label that no platform is configured for. *)
Definition example_unsupported_job : Job :=
  {| job_Name := "build"; job_If := "success()"; job_Uses := "";
     job_Type := JobTypeDefault; job_Container := None;
     job_RunsOn := Some ["windows-latest"];
     job_Services := [] |}.

(** A step whose action is listed in [ReplaceGheActionWithGithubCom]. *)
Definition example_listed_step : stepActionRemote :=
  {| sar_Step := {| step_Uses := "https://ghe.example.com/actions/setup-go@v4";
                    step_With := ∅; step_Type := StepTypeUsesActionRemote |};
     sar_RunContext :=
       {| rc_Name := "build";
          rc_Config :=
            {| ContainerNamePrefix := "act";
               ContainerNetworkMode := "host";
               NeedCreateNetwork := false;
               ForcePull := false;
               ContainerCapAdd := [];
               ContainerCapDrop := [];
               ContainerOptions := "";
               ContainerArchitecture := "";
               Privileged := false;
               UsernsMode := "";
               AutoRemove := true;
               ReuseContainers := false;
               Secrets := ∅;
               Platforms := ∅;
               PlatformPicker := None;
               NoSkipCheckout := false;
               ReplaceGheActionWithGithubCom := ["Actions/Setup-Go"];
               ReplaceGheActionTokenWithGithubCom := "github-token";
               DefaultActionsURLs := ["https://gitea.com"];
               GitHubInstance := "https://ghe.example.com";
               Token := "secret-token";
               PresetGitHubContext :=
                 Some {| preset_Repository := "octocat/hello-world";
                         preset_Sha := "0123456789abcdef0123456789abcdef01234567" |} |};
          rc_WorkflowName := "ci";
          rc_Job := example_container_job;
          rc_EventJSON := "{}";
          rc_callerJobID := None;
          rc_ActionCacheDir := "/home/runner/.cache/act";
          rc_JobContainer := None;
          rc_ServiceContainers := [];
          rc_cleanUpJobContainer := cleanUpUnset |};
     sar_action := None;
     sar_remoteAction := None |}.


Section Runner.

(** [strings.EqualFold] and [strings.ToLower] fold case over all of Unicode;
    they are taken as given. *)
Variable strings_EqualFold : string -> string -> bool.
Variable strings_ToLower : string -> string.

(** [container.NewContainer], the driver's constructor of a container
    handle. *)
Variable container_NewContainer : NewContainerInput -> ExecutionsEnvironment.

(** [c.GetActPath()], a constant of the handle's kind. *)
Variable GetActPath : ExecutionsEnvironment -> string.

(** [newJobExecutor(rc, &stepFactoryImpl{}, rc)], absent from the sources:
    the executor of a default job, which provisions the environment and runs
    the steps. *)
Variable newJobExecutor : RunContext -> Executor RunContext.

(** The loop of [prepareActionExecutor] over
    [Config.ReplaceGheActionWithGithubCom]. *)
Definition replaceGheAction (config : Config) (ra : remoteAction) (github : GithubContext)
  : remoteAction * GithubContext :=
  fold_left
    (fun '(ra, github) action =>
       if strings_EqualFold (ra_Org ra +:+ "/" +:+ ra_Repo ra) action
       then (set_ra_URL ra "github.com",
             set_ghc_Token github (ReplaceGheActionTokenWithGithubCom config))
       else (ra, github))
    (ReplaceGheActionWithGithubCom config) (ra, github).

(** [fmt.Sprintf("%s/%s", rc.ActionCacheDir(), safeFilename(uses))] *)
Definition cacheDirOf (rc : RunContext) (uses : string) : string :=
  rc_ActionCacheDir rc +:+ "/" +:+ safeFilename uses.

(** func (sar *stepActionRemote) prepareActionExecutor() common.Executor *)
Definition prepareActionExecutor : Executor stepActionRemote := fun sar =>
  if bool_decide (is_Some (sar_remoteAction sar)) && bool_decide (is_Some (sar_action sar))
  then Ret (None, sar)
  else
    let uses := step_Uses (sar_Step sar) in
    let config := rc_Config (sar_RunContext sar) in
    let sar := set_sar_remoteAction sar (newRemoteAction uses) in
    match sar_remoteAction sar with
    | None =>
        Ret (Some (errorString
               ("Expected format {org}/{repo}[/path]@ref. Actual '" +:+ uses +:+
                "' Input string was not in a correct format")), sar)
    | Some remoteAction0 =>
        github <- sar_getGithubContext sar ;;
        if IsCheckout remoteAction0 && isLocalCheckout github (sar_Step sar)
           && negb (NoSkipCheckout config)
        then
          _ <- call (OpLog DebugLevel
                 "Skipping local actions/checkout because workdir was already copied") ;;
          Ret (None, sar)
        else
          let '(remoteAction, github) := replaceGheAction config remoteAction0 github in
          let sar := set_sar_remoteAction sar (Some remoteAction) in
          '(cloneURL, err) <- GetAvailableCloneURL remoteAction (DefaultActionsURLs config) ;;
          match err with
          | Some err =>
              Ret (Some (wrapError
                     ("failed to get available clone url of [" +:+ uses +:+
                      "] action, error: " +:+ Error err) err), sar)
          | None =>
              let actionDir := cacheDirOf (sar_RunContext sar) uses in
              res <- call (OpGitClone
                       {| clone_URL := cloneURL; clone_Ref := ra_Ref remoteAction;
                          clone_Dir := actionDir; clone_Token := "" |}) ;;
              let fetched : error + option (Executor stepActionRemote) :=
                match res with
                | cloneOk => inr None
                | cloneErrShortRef err commit =>
                    inl (errorString
                      ("Unable to resolve action `" +:+ uses +:+
                       "`, the provided ref `" +:+ ra_Ref remoteAction +:+
                       "` is the shortened version of a commit SHA, which is not supported. Please use the full commit SHA `" +:+
                       commit +:+ "` instead"))
                | cloneErrForceNeeded err =>
                    inr (Some (NewInfoExecutor
                      ("Non-terminating error while running 'git clone': " +:+ Error err)))
                | cloneErr err => inl err
                end in
              match fetched with
              | inl err => Ret (Some err, sar)
              | inr ntErr =>
                  NewPipelineExecutor
                    [ ntErr;
                      Some (fun sar =>
                        '(actionModel, err) <-
                          call (OpReadAction uses actionDir (ra_Path remoteAction)) ;;
                        Ret (err, set_sar_action sar actionModel)) ]
                    sar
              end
          end
    end.

(** ** Reusable workflows ([reusable_workflow.go]) *)

Record remoteReusableWorkflow : Type := {
  rrw_GitPlatform : string;
  rrw_URL : string;
  rrw_Org : string;
  rrw_Repo : string;
  rrw_Filename : string;
  rrw_Ref : string }.

(** func (r *remoteReusableWorkflow) CloneURL() string *)
Definition rrw_CloneURL (r : remoteReusableWorkflow) : string :=
  rrw_URL r +:+ "/" +:+ rrw_Org r +:+ "/" +:+ rrw_Repo r.

(** func (r *remoteReusableWorkflow) FilePath() string *)
Definition FilePath (r : remoteReusableWorkflow) : string :=
  "./." +:+ rrw_GitPlatform r +:+ "/workflows/" +:+ rrw_Filename r.

(** The rest of [s] after the literal [lit], when [s] starts with it. *)
Definition expect (lit s : string) : option string :=
  if HasPrefix s lit then Some (drop_bytes (String.length lit) s) else None.

(** [r.FindStringSubmatch(uses)] for the pattern
    "^([^/]+)/([^/]+)/\.([^/]+)/workflows/([^@]+)@(.*)$": the groups 1 to 5
    of the match, [None] when there is none.  The first three groups end at
    the next slash and the fourth at the next at-sign, so the match is
    unique. *)
Definition match_reusable (uses : string)
  : option (string * string * string * string * string) :=
  let '(org, rest1) := span not_slash uses in
  if String.eqb org "" then None else
  match expect "/" rest1 with
  | None => None
  | Some rest2 =>
      let '(repo, rest3) := span not_slash rest2 in
      if String.eqb repo "" then None else
      match expect "/." rest3 with
      | None => None
      | Some rest4 =>
          let '(platform, rest5) := span not_slash rest4 in
          if String.eqb platform "" then None else
          match expect "/workflows/" rest5 with
          | None => None
          | Some rest6 =>
              let '(filename, rest7) := span not_at rest6 in
              if String.eqb filename "" then None else
              match expect "@" rest7 with
              | None => None
              | Some ref =>
                  if all_bytes not_newline ref
                  then Some (org, repo, platform, filename, ref)
                  else None
              end
          end
      end
  end.

(** func newRemoteReusableWorkflow(uses string) *remoteReusableWorkflow *)
Definition newRemoteReusableWorkflow (uses : string) : option remoteReusableWorkflow :=
  match match_reusable uses with
  | None => None
  | Some (org, repo, platform, filename, ref) =>
      Some {| rrw_GitPlatform := platform; rrw_URL := ""; rrw_Org := org;
              rrw_Repo := repo; rrw_Filename := filename; rrw_Ref := ref |}
  end.

Definition set_rrw_URL (r : remoteReusableWorkflow) (url : string)
  : remoteReusableWorkflow :=
  {| rrw_GitPlatform := rrw_GitPlatform r; rrw_URL := url; rrw_Org := rrw_Org r;
     rrw_Repo := rrw_Repo r; rrw_Filename := rrw_Filename r; rrw_Ref := rrw_Ref r |}.

(** func newMutexExecutor(executor common.Executor) common.Executor *)
Definition newMutexExecutor {S : Type} (executor : Executor S) : Executor S :=
  fun s =>
    _ <- call OpLock ;;
    r <- executor s ;;
    _ <- call OpUnlock ;;
    Ret r.

(** func cloneIfRequired(rc, remoteReusableWorkflow, targetDirectory) common.Executor *)
Definition cloneIfRequired {S : Type} (rc : RunContext)
    (remoteReusableWorkflow : remoteReusableWorkflow) (targetDirectory : string)
  : Executor S :=
  NewConditionalExecutor
    (err <- call (OpStat targetDirectory) ;;
     let notExists := match err with statNotExist => true | _ => false end in
     Ret notExists)
    (Some (stateless
       (res <- call (OpGitClone
                 {| clone_URL := rrw_CloneURL remoteReusableWorkflow;
                    clone_Ref := rrw_Ref remoteReusableWorkflow;
                    clone_Dir := targetDirectory;
                    clone_Token := Token (rc_Config rc) |}) ;;
        Ret (cloneResult_error res))))
    None.

(** func newReusableWorkflowExecutor(rc, directory, workflow) common.Executor *)
Definition newReusableWorkflowExecutor {S : Type} (rc : RunContext)
    (directory workflow : string) : Executor S :=
  stateless
    (err <- call (OpNewWorkflowPlanner directory workflow) ;;
     match err with
     | Some _ => Ret err
     | None =>
         err <- call (OpPlanEvent "workflow_call") ;;
         match err with
         | Some _ => Ret err
         | None =>
             err <- call OpNewReusableWorkflowRunner ;;
             match err with
             | Some _ => Ret err
             | None => call OpRunPlan
             end
         end
     end).

(** The common body of the two constructors, from the [uses] string on. *)
Definition reusableWorkflowExecutor {S : Type} (rc : RunContext) (uses : string)
  : Executor S :=
  match newRemoteReusableWorkflow uses with
  | None =>
      NewErrorExecutor (errorString
        ("expected format {owner}/{repo}/.{git_platform}/workflows/{filename}@{ref}. Actual '"
         +:+ uses +:+ "' Input string was not in a correct format"))
  | Some remoteReusableWorkflow =>
      let remoteReusableWorkflow :=
        set_rrw_URL remoteReusableWorkflow (GitHubInstance (rc_Config rc)) in
      let workflowDir := cacheDirOf rc uses in
      NewPipelineExecutor
        [ Some (newMutexExecutor (cloneIfRequired rc remoteReusableWorkflow workflowDir));
          Some (newReusableWorkflowExecutor rc workflowDir (FilePath remoteReusableWorkflow)) ]
  end.

(** func newLocalReusableWorkflowExecutor(rc *RunContext) common.Executor *)
Definition newLocalReusableWorkflowExecutor {S : Type} (rc : RunContext) : Executor S :=
  let trimmedUses := TrimPrefix (job_Uses (rc_Job rc)) "./" in
  let uses := Preset_Repository (rc_Config rc) +:+ "/" +:+ trimmedUses +:+ "@"
              +:+ Preset_Sha (rc_Config rc) in
  reusableWorkflowExecutor rc uses.

(** func newRemoteReusableWorkflowExecutor(rc *RunContext) common.Executor *)
Definition newRemoteReusableWorkflowExecutor {S : Type} (rc : RunContext) : Executor S :=
  let uses := job_Uses (rc_Job rc) in
  reusableWorkflowExecutor rc uses.

(** ** The run context's executors ([run_context.go]) *)

(** The bytes of U+274C, U+1F6A7 and U+1F680 in UTF-8. *)
Definition cross_mark : string :=
  String "226" (String "157" (String "140" "")).
Definition construction_sign : string :=
  String "240" (String "159" (String "154" (String "167" ""))).
Definition rocket : string :=
  String "240" (String "159" (String "154" (String "128" ""))).
Definition quote : string := String quote_byte "".

(** func (rc *RunContext) platformImage(ctx context.Context) string *)
Definition platformImage (rc : RunContext) : Exec string :=
  let job := rc_Job rc in
  match job_Container job with
  | Some c => Interpolate rcExprEval (cs_Image c)
  | None =>
      _ <- match job_RunsOn job with
           | None => call (OpLog ErrorLevel
                       ("'runs-on' key not defined in " +:+ rc_String rc))
           | Some _ => Ret tt
           end ;;
      runsOn <- mapM (fun v => Interpolate rcExprEval v)
                  (default [] (job_RunsOn job)) ;;
      let picked := match PlatformPicker (rc_Config rc) with
                    | Some pick => pick runsOn
                    | None => ""
                    end in
      if negb (String.eqb picked "") then Ret picked
      else
        Ret (default ""
               (head (filter (fun image => negb (String.eqb image ""))
                        (map (fun runnerLabel =>
                                index (Platforms (rc_Config rc))
                                  (strings_ToLower runnerLabel))
                           runsOn))))
  end.

(** func (rc *RunContext) isEnabled(ctx context.Context) (bool, error) *)
Definition isEnabled (rc : RunContext) : Exec (bool * option error) :=
  let job := rc_Job rc in
  '(runJob, err) <- call (OpEvalBool (job_If job)) ;;
  match err with
  | Some err =>
      Ret (false, Some (errorString
             ("  " +:+ cross_mark +:+ "  Error in if-expression: " +:+ quote +:+
              "if: " +:+ job_If job +:+ quote +:+ " (" +:+ Error err +:+ ")")))
  | None =>
      if negb runJob then
        _ <- call (OpLog DebugLevel
               ("Skipping job '" +:+ job_Name job +:+ "' due to '" +:+ job_If job +:+ "'")) ;;
        Ret (false, None)
      else
        match job_Type job with
        | JobTypeDefault =>
            img <- platformImage rc ;;
            if String.eqb img "" then
              _ <- match job_RunsOn job with
                   | None => call (OpLog ErrorLevel
                               ("'runs-on' key not defined in " +:+ rc_String rc))
                   | Some _ => Ret tt
                   end ;;
              _ <- forM_ (fun runnerLabel =>
                       platformName <- Interpolate rcExprEval runnerLabel ;;
                       call (OpLog InfoLevel
                         (construction_sign +:+
                          "  Skipping unsupported platform -- Try running with `-P "
                          +:+ platformName +:+ "=...`")))
                     (default [] (job_RunsOn job)) ;;
              Ret (false, None)
            else Ret (true, None)
        | _ => Ret (true, None)
        end
  end.

(** func (rc *RunContext) Executor() common.Executor.  The executor of the
    job's kind is built when [Executor()] is called, from [rc] as it is
    then, and before the job's condition is looked at.  Building the
    executor of a local reusable workflow reads
    [rc.Config.PresetGitHubContext.Repository] first: on a [nil] preset the
    call panics and [Executor()] returns nothing.  The closure returned
    otherwise runs on the run context as it is when invoked. *)
Definition rc_Executor (rc : RunContext) : outcome (Executor RunContext) :=
  let executor :=
    match job_Type (rc_Job rc) with
    | JobTypeDefault => returned (newJobExecutor rc)
    | JobTypeReusableWorkflowLocal =>
        match PresetGitHubContext (rc_Config rc) with
        | None => panicked
        | Some _ => returned (newLocalReusableWorkflowExecutor rc)
        end
    | JobTypeReusableWorkflowRemote => returned (newRemoteReusableWorkflowExecutor rc)
    end in
  match executor with
  | returned executor =>
      returned
        (fun rc =>
           '(res, err) <- isEnabled rc ;;
           match err with
           | Some _ => Ret (err, rc)
           | None => if res then executor rc else Ret (None, rc)
           end)
  | failed err => failed err
  | panicked => panicked
  end.

(** func (rc *RunContext) options(ctx context.Context) string *)
Definition options (rc : RunContext) : string :=
  match job_Container (rc_Job rc) with
  | None => ContainerOptions (rc_Config rc)
  | Some c => cs_Options c
  end.

(** func (rc *RunContext) handleCredentials(ctx) (username, password string, err error) *)
Definition handleCredentials (rc : RunContext) : Exec (string * string * option error) :=
  let username := index (Secrets (rc_Config rc)) "DOCKER_USERNAME" in
  let password := index (Secrets (rc_Config rc)) "DOCKER_PASSWORD" in
  match job_Container (rc_Job rc) with
  | None => Ret (username, password, None)
  | Some container =>
      match cs_Credentials container with
      | None => Ret (username, password, None)
      | Some credentials =>
          if negb (size credentials =? 2) then
            Ret (username, password,
                 Some (errorString "invalid property count for key 'credentials:'"))
          else
            _ <- call OpNewExpressionEvaluator ;;
            username <- Interpolate newEvaluator (index credentials "username") ;;
            if String.eqb username "" then
              Ret (username, password,
                   Some (errorString "failed to interpolate container.credentials.username"))
            else
              password <- Interpolate newEvaluator (index credentials "password") ;;
              if String.eqb password "" then
                Ret (username, password,
                     Some (errorString "failed to interpolate container.credentials.password"))
              else if String.eqb (index credentials "username") ""
                      || String.eqb (index credentials "password") "" then
                Ret (username, password,
                     Some (errorString "container.credentials cannot be empty"))
              else Ret (username, password, None)
      end
  end.

(** func (rc *RunContext) handleServiceCredentials(ctx, creds map[string]string)
    (username, password string, err error) *)
Definition handleServiceCredentials (rc : RunContext) (creds : option (gmap string string))
  : Exec (string * string * option error) :=
  match creds with
  | None => Ret ("", "", None)
  | Some creds =>
      if negb (size creds =? 2) then
        Ret ("", "", Some (errorString "invalid property count for key 'credentials:'"))
      else
        _ <- call OpNewExpressionEvaluator ;;
        username <- Interpolate newEvaluator (index creds "username") ;;
        if String.eqb username "" then
          Ret (username, "", Some (errorString "failed to interpolate credentials.username"))
        else
          password <- Interpolate newEvaluator (index creds "password") ;;
          if String.eqb password "" then
            Ret (username, password,
                 Some (errorString "failed to interpolate credentials.password"))
          else Ret (username, password, None)
  end.

(** The executors a container handle returns: [c.Pull(forcePull)],
    [c.Create(capAdd, capDrop)], [c.Start(attach)], [c.Copy(destPath, files...)]. *)
Definition Pull (c : ExecutionsEnvironment) (forcePull : bool) : Exec (option error) :=
  call (OpPull c forcePull).
Definition Create (c : ExecutionsEnvironment) (capAdd capDrop : list string)
  : Exec (option error) :=
  call (OpCreate c capAdd capDrop).
Definition Start (c : ExecutionsEnvironment) (attach : bool) : Exec (option error) :=
  call (OpStart c attach).
Definition Copy (c : ExecutionsEnvironment) (destPath : string) (files : list FileEntry)
  : Exec (option error) :=
  call (OpCopy c destPath files).

(** An executor over no captured state, as a computation. *)
Definition closed (e : Executor unit) : Exec (option error) :=
  '(err, _) <- e tt ;; Ret err.

(** func (rc *RunContext) createNetwork(name string) common.Executor *)
Definition createNetwork {S : Type} (name : string) : Executor S :=
  stateless (call (OpNetworkCreate name)).

(** func (rc *RunContext) pullServicesImages(forcePull bool) common.Executor *)
Definition pullServicesImages (forcePull : bool) : Executor RunContext := fun rc =>
  let execs := map (fun c => Pull c forcePull) (rc_ServiceContainers rc) in
  stateless (NewParallelExecutor (length execs) execs) rc.

(** func (rc *RunContext) startServiceContainers(networkName string) common.Executor *)
Definition startServiceContainers (networkName : string) : Executor RunContext := fun rc =>
  let config := rc_Config rc in
  let execs :=
    map (fun c =>
           closed (NewPipelineExecutor
             [ Some (stateless (Pull c false));
               Some (stateless (Create c (ContainerCapAdd config)
                                  (ContainerCapDrop config)));
               Some (stateless (Start c false)) ]))
      (rc_ServiceContainers rc) in
  stateless (NewParallelExecutor (length execs) execs) rc.

(** The loop of [startJobContainer] over [rc.Run.Job().Services]: it appends
    one handle per service to [rc.ServiceContainers] and returns at the
    first service whose credentials cannot be resolved. *)
Fixpoint addServiceContainers (networkName : string)
    (services : list (string * ContainerSpec)) (rc : RunContext)
  : Exec (option error * RunContext) :=
  match services with
  | [] => Ret (None, rc)
  | (serviceId, spec) :: rest =>
      let config := rc_Config rc in
      interpolatedEnvs <-
        mapM (fun '(k, v) => v' <- Interpolate rcExprEval v ;; Ret (k, v'))
          (cs_Env spec) ;;
      let envs := map (fun '(k, v) => k +:+ "=" +:+ v) interpolatedEnvs in
      interpolatedCmd <-
        mapM (fun v => Interpolate rcExprEval v) (cs_Cmd spec) ;;
      '(username, password, err) <- handleServiceCredentials rc (cs_Credentials spec) ;;
      match err with
      | Some err =>
          Ret (Some (wrapError
                 ("failed to handle service " +:+ serviceId +:+ " credentials: "
                  +:+ Error err) err), rc)
      | None =>
          let serviceContainerName :=
            createSimpleContainerName [jobContainerName rc; serviceId] in
          let c := container_NewContainer
            {| nci_Name := serviceContainerName;
               nci_Image := cs_Image spec;
               nci_Username := username;
               nci_Password := password;
               nci_Cmd := interpolatedCmd;
               nci_Env := envs;
               nci_NetworkMode := networkName;
               nci_NetworkAliases := [serviceId];
               nci_Privileged := Privileged config;
               nci_UsernsMode := UsernsMode config;
               nci_Platform := ContainerArchitecture config;
               nci_Options := cs_Options spec;
               nci_AutoRemove := AutoRemove config |} in
          addServiceContainers networkName rest
            (set_ServiceContainers rc (rc_ServiceContainers rc ++ [c]))
      end
  end.

(** func (rc *RunContext) startJobContainer() common.Executor *)
Definition startJobContainer : Executor RunContext := fun rc =>
  let config := rc_Config rc in
  image <- platformImage rc ;;
  '(username, password, err) <- handleCredentials rc ;;
  match err with
  | Some err =>
      Ret (Some (errorString ("failed to handle credentials: " +:+ Error err)), rc)
  | None =>
      _ <- call (OpLog InfoLevel (rocket +:+ "  Start image=" +:+ image)) ;;
      let name := jobContainerName rc in
      arch <- call OpRunnerArch ;;
      let envList :=
        [ "RUNNER_TOOL_CACHE=/opt/hostedtoolcache"; "RUNNER_OS=Linux";
          "RUNNER_ARCH=" +:+ arch; "RUNNER_TEMP=/tmp"; "LANG=C.UTF-8" ] in
      let networkName :=
        if NeedCreateNetwork config then jobContainerName rc +:+ "-network"
        else ContainerNetworkMode config in
      '(err, rc) <- addServiceContainers networkName (job_Services (rc_Job rc)) rc ;;
      match err with
      | Some _ => Ret (err, rc)
      | None =>
          let rc := set_cleanUpJobContainer rc cleanUpJobContainerAndVolumes in
          let rc := set_JobContainer rc (container_NewContainer
            {| nci_Name := name;
               nci_Image := image;
               nci_Username := username;
               nci_Password := password;
               nci_Cmd := [];
               nci_Env := envList;
               nci_NetworkMode := networkName;
               nci_NetworkAliases := [rc_Name rc];
               nci_Privileged := Privileged config;
               nci_UsernsMode := UsernsMode config;
               nci_Platform := ContainerArchitecture config;
               nci_Options := options rc;
               nci_AutoRemove := AutoRemove config |}) in
          match rc_JobContainer rc with
          | None => Ret (Some (errorString "Failed to create job container"), rc)
          | Some _ =>
              let JobContainer := rc_JobContainer rc in
              NewPipelineExecutor
                [ Some (pullServicesImages (ForcePull config));
                  Some (stateless (Pull JobContainer (ForcePull config)));
                  Some (IfBool (createNetwork networkName) (NeedCreateNetwork config));
                  Some (startServiceContainers networkName);
                  Some (stateless (Create JobContainer
                          (ContainerCapAdd config) (ContainerCapDrop config)));
                  Some (stateless (Start JobContainer false));
                  Some (stateless (Copy JobContainer
                          (GetActPath JobContainer +:+ "/")
                          [ {| fe_Name := "workflow/event.json"; fe_Mode := 420;
                               fe_Body := rc_EventJSON rc |};
                            {| fe_Name := "workflow/envs.txt"; fe_Mode := 438;
                               fe_Body := "" |} ])) ]
                rc
          end
      end
  end.

(** ** Binds and mounts of the job container *)

(** func getDockerDaemonSocketMountPath(daemonPath string) string.
    [strings.IndexFunc(scheme, f) == -1] says that no rune of the scheme is
    outside the ASCII letters; a byte of a longer or of an invalid UTF-8
    sequence is not an ASCII letter, so this is a test of the bytes. *)
Definition getDockerDaemonSocketMountPath (daemonPath : string) : string :=
  let protoIndex := Index daemonPath "://" in
  if negb (protoIndex =? -1)%Z then
    let scheme := take_bytes (Z.to_nat protoIndex) daemonPath in
    if strings_EqualFold scheme "npipe" then "/var/run/docker.sock"
    else if strings_EqualFold scheme "unix" then
      drop_bytes (Z.to_nat (protoIndex + 3)) daemonPath
    else if all_bytes ascii_letter scheme then "/var/run/docker.sock"
    else daemonPath
  else daemonPath.

(** What surrounds the runner: [runtime.GOOS], [selinux.GetEnabled()],
    [filepath.IsAbs], and the methods [GetActPath] and [ToContainerPath] of
    [container.LinuxContainerEnvironmentExtensions]. *)
Variable runtime_GOOS : string.
Variable selinux_GetEnabled : bool.
Variable filepath_IsAbs : string -> bool.
Variable ext_GetActPath : string.
Variable ext_ToContainerPath : string -> string.

(** The loop of [GetBindsAndMounts] over the volumes of the job's
    container. *)
Fixpoint addVolumes (volumes : list string) (binds : list string)
    (mounts : gmap string string) : list string * gmap string string :=
  match volumes with
  | [] => (binds, mounts)
  | v :: rest =>
      if negb (Contains v ":") || filepath_IsAbs v then
        addVolumes rest (binds ++ [v]) mounts
      else
        match SplitN2 v ":" with
        | [source; target] => addVolumes rest binds (<[source := target]> mounts)
        | _ => addVolumes rest binds mounts
        end
  end.

(** func (rc *RunContext) GetBindsAndMounts() ([]string, map[string]string),
    on what it reads besides the container name: [ContainerDaemonSocket],
    [BindWorkdir] and [Workdir] are the fields of [rc.Config], and [Volumes]
    is [rc.Run.Job().Container().Volumes], [None] when there is no job or no
    container.  The third component returned is the value it leaves in
    [rc.Config.ContainerDaemonSocket]. *)
Definition GetBindsAndMounts (rc : RunContext) (ContainerDaemonSocket : string)
    (Volumes : option (list string)) (BindWorkdir : bool) (Workdir : string)
  : list string * gmap string string * string :=
  let name := jobContainerName rc in
  let ContainerDaemonSocket :=
    if String.eqb ContainerDaemonSocket "" then "/var/run/docker.sock"
    else ContainerDaemonSocket in
  let binds :=
    if negb (String.eqb ContainerDaemonSocket "-") then
      [getDockerDaemonSocketMountPath ContainerDaemonSocket +:+ ":" +:+ "/var/run/docker.sock"]
    else [] in
  let mounts : gmap string string :=
    <[name +:+ "-env" := ext_GetActPath]> (<["act-toolcache" := "/toolcache"]> ∅) in
  let '(binds, mounts) :=
    match Volumes with
    | Some volumes => addVolumes volumes binds mounts
    | None => (binds, mounts)
    end in
  if BindWorkdir then
    let bindModifiers := "" in
    let bindModifiers :=
      if String.eqb runtime_GOOS "darwin" then ":delegated" else bindModifiers in
    let bindModifiers := if selinux_GetEnabled then ":z" else bindModifiers in
    (binds ++ [Workdir +:+ ":" +:+ ext_ToContainerPath Workdir +:+ bindModifiers],
     mounts, ContainerDaemonSocket)
  else
    (binds, <[name := ext_ToContainerPath Workdir]> mounts, ContainerDaemonSocket).


(** ** Vocabulary of the properties about the runner *)

(** An executor of a reusable workflow, local or remote, at its start. *)
Definition reusable_workflow_run {S : Type} (body : Exec (option error * S)) : Prop :=
  exists (rc : RunContext) (s : S),
    body = newLocalReusableWorkflowExecutor rc s
    \/ body = newRemoteReusableWorkflowExecutor rc s.

(** What follows a clone in the preparation of a remote action, by the
    clone's outcome. *)
Definition after_clone (sar : stepActionRemote) (Bk : Backend) (h pre post : list Op)
    (input : NewGitCloneExecutorInput) : Prop :=
  let uses := step_Uses (sar_Step sar) in
  let returned := fst (fst (run Bk (prepareActionExecutor sar) h)) in
  match Bk (h ++ pre) (OpGitClone input) with
  | cloneOk =>
      exists actionPath,
        let read := OpReadAction uses (clone_Dir input) actionPath in
        post = [read]
        /\ returned = snd (Bk (h ++ pre ++ [OpGitClone input]) read)
  | cloneErrShortRef _ commit =>
      post = []
      /\ returned = Some (errorString
           ("Unable to resolve action `" +:+ uses +:+
            "`, the provided ref `" +:+ clone_Ref input +:+
            "` is the shortened version of a commit SHA, which is not supported. Please use the full commit SHA `" +:+
            commit +:+ "` instead"))
  | cloneErrForceNeeded err =>
      exists actionPath,
        let log := OpLog InfoLevel
                     ("Non-terminating error while running 'git clone': " +:+ Error err) in
        let read := OpReadAction uses (clone_Dir input) actionPath in
        post = [log; read]
        /\ returned = snd (Bk (h ++ pre ++ [OpGitClone input; log]) read)
  | cloneErr err =>
      post = [] /\ returned = Some err
  end.

(** * Properties *)

(** ** Running computations *)

Lemma run_bind {A B : Type} (Bk : Backend) (m : Exec A) (f : A -> Exec B) (h : list Op) :
  run Bk (bind m f) h =
    (fst (run Bk (f (fst (run Bk m h))) (h ++ snd (run Bk m h))),
     snd (run Bk m h) ++ snd (run Bk (f (fst (run Bk m h))) (h ++ snd (run Bk m h)))).
Proof.
  revert h. induction m as [a | o k IH]; intros h; cbn [bind run].
  - rewrite app_nil_r. cbn. destruct (run Bk (f a) h); reflexivity.
  - rewrite IH.
    destruct (run Bk (k (Bk h o)) (h ++ [o])) as [a ops] eqn:E. cbn.
    rewrite <- app_assoc. reflexivity.
Qed.

Lemma run_Vis {A : Type} (Bk : Backend) (o : Op) (k : Resp o -> Exec A) (h : list Op) :
  run Bk (Vis o k) h =
    (fst (run Bk (k (Bk h o)) (h ++ [o])), o :: snd (run Bk (k (Bk h o)) (h ++ [o]))).
Proof. cbn [run]. destruct (run Bk (k (Bk h o)) (h ++ [o])); reflexivity. Qed.

Lemma ops_in_run {A : Type} (P : Op -> Prop) (Bk : Backend) (m : Exec A) (h : list Op) :
  ops_in P m -> Forall P (snd (run Bk m h)).
Proof.
  intros Hm. revert h. induction Hm as [a | o k Ho Hk IH]; intros h.
  - constructor.
  - rewrite run_Vis. cbn. constructor; [exact Ho | apply IH].
Qed.

Lemma ops_in_bind {A B : Type} (P : Op -> Prop) (m : Exec A) (f : A -> Exec B) :
  ops_in P m -> (forall a, ops_in P (f a)) -> ops_in P (bind m f).
Proof.
  intros Hm Hf. induction Hm as [a | o k Ho Hk IH]; cbn [bind].
  - apply Hf.
  - constructor; [exact Ho | exact IH].
Qed.

Lemma ops_in_weaken {A : Type} (P Q : Op -> Prop) (m : Exec A) :
  (forall o, P o -> Q o) -> ops_in P m -> ops_in Q m.
Proof. intros HPQ Hm. induction Hm; constructor; auto. Qed.

Lemma ops_in_call (P : Op -> Prop) (o : Op) : P o -> ops_in P (call o).
Proof. intros Ho. constructor; [exact Ho | intros r; constructor]. Qed.

(** A single call whose operation satisfies the predicate by computation. *)
Ltac ops_call :=
  match goal with
  | |- ops_in _ (call ?o) => apply (ops_in_call _ o); reflexivity
  end.

Lemma ops_in_mapM {A B : Type} (P : Op -> Prop) (f : A -> Exec B) (l : list A) :
  (forall a, ops_in P (f a)) -> ops_in P (mapM f l).
Proof.
  intros Hf. induction l as [|a l IH]; cbn [mapM].
  - constructor.
  - apply ops_in_bind; [apply Hf | intros b].
    apply ops_in_bind; [exact IH | intros bs; constructor].
Qed.

Lemma ops_in_forM_ {A : Type} (P : Op -> Prop) (f : A -> Exec unit) (l : list A) :
  (forall a, ops_in P (f a)) -> ops_in P (forM_ f l).
Proof.
  intros Hf. induction l as [|a l IH]; cbn [forM_].
  - constructor.
  - apply ops_in_bind; [apply Hf | intros _; exact IH].
Qed.

(** ** C1: a job whose condition is false *)

(** C1.  [Executor()] builds the executor of the job's kind before the
    job's condition is evaluated, and it panics, whatever the condition,
    exactly when the job calls a local reusable workflow and the
    configuration has no preset GitHub context.  In every other case it
    returns an executor and, whatever the backend and the executor of the
    job's kind: when the job's condition evaluates to false, the executor
    returns no error, leaves the run context as it is and makes no call
    besides the evaluation and one debug log line, so no container is
    provisioned and no step runs; when the evaluation itself fails, it
    returns the error built from the expression and the evaluation error,
    having made no other call. *)
Theorem Executor_skips_job_unless_it_panics
    (rc0 rc : RunContext) (Bk : Backend) (h : list Op) :
  let job := rc_Job rc in
  (rc_Executor rc0 = panicked
   <-> job_Type (rc_Job rc0) = JobTypeReusableWorkflowLocal
       /\ PresetGitHubContext (rc_Config rc0) = None)
  /\ match rc_Executor rc0 with
     | panicked => True
     | failed _ => False
     | returned executor =>
         match Bk h (OpEvalBool (job_If job)) with
         | (_, Some err) =>
             run Bk (executor rc) h =
               ((Some (errorString
                         ("  " +:+ cross_mark +:+ "  Error in if-expression: " +:+ quote +:+
                          "if: " +:+ job_If job +:+ quote +:+ " (" +:+ Error err +:+ ")")),
                 rc),
                [OpEvalBool (job_If job)])
         | (false, None) =>
             run Bk (executor rc) h =
               ((None, rc),
                [OpEvalBool (job_If job);
                 OpLog DebugLevel
                   ("Skipping job '" +:+ job_Name job +:+ "' due to '" +:+ job_If job +:+ "'")])
         | (true, None) => True
         end
     end.
Proof.
  intros job.
  assert (Hskip : forall executor : Executor RunContext,
    match Bk h (OpEvalBool (job_If job)) with
    | (_, Some err) =>
        run Bk (('(res, err) <- isEnabled rc ;;
                 match err with
                 | Some _ => Ret (err, rc)
                 | None => if res then executor rc else Ret (None, rc)
                 end)) h =
          ((Some (errorString
                    ("  " +:+ cross_mark +:+ "  Error in if-expression: " +:+ quote +:+
                     "if: " +:+ job_If job +:+ quote +:+ " (" +:+ Error err +:+ ")")),
            rc),
           [OpEvalBool (job_If job)])
    | (false, None) =>
        run Bk (('(res, err) <- isEnabled rc ;;
                 match err with
                 | Some _ => Ret (err, rc)
                 | None => if res then executor rc else Ret (None, rc)
                 end)) h =
          ((None, rc),
           [OpEvalBool (job_If job);
            OpLog DebugLevel
              ("Skipping job '" +:+ job_Name job +:+ "' due to '" +:+ job_If job +:+ "'")])
    | (true, None) => True
    end).
  { intros executor. unfold isEnabled. fold job. cbn [bind call run].
    destruct (Bk h (OpEvalBool (job_If job))) as [runJob [err|]] eqn:E;
      cbn [bind call run negb].
    - destruct runJob; reflexivity.
    - destruct runJob; cbn [bind call run negb]; [exact I | reflexivity]. }
  unfold rc_Executor.
  destruct (job_Type (rc_Job rc0)); [| destruct (PresetGitHubContext (rc_Config rc0)) |].
  - split; [split; [discriminate | intros [? _]; discriminate] | apply Hskip].
  - split; [split; [discriminate | intros [_ ?]; discriminate] | apply Hskip].
  - split; [split; [intros _; split; reflexivity | reflexivity] | exact I].
  - split; [split; [discriminate | intros [? _]; discriminate] | apply Hskip].
Qed.

(** ** C10: credentials of the job container fall back to the secrets *)

(** C10.  When the job has no container spec, or its container spec has no
    credentials mapping, [handleCredentials] makes no call and returns,
    without error, the values of the secrets DOCKER_USERNAME and
    DOCKER_PASSWORD, each the empty string when the secret is unset. *)
Theorem handleCredentials_falls_back_to_secrets
    (rc : RunContext) (Bk : Backend) (h : list Op) :
  match job_Container (rc_Job rc) with
  | Some container => cs_Credentials container = None
  | None => True
  end ->
  run Bk (handleCredentials rc) h =
    ((default "" (Secrets (rc_Config rc) !! "DOCKER_USERNAME"),
      default "" (Secrets (rc_Config rc) !! "DOCKER_PASSWORD"),
      None),
     []).
Proof.
  intros Hcreds. unfold handleCredentials, index.
  destruct (job_Container (rc_Job rc)) as [container|]; [|reflexivity].
  rewrite Hcreds. reflexivity.
Qed.

(** ** Strings *)

Lemma append_cons (x : ascii) (a b : string) : String x a +:+ b = String x (a +:+ b).
Proof. reflexivity. Qed.

Lemma append_nil (b : string) : "" +:+ b = b.
Proof. reflexivity. Qed.

Lemma append_assoc (a b c : string) : (a +:+ b) +:+ c = a +:+ (b +:+ c).
Proof.
  induction a as [|x a IH]; [reflexivity|].
  rewrite !append_cons, IH. reflexivity.
Qed.

Lemma all_bytes_append (p : ascii -> bool) (a b : string) :
  all_bytes p (a +:+ b) = all_bytes p a && all_bytes p b.
Proof.
  induction a as [|x a IH]; [reflexivity|].
  rewrite append_cons. cbn [all_bytes]. rewrite IH. apply andb_assoc.
Qed.

Lemma span_spec (p : ascii -> bool) (s : string) :
  s = fst (span p s) +:+ snd (span p s)
  /\ all_bytes p (fst (span p s)) = true
  /\ match snd (span p s) with
     | EmptyString => True
     | String c _ => p c = false
     end.
Proof.
  induction s as [|c s IH]; cbn [span].
  - cbn. auto.
  - destruct (p c) eqn:Hc.
    + destruct (span p s) as [a b]. cbn [fst snd] in *.
      destruct IH as (Hs & Ha & Hb). rewrite append_cons. cbn [all_bytes].
      rewrite Hc, Ha. rewrite <- Hs. auto.
    + cbn [fst snd]. rewrite append_nil, Hc. cbn. auto.
Qed.

Lemma HasPrefix_append (s prefix : string) :
  HasPrefix s prefix = true -> s = prefix +:+ drop_bytes (String.length prefix) s.
Proof.
  revert s. induction prefix as [|c prefix IH]; intros s H.
  - destruct s; reflexivity.
  - cbn [HasPrefix] in H. destruct s as [|d s]; [discriminate|].
    apply andb_true_iff in H as [Hc Hp].
    apply Ascii.eqb_eq in Hc. subst d.
    rewrite append_cons. cbn [String.length drop_bytes]. f_equal. apply IH, Hp.
Qed.

Lemma SplitN2_two (s : string) (sep : ascii) (a b : string) :
  SplitN2 s sep = [a; b] -> s = a +:+ String sep b.
Proof.
  unfold SplitN2. pose proof (span_spec (fun c => negb (Ascii.eqb c sep)) s) as (Hs & _ & Hb).
  destruct (span (fun c => negb (Ascii.eqb c sep)) s) as [x [|c y]]; cbn in *;
    intros H; [discriminate|].
  injection H as <- <-. apply negb_false_iff, Ascii.eqb_eq in Hb. subst c. exact Hs.
Qed.

(** ** C2: malformed references *)

Lemma match_action_sound (action org repo path ref : string) :
  match_action action = Some (org, repo, path, ref) -> ref <> "" ->
  PlainActionReference action.
Proof.
  unfold match_action.
  pose proof (span_spec not_slash_at action) as (Ha & Horg & _).
  destruct (span not_slash_at action) as [org' rest1]. cbn [fst snd] in *.
  destruct org' as [|o0 org']; [discriminate|].
  destruct rest1 as [|c1 rest2]; [discriminate|].
  destruct (Ascii.eqb c1 "/") eqn:Hc1; [|discriminate].
  apply Ascii.eqb_eq in Hc1. subst c1.
  pose proof (span_spec not_slash_at rest2) as (Hr2 & Hrepo & Hr3).
  destruct (span not_slash_at rest2) as [repo' rest3]. cbn [fst snd] in *.
  destruct repo' as [|r0 repo']; [discriminate|].
  assert (Hseg1 : segment (String o0 org')) by (split; [discriminate | exact Horg]).
  assert (Hseg2 : segment (String r0 repo')) by (split; [discriminate | exact Hrepo]).
  destruct rest3 as [|c3 rest].
  - (* nothing follows the repository: no ref *)
    intros H Href. injection H as <- <- <- <-. contradiction.
  - destruct (Ascii.eqb c3 "/") eqn:Hc3.
    + apply Ascii.eqb_eq in Hc3. subst c3.
      pose proof (span_spec not_at rest) as (Hrest & Hpath & _).
      destruct (span not_at rest) as [path' rest4]. cbn [fst snd] in *.
      destruct rest4 as [|c4 ref'].
      * intros H Href. injection H as <- <- <- <-. contradiction.
      * destruct (Ascii.eqb c4 "@") eqn:Hc4; [|discriminate].
        destruct (all_bytes not_newline ref'); [|discriminate].
        cbn [andb]. intros H Href. injection H as <- <- <- <-.
        apply Ascii.eqb_eq in Hc4. subst c4.
        rewrite Ha, Hr2, Hrest.
        change (String "/" (String r0 repo' +:+ String "/" (path' +:+ String "@" ref')))
          with ("/" +:+ (String r0 repo' +:+ ("/" +:+ (path' +:+ ("@" +:+ ref'))))).
        rewrite <- !append_assoc.
        rewrite !append_assoc.
        apply reference_with_path; assumption.
    + destruct (Ascii.eqb c3 "@") eqn:Hc4; [|discriminate].
      destruct (all_bytes not_newline rest); [|discriminate].
      cbn [andb]. intros H Href. injection H as <- <- <- <-.
      apply Ascii.eqb_eq in Hc4. subst c3.
      rewrite Ha, Hr2.
      change (String "/" (String r0 repo' +:+ String "@" rest))
        with ("/" +:+ (String r0 repo' +:+ ("@" +:+ rest))).
      apply reference_without_path; assumption.
Qed.

Lemma parseAction_sound (action : string) (ra : remoteAction) :
  parseAction action = Some ra -> PlainActionReference action.
Proof.
  unfold parseAction.
  destruct (match_action action) as [[[[org repo] path] ref]|] eqn:E; [|discriminate].
  destruct (String.eqb ref "") eqn:Href; [discriminate|].
  intros _. apply String.eqb_neq in Href. eapply match_action_sound; eassumption.
Qed.

Lemma newRemoteAction_from_sound (schemas : list string) (action : string)
    (ra : remoteAction) :
  Forall (fun schema => schema = "https://" \/ schema = "http://") schemas ->
  newRemoteAction_from schemas action = Some ra -> RemoteActionReference action.
Proof.
  induction 1 as [|schema schemas Hschema Hrest IH]; cbn [newRemoteAction_from].
  - intros H. apply reference_plain. eapply parseAction_sound; eassumption.
  - unfold TrimPrefix.
    destruct (HasPrefix action schema) eqn:Hp; [|exact IH].
    apply HasPrefix_append in Hp.
    destruct (SplitN2 (drop_bytes (String.length schema) action) "/")
      as [|host [|tail [|]]] eqn:Hsplit; try discriminate.
    destruct (parseAction tail) as [ret|] eqn:Hparse; [|discriminate].
    intros _. apply SplitN2_two in Hsplit. rewrite Hp, Hsplit.
    change (String "/" tail) with ("/" +:+ tail).
    apply reference_with_host; [exact Hschema|].
    eapply parseAction_sound; eassumption.
Qed.

Lemma newRemoteAction_sound (action : string) (ra : remoteAction) :
  newRemoteAction action = Some ra -> RemoteActionReference action.
Proof.
  apply newRemoteAction_from_sound.
  constructor; [left; reflexivity|]. constructor; [right; reflexivity|]. constructor.
Qed.

Lemma plain_reference_has_at (s : string) :
  PlainActionReference s -> all_bytes not_at s = false.
Proof.
  intros [org repo ref _ _ _ | org repo path ref _ _ _ _];
    rewrite !all_bytes_append;
    change (all_bytes not_at "@") with false;
    rewrite ?andb_false_l, ?andb_false_r; reflexivity.
Qed.

Lemma reference_has_at (s : string) :
  RemoteActionReference s -> all_bytes not_at s = false.
Proof.
  intros [s' H | schema host s' _ H].
  - apply plain_reference_has_at, H.
  - rewrite !all_bytes_append, (plain_reference_has_at _ H).
    rewrite ?andb_false_r. reflexivity.
Qed.

Lemma malformed_reference_not_parsed (uses : string) :
  ~ RemoteActionReference uses \/ all_bytes not_at uses = true ->
  newRemoteAction uses = None.
Proof.
  intros H. destruct (newRemoteAction uses) as [ra|] eqn:E; [|reflexivity].
  apply newRemoteAction_sound in E. destruct H as [H | H].
  - contradiction.
  - rewrite (reference_has_at _ E) in H. discriminate.
Qed.

Lemma not_prepared (sar : stepActionRemote) :
  sar_remoteAction sar = None \/ sar_action sar = None ->
  bool_decide (is_Some (sar_remoteAction sar)) && bool_decide (is_Some (sar_action sar))
  = false.
Proof.
  intros [H | H]; rewrite H; cbn.
  - reflexivity.
  - apply andb_false_r.
Qed.

(** C2.  A step that is not prepared yet and whose [uses] string is outside
    the remote-action grammar [{org}/{repo}[/path]@ref] (with or without a
    leading [http(s)://host/]), in particular one with no at-sign at all: its
    preparation returns the malformed-reference error naming the string,
    leaves [remoteAction] unset, and makes no call, so no clone or fetch is
    attempted. *)
Theorem prepare_rejects_malformed_reference
    (sar : stepActionRemote) (Bk : Backend) (h : list Op) :
  let uses := step_Uses (sar_Step sar) in
  sar_remoteAction sar = None \/ sar_action sar = None ->
  ~ RemoteActionReference uses \/ all_bytes not_at uses = true ->
  run Bk (prepareActionExecutor sar) h =
    ((Some (errorString
              ("Expected format {org}/{repo}[/path]@ref. Actual '" +:+ uses +:+
               "' Input string was not in a correct format")),
      set_sar_remoteAction sar None),
     []).
Proof.
  intros uses Hnew Hbad. unfold prepareActionExecutor.
  rewrite (not_prepared _ Hnew).
  fold uses. rewrite (malformed_reference_not_parsed _ Hbad). reflexivity.
Qed.

(** ** The calls of action preparation *)

Lemma split_at_only (P : Op -> bool) (a b a' b' : list Op) (x x' : Op) :
  Forall (fun o => P o = false) a -> Forall (fun o => P o = false) b ->
  P x' = true ->
  a ++ x :: b = a' ++ x' :: b' -> a' = a /\ x' = x /\ b' = b.
Proof.
  intros Ha Hb Hx'. revert a'.
  induction Ha as [|z a Hz Ha IH]; intros a' E.
  - destruct a' as [|y a']; cbn in E.
    + injection E as -> ->. auto.
    + injection E as -> ->. apply Forall_app in Hb as [_ Hb].
      inversion Hb as [|? ? Hx'' _]; subst. congruence.
  - destruct a' as [|y a']; cbn in E.
    + injection E as -> _. congruence.
    + injection E as -> E. destruct (IH a' E) as (-> & -> & ->). auto.
Qed.

Lemma GetAvailableCloneURL_ops (ra : remoteAction) (actionURLs : list string) :
  ops_in (fun o => exists url, o = OpHttpGet url) (GetAvailableCloneURL ra actionURLs).
Proof.
  induction actionURLs as [|u rest IH]; cbn [GetAvailableCloneURL].
  - constructor.
  - constructor; [eauto|]. intros [err | code].
    + constructor.
    + destruct (code =? 200); [constructor|].
      destruct (code =? 404); [exact IH | constructor].
Qed.

Lemma prepareActionExecutor_ops (sar : stepActionRemote) :
  ops_in (prepare_op sar) (prepareActionExecutor sar).
Proof.
  unfold prepareActionExecutor.
  destruct (_ && _); [constructor|].
  destruct (newRemoteAction (step_Uses (sar_Step sar))) as [ra0|] eqn:Hparse;
    cbn [set_sar_remoteAction sar_remoteAction]; [|constructor].
  apply ops_in_bind.
  { apply ops_in_bind; [apply ops_in_call; left; reflexivity | intros; constructor]. }
  intros github. destruct (_ && _).
  { apply ops_in_bind; [apply ops_in_call; right; left; eauto | intros; constructor]. }
  destruct (replaceGheAction _ _ _) as [remoteAction github'].
  apply ops_in_bind.
  { eapply ops_in_weaken; [|apply GetAvailableCloneURL_ops].
    intros o H. right. right. left. exact H. }
  intros [cloneURL [err|]]; [constructor|].
  apply ops_in_bind.
  { apply ops_in_call. right. right. right. left. eexists. split; reflexivity. }
  assert (Hread : forall (s : stepActionRemote) actionDir actionPath,
    ops_in (prepare_op sar)
      (bind (bind (call (OpReadAction (step_Uses (sar_Step sar)) actionDir actionPath))
               (fun x : option Action * option error =>
                  let '(actionModel, err) := x in Ret (err, set_sar_action s actionModel)))
         (fun x : option error * stepActionRemote =>
            let '(err, s') := x in
            match err with
            | Some _ => Ret (err, s')
            | None => Ret (None, s')
            end))).
  { intros s actionDir actionPath. apply ops_in_bind.
    - apply ops_in_bind; [apply ops_in_call; do 4 right; eauto | intros []; constructor].
    - intros [[e|] s']; constructor. }
  intros [|err commit|err|err]; cbn [NewPipelineExecutor].
  - apply Hread.
  - constructor.
  - apply ops_in_bind.
    + unfold NewInfoExecutor, stateless.
      apply ops_in_bind; [|intros; constructor].
      apply ops_in_bind; [apply ops_in_call; right; left; eauto | intros; constructor].
    + intros [[e|] s]; [constructor|]. apply Hread.
  - constructor.
Qed.

(** ** C8: the cache key *)

Lemma safeFilename_bytewise (s : string) :
  safeFilename s = map_bytes sanitize_byte s.
Proof.
  unfold safeFilename, Replace.
  induction s as [|c s IH]; [reflexivity|].
  cbn [Replace_from map_bytes]. rewrite <- IH.
  unfold sanitize_byte, path_hostile.
  destruct c as [[] [] [] [] [] [] [] []]; reflexivity.
Qed.

Lemma clone_dir_of_prepare (sar : stepActionRemote) (Bk : Backend) (h : list Op)
    (input : NewGitCloneExecutorInput) :
  In (OpGitClone input) (snd (run Bk (prepareActionExecutor sar) h)) ->
  clone_Dir input =
    rc_ActionCacheDir (sar_RunContext sar) +:+ "/" +:+
    safeFilename (step_Uses (sar_Step sar)).
Proof.
  intros Hin.
  pose proof (ops_in_run _ Bk _ h (prepareActionExecutor_ops sar)) as Hops.
  rewrite Forall_forall in Hops. apply list_elem_of_In in Hin. apply Hops in Hin.
  destruct Hin as [H | [(? & ? & H) | [(? & H) | [(input' & H & Hdir) | (? & ? & H)]]]];
    try discriminate.
  injection H as <-. exact Hdir.
Qed.

(** C8.  The cache key is a function of the raw reference string alone: it
    is the string with every byte of the fixed set
    [< > : quote / backslash | ? *] replaced by a hyphen and every other
    byte kept.  The directory a remote action is cloned into is the cache
    root, a slash and the key of the step's raw [uses] string, whatever was
    parsed from it and whatever the backend answers; so two computations for
    the same string and cache root give the same path. *)
Theorem safeFilename_cache_key (s : string) :
  safeFilename s = map_bytes (fun c => if path_hostile c then "-"%char else c) s
  /\ (forall (sar : stepActionRemote) (Bk : Backend) (h : list Op)
        (input : NewGitCloneExecutorInput),
        step_Uses (sar_Step sar) = s ->
        In (OpGitClone input) (snd (run Bk (prepareActionExecutor sar) h)) ->
        clone_Dir input =
          rc_ActionCacheDir (sar_RunContext sar) +:+ "/" +:+ safeFilename s)
  /\ (forall (sar1 sar2 : stepActionRemote) (Bk1 Bk2 : Backend) (h1 h2 : list Op)
        (input1 input2 : NewGitCloneExecutorInput),
        step_Uses (sar_Step sar1) = s -> step_Uses (sar_Step sar2) = s ->
        rc_ActionCacheDir (sar_RunContext sar1) = rc_ActionCacheDir (sar_RunContext sar2) ->
        In (OpGitClone input1) (snd (run Bk1 (prepareActionExecutor sar1) h1)) ->
        In (OpGitClone input2) (snd (run Bk2 (prepareActionExecutor sar2) h2)) ->
        clone_Dir input1 = clone_Dir input2).
Proof.
  split; [apply safeFilename_bytewise|]. split.
  - intros sar Bk h input <-. apply clone_dir_of_prepare.
  - intros sar1 sar2 Bk1 Bk2 h1 h2 input1 input2 H1 H2 Hdir Hin1 Hin2.
    apply clone_dir_of_prepare in Hin1, Hin2. congruence.
Qed.

(** ** The calls of a reusable workflow *)

Lemma newReusableWorkflowExecutor_ops {S : Type} (rc : RunContext)
    (directory workflow : string) (s : S) :
  ops_in (fun o => is_GitClone o = false /\ is_lock_op o = false)
    (newReusableWorkflowExecutor rc directory workflow s).
Proof.
  unfold newReusableWorkflowExecutor, stateless.
  apply ops_in_bind; [|intros; constructor].
  apply ops_in_bind; [apply ops_in_call; auto|]. intros [e|]; [constructor|].
  apply ops_in_bind; [apply ops_in_call; auto|]. intros [e|]; [constructor|].
  apply ops_in_bind; [apply ops_in_call; auto|]. intros [e|]; [constructor|].
  apply (ops_in_call _ OpRunPlan); auto.
Qed.

Lemma no_clones_under_lock (ops : list Op) (held : bool) :
  Forall (fun o => is_GitClone o = false) ops -> clones_under_lock held ops = true.
Proof.
  intros H. revert held. induction H as [|o ops Ho _ IH]; intros held; [reflexivity|].
  destruct o; cbn in *; try apply IH. discriminate.
Qed.

Lemma run_pipeline_last {S : Type} (Bk : Backend) (m : Exec (option error * S))
    (h : list Op) :
  run Bk (bind m (fun x : option error * S =>
                    let '(err, s') := x in
                    match err with
                    | Some _ => Ret (err, s')
                    | None => Ret (None, s')
                    end)) h
  = run Bk m h.
Proof.
  rewrite run_bind. destruct (run Bk m h) as [[[e|] s'] ops]; cbn;
    rewrite app_nil_r; reflexivity.
Qed.

(** The run of a reusable workflow executor whose reference parses: the
    lock, the check of the directory, the clone when the directory is
    reported missing, the unlock, and, unless the clone failed, the calls of
    the workflow run. *)
Lemma reusableWorkflowExecutor_run {S : Type} (rc : RunContext) (uses : string)
    (r : remoteReusableWorkflow) (s : S) (Bk : Backend) (h : list Op) :
  newRemoteReusableWorkflow uses = Some r ->
  let dir := cacheDirOf rc uses in
  let input :=
    {| clone_URL := GitHubInstance (rc_Config rc) +:+ "/" +:+ rrw_Org r +:+ "/" +:+ rrw_Repo r;
       clone_Ref := rrw_Ref r; clone_Dir := dir; clone_Token := Token (rc_Config rc) |} in
  let fetch :=
    match Bk (h ++ [OpLock]) (OpStat dir) with
    | statNotExist => [OpGitClone input]
    | _ => []
    end in
  let fetch_error :=
    match Bk (h ++ [OpLock]) (OpStat dir) with
    | statNotExist => cloneResult_error (Bk (h ++ [OpLock; OpStat dir]) (OpGitClone input))
    | _ => None
    end in
  let h' := h ++ OpLock :: OpStat dir :: fetch ++ [OpUnlock] in
  run Bk (reusableWorkflowExecutor rc uses s) h =
    match fetch_error with
    | Some err => ((Some err, s), OpLock :: OpStat dir :: fetch ++ [OpUnlock])
    | None =>
        (fst (run Bk (newReusableWorkflowExecutor rc dir (FilePath r) s) h'),
         OpLock :: OpStat dir :: fetch ++ OpUnlock ::
           snd (run Bk (newReusableWorkflowExecutor rc dir (FilePath r) s) h'))
    end.
Proof.
  intros Hparse dir input fetch fetch_error h'.
  unfold reusableWorkflowExecutor. rewrite Hparse.
  cbn [NewPipelineExecutor]. rewrite run_bind.
  unfold newMutexExecutor, cloneIfRequired, NewConditionalExecutor, stateless.
  cbn [bind call run fst snd rrw_CloneURL set_rrw_URL rrw_URL rrw_Org rrw_Repo rrw_Ref].
  fold dir. subst fetch fetch_error h'.
  destruct (Bk (h ++ [OpLock]) (OpStat dir)) as [| |e] eqn:Hstat.
  - cbn [bind call run fst snd app]. rewrite run_pipeline_last. reflexivity.
  - cbn [bind call run fst snd app]. rewrite <- !app_assoc. cbn [app].
    change {| clone_URL := rrw_CloneURL (set_rrw_URL r (GitHubInstance (rc_Config rc)));
              clone_Ref := rrw_Ref r; clone_Dir := dir;
              clone_Token := Token (rc_Config rc) |} with input.
    destruct (Bk (h ++ [OpLock; OpStat dir]) (OpGitClone input)) as [|e c|e|e];
      cbn [bind call run fst snd app cloneResult_error];
      rewrite <- ?app_assoc; cbn [app];
      rewrite ?run_pipeline_last; reflexivity.
  - cbn [bind call run fst snd app]. rewrite run_pipeline_last. reflexivity.
Qed.

(** ** C3: fetching when the cache directory exists *)

Lemma reusable_no_clone_when_cached {S : Type} (rc : RunContext) (uses : string)
    (s : S) (Bk : Backend) (h : list Op) :
  Bk (h ++ [OpLock]) (OpStat (cacheDirOf rc uses)) = statOk ->
  Forall (fun o => is_GitClone o = false)
    (snd (run Bk (reusableWorkflowExecutor rc uses s) h)).
Proof.
  intros Hstat.
  destruct (newRemoteReusableWorkflow uses) as [r|] eqn:Hparse.
  - rewrite (reusableWorkflowExecutor_run rc uses r s Bk h Hparse), Hstat.
    cbn [fst snd app]. repeat (constructor; [reflexivity|]).
    eapply Forall_impl; [apply ops_in_run, newReusableWorkflowExecutor_ops|].
    intros o [Ho _]. exact Ho.
  - unfold reusableWorkflowExecutor. rewrite Hparse. constructor.
Qed.

(** C3 (amended).  For a reusable workflow, remote or local: when the check
    of the target cache directory, made under the lock, reports that the
    directory exists, the executor makes no clone call, whatever the
    reference and its ref.  The preparation of a remote action never checks
    a directory: none of its calls is [os.Stat]. *)
Theorem reusable_workflow_not_fetched_when_cached
    (S : Type) (rc : RunContext) (s : S) (Bk : Backend) (h : list Op) :
  (Bk (h ++ [OpLock]) (OpStat (cacheDirOf rc (job_Uses (rc_Job rc)))) = statOk ->
   Forall (fun o => is_GitClone o = false)
     (snd (run Bk (newRemoteReusableWorkflowExecutor rc s) h)))
  /\ (Bk (h ++ [OpLock])
        (OpStat (cacheDirOf rc
           (Preset_Repository (rc_Config rc) +:+ "/" +:+
            TrimPrefix (job_Uses (rc_Job rc)) "./" +:+ "@" +:+
            Preset_Sha (rc_Config rc)))) = statOk ->
      Forall (fun o => is_GitClone o = false)
        (snd (run Bk (newLocalReusableWorkflowExecutor rc s) h)))
  /\ (forall sar : stepActionRemote,
        Forall (fun o => is_Stat o = false)
          (snd (run Bk (prepareActionExecutor sar) h))).
Proof.
  split; [|split].
  - apply reusable_no_clone_when_cached.
  - apply reusable_no_clone_when_cached.
  - intros sar. eapply Forall_impl; [apply ops_in_run, prepareActionExecutor_ops|].
    intros o [-> | [(? & ? & ->) | [(? & ->) | [(? & -> & _) | (? & ? & ->)]]]];
      reflexivity.
Qed.

(** ** C4: fetching under the lock *)

Lemma reusable_clones_under_lock {S : Type} (rc : RunContext) (uses : string)
    (s : S) (Bk : Backend) (h : list Op) :
  clones_under_lock false (snd (run Bk (reusableWorkflowExecutor rc uses s) h)) = true.
Proof.
  destruct (newRemoteReusableWorkflow uses) as [r|] eqn:Hparse.
  - rewrite (reusableWorkflowExecutor_run rc uses r s Bk h Hparse).
    assert (Htail : forall h',
      clones_under_lock false
        (snd (run Bk (newReusableWorkflowExecutor rc (cacheDirOf rc uses) (FilePath r) s) h'))
      = true).
    { intros h'. apply no_clones_under_lock.
      eapply Forall_impl; [apply ops_in_run, newReusableWorkflowExecutor_ops|].
      intros o [Ho _]. exact Ho. }
    destruct (Bk (h ++ [OpLock]) (OpStat (cacheDirOf rc uses))) as [| |e].
    + cbn. apply Htail.
    + destruct (cloneResult_error _) as [err|]; cbn; [reflexivity | apply Htail].
    + cbn. apply Htail.
  - unfold reusableWorkflowExecutor. rewrite Hparse. reflexivity.
Qed.

Lemma disciplined_of_ops_in {A : Type} (m : Exec A) (held : bool) :
  ops_in (fun o => is_GitClone o = false /\ is_lock_op o = false) m ->
  disciplined held m.
Proof.
  induction 1 as [a | o k [Hclone Hlock] _ IH]; [constructor|].
  apply disciplined_call; [exact Hlock | congruence | exact IH].
Qed.

Lemma reusable_disciplined {S : Type} (rc : RunContext) (uses : string) (s : S) :
  disciplined false (reusableWorkflowExecutor rc uses s).
Proof.
  unfold reusableWorkflowExecutor.
  destruct (newRemoteReusableWorkflow uses) as [r|]; [|constructor].
  assert (Htail : forall (s' : S) w, disciplined false
    (bind (newReusableWorkflowExecutor rc (cacheDirOf rc uses) w s')
       (fun x : option error * S =>
          let '(err, s'') := x in
          match err with
          | Some _ => Ret (err, s'')
          | None => Ret (None, s'')
          end))).
  { intros s' w. apply disciplined_of_ops_in, ops_in_bind.
    - apply newReusableWorkflowExecutor_ops.
    - intros [[e|] s'']; constructor. }
  cbn [NewPipelineExecutor newMutexExecutor cloneIfRequired NewConditionalExecutor
       stateless bind call].
  apply disciplined_Lock. intros _.
  apply disciplined_call; [reflexivity | discriminate |]. intros [| |e].
  - apply disciplined_Unlock. intros _. apply Htail.
  - apply disciplined_call; [reflexivity | reflexivity |]. intros res.
    apply disciplined_Unlock. intros _.
    destruct (cloneResult_error res); [constructor | apply Htail].
  - apply disciplined_Unlock. intros _. apply Htail.
Qed.

Lemma lock_invariant_start {A : Type} (bodies : list (Exec A)) :
  Forall (disciplined false) bodies -> lock_invariant (start bodies).
Proof.
  intros Hall i g Hg. cbn in Hg.
  rewrite list_lookup_fmap in Hg.
  destruct (bodies !! i) as [t|] eqn:Ht; [|discriminate].
  injection Hg as <-. cbn.
  rewrite Forall_forall in Hall. apply Hall.
  eapply list_elem_of_lookup_2, Ht.
Qed.

Lemma disciplined_Vis_inv {A : Type} (held : bool) (t : Exec A) :
  disciplined held t ->
  match t with
  | Ret _ => True
  | Vis o k =>
      (o = OpLock /\ held = false /\ forall r, disciplined true (k r))
      \/ (o = OpUnlock /\ held = true /\ forall r, disciplined false (k r))
      \/ (is_lock_op o = false /\ (is_GitClone o = true -> held = true)
          /\ forall r, disciplined held (k r))
  end.
Proof. destruct 1; auto 6. Qed.

Lemma lock_invariant_step {A : Type} (m m' : machine A) :
  lock_invariant m -> step m m' -> lock_invariant m'.
Proof.
  intros Hinv Hstep.
  destruct Hstep as [m i k Hfree Hi | m i k Hi | m i o k Ho Hi | m i o k r Hi];
    intros j g Hj; cbn [lock_owner goroutines] in *;
    pose proof (Hinv i _ Hi) as Hd; cbn beta iota in Hd;
    pose proof (lookup_lt_Some _ _ _ Hi) as Hlt.
  - (* Lock: nobody held the lock *)
    apply disciplined_Vis_inv in Hd.
    destruct Hd as [(_ & _ & Hk) | [(? & _) | (? & _)]]; try discriminate.
    destruct (decide (i = j)) as [<-|Hne].
    + rewrite list_lookup_insert_eq in Hj by exact Hlt. injection Hj as <-.
      case_bool_decide; [apply Hk | congruence].
    + rewrite list_lookup_insert_ne in Hj by exact Hne.
      specialize (Hinv j g Hj). rewrite Hfree in Hinv.
      case_bool_decide; [discriminate|]. case_bool_decide; [congruence|].
      destruct g as [t | o' k']; [exact Hinv|].
      destruct Hinv as (Hl & Hc & Hk'). split; [exact Hl|]. split; [|exact Hk'].
      intros Hclone. specialize (Hc Hclone). discriminate.
  - (* Unlock: only the holder unlocks *)
    apply disciplined_Vis_inv in Hd.
    destruct Hd as [(? & _) | [(_ & Hheld & Hk) | (? & _)]]; try discriminate.
    apply bool_decide_eq_true_1 in Hheld.
    destruct (decide (i = j)) as [<-|Hne].
    + rewrite list_lookup_insert_eq in Hj by exact Hlt. injection Hj as <-.
      case_bool_decide; [discriminate | apply Hk].
    + rewrite list_lookup_insert_ne in Hj by exact Hne.
      specialize (Hinv j g Hj). rewrite Hheld in Hinv.
      case_bool_decide; [congruence|]. case_bool_decide; [discriminate|].
      destruct g as [t | o' k']; [exact Hinv|].
      destruct Hinv as (Hl & Hc & Hk'). split; [exact Hl|]. split; [|exact Hk'].
      intros Hclone. specialize (Hc Hclone). congruence.
  - (* a call is issued *)
    apply disciplined_Vis_inv in Hd.
    destruct Hd as [(-> & _) | [(-> & _) | (_ & Hc & Hk)]]; try discriminate.
    destruct (decide (i = j)) as [<-|Hne].
    + rewrite list_lookup_insert_eq in Hj by exact Hlt. injection Hj as <-.
      split; [exact Ho|]. split; [|exact Hk].
      intros Hclone. specialize (Hc Hclone).
      apply bool_decide_eq_true in Hc. exact Hc.
    + rewrite list_lookup_insert_ne in Hj by exact Hne. exact (Hinv j g Hj).
  - (* a call is answered *)
    destruct Hd as (_ & _ & Hk).
    destruct (decide (i = j)) as [<-|Hne].
    + rewrite list_lookup_insert_eq in Hj by exact Hlt. injection Hj as <-. apply Hk.
    + rewrite list_lookup_insert_ne in Hj by exact Hne. exact (Hinv j g Hj).
Qed.

Lemma lock_invariant_reachable {A : Type} (m0 m : machine A) :
  lock_invariant m0 -> reachable m0 m -> lock_invariant m.
Proof.
  intros H0. induction 1 as [|m m' _ IH Hstep]; [exact H0|].
  eapply lock_invariant_step; eassumption.
Qed.

Lemma one_fetch_at_a_time {A : Type} (bodies : list (Exec A)) (m : machine A)
    (i j : nat) :
  Forall (disciplined false) bodies ->
  reachable (start bodies) m -> fetching m i -> fetching m j -> i = j.
Proof.
  intros Hall Hreach (inputi & ki & Hi) (inputj & kj & Hj).
  pose proof (lock_invariant_reachable _ _ (lock_invariant_start _ Hall) Hreach) as Hinv.
  destruct (Hinv i _ Hi) as (_ & Hci & _). destruct (Hinv j _ Hj) as (_ & Hcj & _).
  specialize (Hci eq_refl). specialize (Hcj eq_refl). congruence.
Qed.

(** C4 (amended).  Every clone made by the executor of a reusable workflow,
    local or remote, is made between [executorLock.Lock()] and the
    [Unlock()] that follows it; hence, whatever the number of goroutines
    running such executors and however they interleave, at most one of them
    is in the middle of a clone at any time. *)
Theorem reusable_workflow_fetch_holds_lock (S : Type) :
  (forall (rc : RunContext) (s : S) (Bk : Backend) (h : list Op),
     clones_under_lock false (snd (run Bk (newLocalReusableWorkflowExecutor rc s) h)) = true
     /\ clones_under_lock false (snd (run Bk (newRemoteReusableWorkflowExecutor rc s) h)) = true)
  /\ (forall (bodies : list (Exec (option error * S))) (m : machine (option error * S))
        (i j : nat),
        Forall reusable_workflow_run bodies ->
        reachable (start bodies) m ->
        fetching m i -> fetching m j -> i = j).
Proof.
  split.
  - intros rc s Bk h. split; apply reusable_clones_under_lock.
  - intros bodies m i j Hall. apply one_fetch_at_a_time.
    eapply Forall_impl; [exact Hall|].
    intros body (rc & s & [-> | ->]); apply reusable_disciplined.
Qed.

(** ** C5: local reusable workflows *)

Lemma span_append_stop (p : ascii -> bool) (a b : string) :
  all_bytes p a = true ->
  match b with EmptyString => True | String c _ => p c = false end ->
  span p (a +:+ b) = (a, b).
Proof.
  intros Ha Hb. induction a as [|x a IH].
  - rewrite append_nil. destruct b as [|c b]; [reflexivity|]. cbn [span]. rewrite Hb.
    reflexivity.
  - cbn [all_bytes] in Ha. apply andb_true_iff in Ha as [Hx Ha].
    rewrite append_cons. cbn [span]. rewrite Hx, (IH Ha). reflexivity.
Qed.

Lemma expect_append (lit s : string) : expect lit (lit +:+ s) = Some s.
Proof.
  unfold expect.
  assert (H : HasPrefix (lit +:+ s) lit = true
              /\ drop_bytes (String.length lit) (lit +:+ s) = s).
  { induction lit as [|c lit [IH1 IH2]].
    - split; [reflexivity|]. rewrite append_nil. destruct s; reflexivity.
    - rewrite append_cons. cbn [HasPrefix String.length drop_bytes].
      rewrite Ascii.eqb_refl, IH1. auto. }
  destruct H as [-> ->]. reflexivity.
Qed.

Lemma eqb_empty_false (s : string) : s <> "" -> String.eqb s "" = false.
Proof. intros H. apply String.eqb_neq, H. Qed.

Lemma newRemoteReusableWorkflow_parses (org repo platform filename ref : string) :
  org <> "" -> all_bytes not_slash org = true ->
  repo <> "" -> all_bytes not_slash repo = true ->
  platform <> "" -> all_bytes not_slash platform = true ->
  filename <> "" -> all_bytes not_at filename = true ->
  all_bytes not_newline ref = true ->
  newRemoteReusableWorkflow
    (org +:+ "/" +:+ repo +:+ "/." +:+ platform +:+ "/workflows/" +:+ filename
     +:+ "@" +:+ ref)
  = Some {| rrw_GitPlatform := platform; rrw_URL := ""; rrw_Org := org;
            rrw_Repo := repo; rrw_Filename := filename; rrw_Ref := ref |}.
Proof.
  intros Horg Horg' Hrepo Hrepo' Hplat Hplat' Hfile Hfile' Href.
  unfold newRemoteReusableWorkflow, match_reusable.
  rewrite (span_append_stop not_slash org _ Horg') by reflexivity.
  rewrite (eqb_empty_false _ Horg), expect_append.
  rewrite (span_append_stop not_slash repo _ Hrepo') by reflexivity.
  rewrite (eqb_empty_false _ Hrepo), expect_append.
  rewrite (span_append_stop not_slash platform _ Hplat') by reflexivity.
  rewrite (eqb_empty_false _ Hplat), expect_append.
  rewrite (span_append_stop not_at filename _ Hfile') by reflexivity.
  rewrite (eqb_empty_false _ Hfile), expect_append, Href.
  reflexivity.
Qed.

(** C5 (amended).  A job whose [uses] is [./.{platform}/workflows/{filename}]
    is run as a local reusable workflow as follows.  The [./] is stripped and
    the rest is appended to the caller's repository [{owner}/{repo}] and
    followed by the triggering commit, giving the reference
    [{owner}/{repo}/.{platform}/workflows/{filename}@{sha}].  Under the lock
    the cache directory of that reference is checked; when it is reported
    missing, the caller's repository is cloned into it from the configured
    instance at that commit, and when the clone fails its error is returned.
    Otherwise no clone is made.  Then the workflow is planned from
    [./.{platform}/workflows/{filename}] inside the cache directory. *)
Theorem local_reusable_workflow_runs_from_cache
    (S : Type) (rc : RunContext) (s : S) (Bk : Backend) (h : list Op)
    (owner repo platform filename : string) :
  let config := rc_Config rc in
  owner <> "" -> all_bytes not_slash owner = true ->
  repo <> "" -> all_bytes not_slash repo = true ->
  platform <> "" -> all_bytes not_slash platform = true ->
  filename <> "" -> all_bytes not_at filename = true ->
  all_bytes not_newline (Preset_Sha config) = true ->
  Preset_Repository config = owner +:+ "/" +:+ repo ->
  job_Uses (rc_Job rc) = "./." +:+ platform +:+ "/workflows/" +:+ filename ->
  let uses := owner +:+ "/" +:+ repo +:+ "/." +:+ platform +:+ "/workflows/" +:+
              filename +:+ "@" +:+ Preset_Sha config in
  let dir := rc_ActionCacheDir rc +:+ "/" +:+ safeFilename uses in
  let input :=
    {| clone_URL := GitHubInstance config +:+ "/" +:+ owner +:+ "/" +:+ repo;
       clone_Ref := Preset_Sha config; clone_Dir := dir;
       clone_Token := Token config |} in
  match Bk (h ++ [OpLock]) (OpStat dir) with
  | statNotExist =>
      match cloneResult_error (Bk (h ++ [OpLock; OpStat dir]) (OpGitClone input)) with
      | Some err =>
          run Bk (newLocalReusableWorkflowExecutor rc s) h =
            ((Some err, s), [OpLock; OpStat dir; OpGitClone input; OpUnlock])
      | None =>
          exists rest,
            snd (run Bk (newLocalReusableWorkflowExecutor rc s) h) =
              OpLock :: OpStat dir :: OpGitClone input :: OpUnlock ::
              OpNewWorkflowPlanner dir ("./." +:+ platform +:+ "/workflows/" +:+ filename)
              :: rest
      end
  | _ =>
      exists rest,
        snd (run Bk (newLocalReusableWorkflowExecutor rc s) h) =
          OpLock :: OpStat dir :: OpUnlock ::
          OpNewWorkflowPlanner dir ("./." +:+ platform +:+ "/workflows/" +:+ filename)
          :: rest
  end.
Proof.
  intros config Howner Howner' Hrepo Hrepo' Hplat Hplat' Hfile Hfile' Hsha Hrepository
    Huses uses dir input.
  assert (Hexec : newLocalReusableWorkflowExecutor rc s = reusableWorkflowExecutor rc uses s).
  { unfold newLocalReusableWorkflowExecutor. fold config. rewrite Huses, Hrepository.
    change (TrimPrefix ("./." +:+ platform +:+ "/workflows/" +:+ filename) "./")
      with ("." +:+ platform +:+ "/workflows/" +:+ filename).
    unfold uses. f_equal. rewrite !append_assoc. reflexivity. }
  rewrite Hexec.
  pose proof (newRemoteReusableWorkflow_parses owner repo platform filename
                (Preset_Sha config) Howner Howner' Hrepo Hrepo' Hplat Hplat' Hfile Hfile' Hsha)
    as Hparse.
  fold uses in Hparse.
  rewrite (reusableWorkflowExecutor_run rc uses _ s Bk h Hparse).
  cbn [rrw_Org rrw_Repo rrw_Ref FilePath rrw_GitPlatform rrw_Filename].
  fold config. unfold cacheDirOf. fold dir. fold input.
  destruct (Bk (h ++ [OpLock]) (OpStat dir)) as [| |e].
  - cbn [fst snd app]. unfold newReusableWorkflowExecutor, stateless.
    cbn [bind call]. rewrite run_Vis. cbn [snd]. eexists. reflexivity.
  - destruct (cloneResult_error _) as [err|]; cbn [fst snd app]; [reflexivity|].
    unfold newReusableWorkflowExecutor, stateless.
    cbn [bind call]. rewrite run_Vis. cbn [snd]. eexists. reflexivity.
  - cbn [fst snd app]. unfold newReusableWorkflowExecutor, stateless.
    cbn [bind call]. rewrite run_Vis. cbn [snd]. eexists. reflexivity.
Qed.

(** ** C7: failures of the fetch of a remote action *)

Lemma prepare_run_shape (sar : stepActionRemote) (Bk : Backend) (h : list Op) :
  Forall (fun o => is_GitClone o = false) (snd (run Bk (prepareActionExecutor sar) h))
  \/ exists pre input post,
       snd (run Bk (prepareActionExecutor sar) h) = pre ++ OpGitClone input :: post
       /\ Forall (fun o => is_GitClone o = false) pre
       /\ Forall (fun o => is_GitClone o = false) post
       /\ after_clone sar Bk h pre post input.
Proof.
  unfold after_clone. unfold prepareActionExecutor.
  destruct (_ && _); [left; constructor|].
  destruct (newRemoteAction (step_Uses (sar_Step sar))) as [ra0|] eqn:Hparse;
    cbn [set_sar_remoteAction sar_remoteAction sar_Step sar_RunContext];
    [|left; constructor].
  unfold sar_getGithubContext. cbn [bind call sar_remoteAction].
  rewrite run_Vis. cbn [fst snd].
  match goal with |- context [isLocalCheckout ?g _] => set (github := g) end.
  destruct (_ && _).
  { left. cbn. repeat constructor. }
  destruct (replaceGheAction _ _ _) as [remoteAction github'].
  rewrite run_bind.
  pose proof (ops_in_run _ Bk _ (h ++ [OpGetGithubContext])
                (GetAvailableCloneURL_ops remoteAction
                   (DefaultActionsURLs (rc_Config (sar_RunContext sar))))) as Hhttp.
  destruct (run Bk (GetAvailableCloneURL remoteAction _) (h ++ [OpGetGithubContext]))
    as [[cloneURL [err|]] ops_http]; cbn [fst snd] in *.
  { left. cbn. rewrite app_nil_r. constructor; [reflexivity|].
    eapply Forall_impl; [exact Hhttp|]. intros o (url & ->). reflexivity. }
  rewrite <- app_assoc in *. cbn [app] in *.
  rewrite run_Vis. cbn [fst snd].
  match goal with |- context [OpGitClone ?i] => set (input := i) end.
  right. exists (OpGetGithubContext :: ops_http), input.
  assert (Hpre : Forall (fun o => is_GitClone o = false) (OpGetGithubContext :: ops_http)).
  { constructor; [reflexivity|].
    eapply Forall_impl; [exact Hhttp|]. intros o (url & ->). reflexivity. }
  cbn [app].
  destruct (Bk (h ++ OpGetGithubContext :: ops_http) (OpGitClone input))
    as [|err commit|err|err] eqn:Hclone.
  - rewrite <- app_assoc. cbn [app NewPipelineExecutor bind run fst snd].
    match goal with
    | |- context [Bk ?hh (OpReadAction ?u ?d ?p)] =>
        destruct (Bk hh (OpReadAction u d p)) as [actionModel [e|]] eqn:Hread
    end;
      cbn [bind run fst snd];
      (eexists; split; [reflexivity|]; split; [exact Hpre|];
       split; [repeat (apply List.Forall_cons; [reflexivity|]); apply List.Forall_nil|];
       exists (ra_Path remoteAction); split; [reflexivity|];
       rewrite <- ?app_assoc in Hread; cbn [app] in Hread |- *;
       subst input; cbn [clone_Dir]; rewrite Hread; reflexivity).
  - cbn [run fst snd]. exists []. auto.
  - rewrite <- app_assoc.
    cbn [app NewPipelineExecutor NewInfoExecutor stateless call bind run fst snd].
    rewrite <- app_assoc. cbn [app].
    match goal with
    | |- context [Bk ?hh (OpReadAction ?u ?d ?p)] =>
        destruct (Bk hh (OpReadAction u d p)) as [actionModel [e|]] eqn:Hread
    end;
      cbn [bind run fst snd];
      (eexists; split; [reflexivity|]; split; [exact Hpre|];
       split; [repeat (apply List.Forall_cons; [reflexivity|]); apply List.Forall_nil|];
       exists (ra_Path remoteAction); split; [reflexivity|];
       rewrite <- ?app_assoc in Hread; cbn [app] in Hread |- *;
       subst input; cbn [clone_Dir]; rewrite Hread; reflexivity).
  - cbn [run fst snd]. exists []. auto.
Qed.

Lemma In_not_all_false (P : Op -> bool) (pre post : list Op) (x : Op) :
  P x = true -> ~ Forall (fun o => P o = false) (pre ++ x :: post).
Proof.
  intros Hx H. apply Forall_app in H as [_ H]. inversion H; congruence.
Qed.

(** C7.  Whenever the preparation of a remote action makes its clone call:
    if the clone fails as an abbreviated SHA, preparation stops there and
    returns an error whose message names the action, the ref and the full
    commit SHA to use; if it fails as force-needed, preparation logs one
    non-fatal line with the clone's message, goes on to read the action
    manifest and returns what the reader returns; if it fails otherwise,
    preparation stops there and returns that very error; if it succeeds, the
    manifest is read next. *)
Theorem prepare_fetch_failure_handling
    (sar : stepActionRemote) (Bk : Backend) (h pre post : list Op)
    (input : NewGitCloneExecutorInput) :
  snd (run Bk (prepareActionExecutor sar) h) = pre ++ OpGitClone input :: post ->
  let uses := step_Uses (sar_Step sar) in
  let returned := fst (fst (run Bk (prepareActionExecutor sar) h)) in
  match Bk (h ++ pre) (OpGitClone input) with
  | cloneOk =>
      exists actionPath,
        let read := OpReadAction uses (clone_Dir input) actionPath in
        post = [read]
        /\ returned = snd (Bk (h ++ pre ++ [OpGitClone input]) read)
  | cloneErrShortRef _ commit =>
      post = []
      /\ returned = Some (errorString
           ("Unable to resolve action `" +:+ uses +:+
            "`, the provided ref `" +:+ clone_Ref input +:+
            "` is the shortened version of a commit SHA, which is not supported. Please use the full commit SHA `" +:+
            commit +:+ "` instead"))
  | cloneErrForceNeeded err =>
      exists actionPath,
        let log := OpLog InfoLevel
                     ("Non-terminating error while running 'git clone': " +:+ Error err) in
        let read := OpReadAction uses (clone_Dir input) actionPath in
        post = [log; read]
        /\ returned = snd (Bk (h ++ pre ++ [OpGitClone input; log]) read)
  | cloneErr err =>
      post = [] /\ returned = Some err
  end.
Proof.
  intros Hops.
  destruct (prepare_run_shape sar Bk h) as [Hnone | (pre' & input' & post' & E & Hpre & Hpost & H)].
  - rewrite Hops in Hnone. exfalso. eapply In_not_all_false; [|exact Hnone]. reflexivity.
  - rewrite Hops in E. symmetry in E.
    destruct (split_at_only is_GitClone pre' post' pre post
                (OpGitClone input') (OpGitClone input) Hpre Hpost eq_refl E)
      as (-> & E' & ->).
    injection E' as ->. exact H.
Qed.

(** ** C6: credentials of a service *)

Lemma handleServiceCredentials_run (rc : RunContext) (Bk : Backend)
    (interp : string -> string) (creds : gmap string string) (h : list Op) :
  interpolates Bk interp ->
  let username := interp (index creds "username") in
  let password := interp (index creds "password") in
  fst (run Bk (handleServiceCredentials rc (Some creds)) h) =
    if negb (size creds =? 2) then
      ("", "", Some (errorString "invalid property count for key 'credentials:'"))
    else if String.eqb username "" then
      (username, "", Some (errorString "failed to interpolate credentials.username"))
    else if String.eqb password "" then
      (username, password, Some (errorString "failed to interpolate credentials.password"))
    else (username, password, None).
Proof.
  intros Hinterp username password. unfold handleServiceCredentials, Interpolate.
  destruct (negb (size creds =? 2)); [reflexivity|].
  cbn [bind call]. rewrite run_Vis. cbn [fst]. rewrite run_Vis. cbn [fst].
  rewrite !Hinterp. fold username.
  destruct (String.eqb username ""); [reflexivity|].
  rewrite run_Vis. cbn [fst]. rewrite !Hinterp. fold password.
  destruct (String.eqb password ""); reflexivity.
Qed.

Lemma handleServiceCredentials_partial (rc : RunContext) (Bk : Backend)
    (interp : string -> string) (creds : gmap string string) (h : list Op) :
  interpolates Bk interp -> partial_credentials interp creds ->
  exists err, snd (fst (run Bk (handleServiceCredentials rc (Some creds)) h)) = Some err.
Proof.
  intros Hinterp Hbad.
  rewrite (handleServiceCredentials_run rc Bk interp creds h Hinterp).
  destruct (size creds =? 2) eqn:Hsize; cbn [negb]; [|eauto].
  apply Nat.eqb_eq in Hsize.
  destruct (String.eqb_spec (interp (index creds "username")) "") as [Hu|Hu]; [eauto|].
  destruct (String.eqb_spec (interp (index creds "password")) "") as [Hp|Hp]; [eauto|].
  destruct Hbad as [H | [[H _] | [_ H]]]; contradiction.
Qed.

Lemma handleServiceCredentials_ops (rc : RunContext) (creds : option (gmap string string)) :
  ops_in not_Create (handleServiceCredentials rc creds).
Proof.
  unfold handleServiceCredentials, Interpolate. destruct creds as [creds|]; [|constructor].
  destruct (negb _); [constructor|].
  apply ops_in_bind; [ops_call | intros _].
  apply ops_in_bind; [ops_call | intros username].
  destruct (String.eqb username ""); [constructor|].
  apply ops_in_bind; [ops_call | intros password].
  destruct (String.eqb password ""); constructor.
Qed.

Lemma handleCredentials_ops (rc : RunContext) : ops_in not_Create (handleCredentials rc).
Proof.
  unfold handleCredentials, Interpolate.
  destruct (job_Container (rc_Job rc)) as [container|]; [|constructor].
  destruct (cs_Credentials container) as [credentials|]; [|constructor].
  destruct (negb _); [constructor|].
  apply ops_in_bind; [ops_call | intros _].
  apply ops_in_bind; [ops_call | intros username].
  destruct (String.eqb username ""); [constructor|].
  apply ops_in_bind; [ops_call | intros password].
  destruct (String.eqb password ""); [constructor|].
  destruct (_ || _); constructor.
Qed.

Lemma platformImage_ops (rc : RunContext) : ops_in not_Create (platformImage rc).
Proof.
  unfold platformImage, Interpolate.
  destruct (job_Container (rc_Job rc)) as [c|].
  - apply (ops_in_call _ (OpInterpolate rcExprEval (cs_Image c))). reflexivity.
  - apply ops_in_bind.
    { destruct (job_RunsOn (rc_Job rc)); [constructor|].
      apply (ops_in_call _ (OpLog ErrorLevel _)). reflexivity. }
    intros _. apply ops_in_bind.
    { apply ops_in_mapM. intros v.
      apply (ops_in_call _ (OpInterpolate rcExprEval v)). reflexivity. }
    intros runsOn. destruct (negb _); constructor.
Qed.

Lemma addServiceContainers_ops (networkName : string)
    (services : list (string * ContainerSpec)) (rc : RunContext) :
  ops_in not_Create (addServiceContainers networkName services rc).
Proof.
  revert rc. induction services as [|[serviceId spec] rest IH]; intros rc;
    cbn [addServiceContainers]; [constructor|].
  apply ops_in_bind.
  { apply ops_in_mapM. intros [k v]. apply ops_in_bind; [|intros; constructor].
    apply (ops_in_call _ (OpInterpolate rcExprEval v)). reflexivity. }
  intros interpolatedEnvs. apply ops_in_bind.
  { apply ops_in_mapM. intros v.
    apply (ops_in_call _ (OpInterpolate rcExprEval v)). reflexivity. }
  intros interpolatedCmd. apply ops_in_bind; [apply handleServiceCredentials_ops|].
  intros [[username password] [err|]]; [constructor | apply IH].
Qed.

Lemma addServiceContainers_partial (Bk : Backend) (interp : string -> string)
    (networkName serviceId : string) (spec : ContainerSpec) (creds : gmap string string)
    (services : list (string * ContainerSpec)) :
  interpolates Bk interp ->
  In (serviceId, spec) services ->
  cs_Credentials spec = Some creds ->
  partial_credentials interp creds ->
  forall (rc : RunContext) (h : list Op),
    exists err, fst (fst (run Bk (addServiceContainers networkName services rc) h)) = Some err.
Proof.
  intros Hinterp Hin Hcreds Hbad.
  induction services as [|[serviceId' spec'] rest IH]; [destruct Hin|].
  intros rc h. cbn [addServiceContainers].
  rewrite run_bind. cbn [fst snd]. rewrite run_bind. cbn [fst snd]. rewrite run_bind.
  cbn [fst snd].
  match goal with
  | |- context [run Bk (handleServiceCredentials ?r ?c) ?hh] =>
      pose proof (fun cr => handleServiceCredentials_partial r Bk interp cr hh Hinterp) as Hhere;
      destruct (run Bk (handleServiceCredentials r c) hh) as [[[username password] err] ops]
        eqn:Hrun
  end.
  cbn [fst snd]. destruct err as [err|]; [cbn; eauto|].
  destruct Hin as [Heq | Hin].
  - injection Heq as -> ->. rewrite Hcreds in Hrun.
    destruct (Hhere creds Hbad) as (err & Herr). rewrite Hrun in Herr. discriminate.
  - apply IH, Hin.
Qed.

Lemma startJobContainer_stops_at_services (rc : RunContext) (Bk : Backend) (h : list Op) :
  (forall (networkName : string) (rc' : RunContext) (h' : list Op),
     exists err,
       fst (fst (run Bk (addServiceContainers networkName (job_Services (rc_Job rc)) rc') h'))
       = Some err) ->
  (exists err, fst (fst (run Bk (startJobContainer rc) h)) = Some err)
  /\ Forall not_Create (snd (run Bk (startJobContainer rc) h)).
Proof.
  intros Hservices. unfold startJobContainer.
  rewrite run_bind.
  pose proof (ops_in_run _ Bk _ h (platformImage_ops rc)) as Himage.
  destruct (run Bk (platformImage rc) h) as [image ops_image]. cbn [fst snd] in *.
  rewrite run_bind.
  pose proof (ops_in_run _ Bk _ (h ++ ops_image) (handleCredentials_ops rc)) as Hcreds.
  destruct (run Bk (handleCredentials rc) (h ++ ops_image))
    as [[[username password] [err|]] ops_creds]; cbn [fst snd] in *.
  { split; [eauto|]. cbn [run snd]. rewrite app_nil_r. apply Forall_app. auto. }
  cbn [bind call]. rewrite run_Vis. cbn [fst snd]. rewrite run_Vis. cbn [fst snd].
  rewrite run_bind.
  match goal with
  | |- context [run Bk (addServiceContainers ?n ?l ?r) ?hh] =>
      destruct (Hservices n r hh) as (err & Herr);
      pose proof (ops_in_run _ Bk _ hh (addServiceContainers_ops n l r)) as Hsvc;
      destruct (run Bk (addServiceContainers n l r) hh) as [[e rc'] ops_svc]
  end.
  cbn [fst snd] in *. subst e. cbn [run fst snd]. split; [eauto|].
  rewrite app_nil_r. apply Forall_app. split; [exact Himage|].
  apply Forall_app. split; [exact Hcreds|].
  apply List.Forall_cons; [reflexivity|]. apply List.Forall_cons; [reflexivity|].
  exact Hsvc.
Qed.

(** C6.  Let the evaluator interpolate by a fixed function.  (1) For a
    credentials mapping of a service that does not have exactly two entries,
    or in which exactly one of the user name and the password is empty after
    interpolation, [handleServiceCredentials] returns an error; for one with
    exactly two entries whose user name and password are both non-empty
    after interpolation it returns that pair and no error.  (2) When some
    service of the job has such partial credentials, [startJobContainer]
    returns an error and none of the calls it has made is the creation of a
    container. *)
Theorem service_credentials_resolved_before_create
    (rc : RunContext) (Bk : Backend) (interp : string -> string) :
  interpolates Bk interp ->
  (forall (creds : gmap string string) (h : list Op),
     (partial_credentials interp creds ->
      exists err,
        snd (fst (run Bk (handleServiceCredentials rc (Some creds)) h)) = Some err)
     /\ (size creds = 2 ->
         interp (index creds "username") <> "" ->
         interp (index creds "password") <> "" ->
         fst (run Bk (handleServiceCredentials rc (Some creds)) h) =
           (interp (index creds "username"), interp (index creds "password"), None)))
  /\ (forall (serviceId : string) (spec : ContainerSpec) (creds : gmap string string)
        (h : list Op),
        In (serviceId, spec) (job_Services (rc_Job rc)) ->
        cs_Credentials spec = Some creds ->
        partial_credentials interp creds ->
        (exists err, fst (fst (run Bk (startJobContainer rc) h)) = Some err)
        /\ Forall (fun o => is_Create o = false) (snd (run Bk (startJobContainer rc) h))).
Proof.
  intros Hinterp. split.
  - intros creds h. split.
    + apply handleServiceCredentials_partial, Hinterp.
    + intros Hsize Hu Hp.
      rewrite (handleServiceCredentials_run rc Bk interp creds h Hinterp), Hsize.
      cbn [Nat.eqb negb].
      rewrite (eqb_empty_false _ Hu), (eqb_empty_false _ Hp). reflexivity.
  - intros serviceId spec creds h Hin Hcreds Hbad.
    apply startJobContainer_stops_at_services.
    intros networkName rc' h'.
    eapply addServiceContainers_partial; eassumption.
Qed.

(** ** C9: the network is created before any container *)

Lemma network_first_true {A : Type} (name : string) (m : Exec A) :
  network_first name true m.
Proof. induction m as [a | o k IH]; constructor; auto. Qed.

Lemma network_first_mono {A : Type} (name : string) (seen b : bool) (m : Exec A) :
  network_first name seen m -> network_first name (seen || b) m.
Proof.
  destruct seen, b; cbn; auto using network_first_true.
Qed.

Lemma network_first_bind {A B : Type} (name : string) (m : Exec A) (f : A -> Exec B)
    (seen : bool) :
  ops_in not_Create m ->
  (forall a, network_first name seen (f a)) ->
  network_first name seen (bind m f).
Proof.
  intros Hm. revert seen. induction Hm as [a | o k Ho _ IH]; intros seen Hf; cbn [bind].
  - apply Hf.
  - constructor.
    + unfold not_Create in Ho. congruence.
    + intros r. apply IH. intros a. apply network_first_mono, Hf.
Qed.

Lemma network_first_run {A : Type} (name : string) (seen : bool) (m : Exec A)
    (Bk : Backend) (h : list Op) :
  network_first name seen m ->
  creates_after_network name seen (snd (run Bk m h)) = true.
Proof.
  intros Hm. revert h. induction Hm as [seen a | seen o k Ho _ IH]; intros h.
  - reflexivity.
  - rewrite run_Vis. cbn [snd creates_after_network]. rewrite IH, andb_true_r.
    destruct (is_Create o); [rewrite Ho by reflexivity|]; reflexivity.
Qed.

Lemma is_NetworkCreate_eq (name : string) (o : Op) :
  is_NetworkCreate name o = true -> o = OpNetworkCreate name.
Proof.
  destruct o; cbn; try discriminate. intros H. apply String.eqb_eq in H. congruence.
Qed.

Lemma creates_after_network_split (name : string) (seen : bool)
    (pre post : list Op) (c : Op) :
  creates_after_network name seen (pre ++ c :: post) = true ->
  is_Create c = true ->
  seen = true \/ In (OpNetworkCreate name) pre.
Proof.
  revert seen. induction pre as [|o pre IH]; intros seen H Hc;
    cbn [app creates_after_network] in H; apply andb_true_iff in H as [H1 H2].
  - rewrite Hc in H1. cbn in H1. auto.
  - destruct (IH _ H2 Hc) as [Hseen | Hin].
    + apply orb_true_iff in Hseen as [Hseen | Ho]; [auto|].
      right. left. apply is_NetworkCreate_eq, Ho.
    + right. right. exact Hin.
Qed.

Lemma ops_in_Vis_inv {A : Type} (P : Op -> Prop) (m : Exec A) :
  ops_in P m ->
  match m with
  | Ret _ => True
  | Vis o k => P o /\ forall r, ops_in P (k r)
  end.
Proof. destruct 1; auto. Qed.

Lemma run_in_order_ops (P : Op -> Prop) (firstErr : option error)
    (tasks : list (Exec (option error))) :
  Forall (ops_in P) tasks -> ops_in P (run_in_order firstErr tasks).
Proof.
  intros H. revert firstErr. induction H as [|t tasks Ht _ IH]; intros firstErr;
    cbn [run_in_order]; [constructor|].
  apply ops_in_bind; [exact Ht | intros e; apply IH].
Qed.

Lemma run_scheduled_ops (P : Op -> Prop) (parallel : nat) (schedule : list nat)
    (firstErr : option error) (tasks : list (Exec (option error))) :
  Forall (ops_in P) tasks -> ops_in P (run_scheduled parallel schedule firstErr tasks).
Proof.
  revert firstErr tasks.
  induction schedule as [|i schedule IH]; intros firstErr tasks Htasks;
    cbn [run_scheduled]; [apply run_in_order_ops, Htasks|].
  destruct (i <? parallel); [|apply IH, Htasks].
  destruct (tasks !! i) as [[e | o k]|] eqn:Hi; [| |apply IH, Htasks].
  - apply IH, Forall_delete, Htasks.
  - pose proof (Forall_lookup_1 _ _ _ _ Htasks Hi) as Ht.
    apply ops_in_Vis_inv in Ht as [Ho Hk].
    constructor; [exact Ho|]. intros r. apply IH, Forall_insert; [exact Htasks | apply Hk].
Qed.

Lemma NewParallelExecutor_ops (P : Op -> Prop) (parallel : nat)
    (executors : list (Exec (option error))) :
  P (OpGoSchedule (length executors)) ->
  Forall (ops_in P) executors ->
  ops_in P (NewParallelExecutor parallel executors).
Proof.
  intros Hs Hall. unfold NewParallelExecutor. cbn [bind call].
  constructor; [exact Hs|]. intros schedule. apply run_scheduled_ops, Hall.
Qed.

Lemma pullServicesImages_ops (forcePull : bool) (rc : RunContext) :
  ops_in not_Create (pullServicesImages forcePull rc).
Proof.
  unfold pullServicesImages, stateless.
  apply ops_in_bind; [|intros; constructor].
  apply NewParallelExecutor_ops; [reflexivity|].
  apply Forall_fmap, Forall_true. intros c. unfold Pull. cbn. ops_call.
Qed.

Lemma startJobContainer_network_first (rc : RunContext) :
  NeedCreateNetwork (rc_Config rc) = true ->
  network_first (jobContainerName rc +:+ "-network") false (startJobContainer rc).
Proof.
  intros Hneed. unfold startJobContainer. rewrite Hneed.
  set (name := jobContainerName rc +:+ "-network").
  apply network_first_bind; [apply platformImage_ops | intros image].
  apply network_first_bind; [apply handleCredentials_ops|].
  intros [[username password] [err|]]; [constructor|].
  apply network_first_bind; [ops_call | intros _].
  apply network_first_bind; [ops_call | intros arch].
  apply network_first_bind; [apply addServiceContainers_ops|].
  intros [[err|] rc']; [constructor|].
  cbn [set_JobContainer set_cleanUpJobContainer rc_JobContainer rc_Config rc_EventJSON].
  destruct (container_NewContainer _) as [jc|]; [|constructor].
  cbn [NewPipelineExecutor].
  apply network_first_bind; [apply pullServicesImages_ops|].
  intros [[err|] rc1]; [constructor|].
  apply network_first_bind.
  { unfold stateless, Pull. apply ops_in_bind; [ops_call | intros; constructor]. }
  intros [[err|] rc2]; [constructor|].
  unfold IfBool, createNetwork, stateless. cbn [bind call].
  constructor; [discriminate|]. intros r.
  cbn [orb is_NetworkCreate]. rewrite String.eqb_refl. apply network_first_true.
Qed.

(** C9.  With [NeedCreateNetwork] set, in every run of [startJobContainer],
    whatever the backend answers and however the scheduler interleaves the
    parallel service operations: each creation of a container, of the job or
    of a service, is preceded in the trace by the creation of the job's
    network. *)
Theorem network_created_before_containers
    (rc : RunContext) (Bk : Backend) (h pre post : list Op)
    (c : ExecutionsEnvironment) (capAdd capDrop : list string) :
  NeedCreateNetwork (rc_Config rc) = true ->
  snd (run Bk (startJobContainer rc) h) = pre ++ OpCreate c capAdd capDrop :: post ->
  In (OpNetworkCreate (jobContainerName rc +:+ "-network")) pre.
Proof.
  intros Hneed Hops.
  pose proof (network_first_run _ _ _ Bk h (startJobContainer_network_first rc Hneed)) as H.
  rewrite Hops in H.
  destruct (creates_after_network_split _ _ _ _ _ H eq_refl) as [Hseen | Hin];
    [discriminate | exact Hin].
Qed.

Lemma advance_step {A : Type} (Bk : Backend) (i : nat) (m : machine A) :
  advance Bk i m = m \/ step m (advance Bk i m).
Proof.
  unfold advance. destruct (goroutines m !! i) as [[[a | o k] | o k]|] eqn:Hi; auto.
  - destruct o; try (right; eapply step_call; [reflexivity | exact Hi]).
    + destruct (lock_owner m) eqn:Hfree; [auto|].
      right. apply step_Lock; assumption.
    + right. apply step_Unlock. exact Hi.
  - right. apply step_answer. exact Hi.
Qed.

Lemma interleave_reachable {A : Type} (Bk : Backend) (schedule : list nat)
    (m0 m : machine A) :
  reachable m0 m -> reachable m0 (interleave Bk schedule m).
Proof.
  unfold interleave. revert m. induction schedule as [|i schedule IH]; intros m Hm.
  - exact Hm.
  - cbn [fold_left]. apply IH.
    destruct (advance_step Bk i m) as [-> | Hstep]; [exact Hm|].
    eapply reachable_step; eassumption.
Qed.

End Runner.

(** * The properties on the examples *)

(** A job that calls a local reusable workflow, with the condition
    [false], in a run without a preset GitHub context: [Executor()] panics
    and returns no executor. *)
Lemma local_job_without_preset_example :
  rc_Executor ascii_ToLower
    (fun _ => stateless (Create None [] []))
    (example_run_context_without_preset example_skipped_local_workflow_job)
  = panicked.
Proof.
  apply (Executor_skips_job_unless_it_panics ascii_ToLower
           (fun _ => stateless (Create None [] []))
           (example_run_context_without_preset example_skipped_local_workflow_job)
           (example_run_context_without_preset example_skipped_local_workflow_job)
           (stub_backend statOk cloneOk (false, None) []) []).
  split; reflexivity.
Defined.

(** A default job whose condition is false: [Executor()] returns an
    executor, and the executor of the job's kind, here one that would
    create a container, is not run. *)
Example disabled_job_example :
  exists executor,
    rc_Executor ascii_ToLower
      (fun _ => stateless (Create None [] []))
      (example_run_context (example_job None))
    = returned executor
    /\ run (stub_backend statOk cloneOk (false, None) [])
         (executor (example_run_context (example_job None))) []
       = ((None, example_run_context (example_job None)),
          [OpEvalBool "always()";
           OpLog DebugLevel "Skipping job 'build' due to 'always()'"]).
Proof. eexists. split; reflexivity. Qed.

(** The [uses] string of the specification's example is rejected before any
    call. *)
Lemma malformed_reference_example :
  run (stub_backend statOk cloneOk (true, None) [])
    (prepareActionExecutor ascii_EqualFold (example_step "not-a-valid-ref")) []
  = ((Some (errorString
              "Expected format {org}/{repo}[/path]@ref. Actual 'not-a-valid-ref' Input string was not in a correct format"),
      example_step "not-a-valid-ref"),
     []).
Proof.
  exact (prepare_rejects_malformed_reference ascii_EqualFold
           (example_step "not-a-valid-ref")
           (stub_backend statOk cloneOk (true, None) []) []
           (or_introl eq_refl) (or_intror eq_refl)).
Defined.

(** The cache directory of a remote action exists, and preparing the action
    clones into it all the same. *)
Lemma remote_action_fetched_although_cached :
  stub_backend statOk cloneOk (true, None) [] []
    (OpStat "/home/runner/.cache/act/actions-setup-go@v4") = statOk
  /\ snd (run (stub_backend statOk cloneOk (true, None) [])
            (prepareActionExecutor ascii_EqualFold (example_step "actions/setup-go@v4")) [])
     = [ OpGetGithubContext;
         OpHttpGet "https://gitea.com/actions/setup-go";
         OpGitClone {| clone_URL := "https://gitea.com/actions/setup-go";
                       clone_Ref := "v4";
                       clone_Dir := "/home/runner/.cache/act/actions-setup-go@v4";
                       clone_Token := "" |};
         OpReadAction "actions/setup-go@v4"
           "/home/runner/.cache/act/actions-setup-go@v4" "" ].
Proof. split; reflexivity. Qed.

(** A remote reusable workflow whose cache directory exists is not cloned. *)
Lemma cached_reusable_workflow_example :
  Forall (fun o => is_GitClone o = false)
    (snd (run (stub_backend statOk cloneOk (true, None) [])
            (newRemoteReusableWorkflowExecutor
               (example_run_context example_remote_workflow_job) tt) [])).
Proof.
  exact (proj1 (reusable_workflow_not_fetched_when_cached ascii_EqualFold unit
                  (example_run_context example_remote_workflow_job) tt
                  (stub_backend statOk cloneOk (true, None) []) [])
           eq_refl).
Defined.

(** Preparing a remote action clones without taking the lock, and two
    goroutines that prepare remote actions can be in the middle of their
    clones at the same time while nobody holds the lock. *)
Lemma remote_action_fetch_without_lock :
  clones_under_lock false
    (snd (run (stub_backend statNotExist cloneOk (true, None) [])
            (prepareActionExecutor ascii_EqualFold (example_step "actions/setup-go@v4")) []))
  = false
  /\ exists m : machine (option error * stepActionRemote),
       reachable
         (start [ prepareActionExecutor ascii_EqualFold (example_step "actions/setup-go@v4");
                  prepareActionExecutor ascii_EqualFold (example_step "actions/setup-node@v3") ])
         m
       /\ fetching m 0 /\ fetching m 1 /\ lock_owner m = None.
Proof.
  split; [reflexivity|].
  eexists. split.
  - apply (interleave_reachable (stub_backend statNotExist cloneOk (true, None) [])
             [0; 0; 0; 0; 0; 1; 1; 1; 1; 1]).
    apply reachable_start.
  - vm_compute. split; [|split].
    + eexists _, _. reflexivity.
    + eexists _, _. reflexivity.
    + reflexivity.
Qed.

(** Two goroutines run reusable workflows whose cache directories are
    missing: the first is in the middle of its clone, and no other one can
    be; the clone of one of them alone is made under the lock. *)
Lemma reusable_workflow_lock_example :
  clones_under_lock false
    (snd (run (stub_backend statNotExist cloneOk (true, None) [])
            (newRemoteReusableWorkflowExecutor
               (example_run_context example_remote_workflow_job) tt) []))
  = true
  /\ exists m : machine (option error * unit),
       reachable
         (start [ newRemoteReusableWorkflowExecutor
                    (example_run_context example_remote_workflow_job) tt;
                  newLocalReusableWorkflowExecutor
                    (example_run_context example_local_workflow_job) tt ])
         m
       /\ fetching m 0
       /\ forall j, fetching m j -> 0 = j.
Proof.
  pose proof (reusable_workflow_fetch_holds_lock unit) as [Hseq Hpar].
  split.
  - apply Hseq.
  - exists (interleave (stub_backend statNotExist cloneOk (true, None) [])
              [0; 1; 0; 0; 1; 0]
              (start [ newRemoteReusableWorkflowExecutor
                         (example_run_context example_remote_workflow_job) tt;
                       newLocalReusableWorkflowExecutor
                         (example_run_context example_local_workflow_job) tt ])).
    assert (Hreach : reachable
      (start [ newRemoteReusableWorkflowExecutor
                 (example_run_context example_remote_workflow_job) tt;
               newLocalReusableWorkflowExecutor
                 (example_run_context example_local_workflow_job) tt ])
      (interleave (stub_backend statNotExist cloneOk (true, None) [])
         [0; 1; 0; 0; 1; 0]
         (start [ newRemoteReusableWorkflowExecutor
                    (example_run_context example_remote_workflow_job) tt;
                  newLocalReusableWorkflowExecutor
                    (example_run_context example_local_workflow_job) tt ]))).
    { apply interleave_reachable, reachable_start. }
    assert (Hfetch : fetching
      (interleave (stub_backend statNotExist cloneOk (true, None) [])
         [0; 1; 0; 0; 1; 0]
         (start [ newRemoteReusableWorkflowExecutor
                    (example_run_context example_remote_workflow_job) tt;
                  newLocalReusableWorkflowExecutor
                    (example_run_context example_local_workflow_job) tt ])) 0).
    { vm_compute. eexists _, _. reflexivity. }
    split; [exact Hreach|]. split; [exact Hfetch|].
    intros j Hj. eapply Hpar; [|exact Hreach|exact Hfetch|exact Hj].
    repeat constructor.
    + exists (example_run_context example_remote_workflow_job), tt. right. reflexivity.
    + exists (example_run_context example_local_workflow_job), tt. left. reflexivity.
Defined.

(** The specification's example of a local reusable workflow, with its
    cache directory missing: the caller's repository is cloned. *)
Lemma local_reusable_workflow_is_fetched :
  snd (run (stub_backend statNotExist cloneOk (true, None) [])
         (newLocalReusableWorkflowExecutor
            (example_run_context example_local_workflow_job) tt) [])
  = [ OpLock;
      OpStat "/home/runner/.cache/act/octocat-hello-world-.gitea-workflows-build.yml@0123456789abcdef0123456789abcdef01234567";
      OpGitClone
        {| clone_URL := "https://gitea.example.com/octocat/hello-world";
           clone_Ref := "0123456789abcdef0123456789abcdef01234567";
           clone_Dir := "/home/runner/.cache/act/octocat-hello-world-.gitea-workflows-build.yml@0123456789abcdef0123456789abcdef01234567";
           clone_Token := "secret-token" |};
      OpUnlock;
      OpNewWorkflowPlanner
        "/home/runner/.cache/act/octocat-hello-world-.gitea-workflows-build.yml@0123456789abcdef0123456789abcdef01234567"
        "./.gitea/workflows/build.yml";
      OpPlanEvent "workflow_call";
      OpNewReusableWorkflowRunner;
      OpRunPlan ].
Proof. reflexivity. Qed.

(** The same job when the cache directory exists: no clone, and the
    workflow is planned from the cache directory. *)
Lemma local_reusable_workflow_example :
  exists rest,
    snd (run (stub_backend statOk cloneOk (true, None) [])
           (newLocalReusableWorkflowExecutor
              (example_run_context example_local_workflow_job) tt) [])
    = OpLock
      :: OpStat "/home/runner/.cache/act/octocat-hello-world-.gitea-workflows-build.yml@0123456789abcdef0123456789abcdef01234567"
      :: OpUnlock
      :: OpNewWorkflowPlanner
           "/home/runner/.cache/act/octocat-hello-world-.gitea-workflows-build.yml@0123456789abcdef0123456789abcdef01234567"
           "./.gitea/workflows/build.yml"
      :: rest.
Proof.
  exact (local_reusable_workflow_runs_from_cache unit
           (example_run_context example_local_workflow_job) tt
           (stub_backend statOk cloneOk (true, None) []) []
           "octocat" "hello-world" "gitea" "build.yml"
           ltac:(discriminate) eq_refl ltac:(discriminate) eq_refl
           ltac:(discriminate) eq_refl ltac:(discriminate) eq_refl
           eq_refl eq_refl eq_refl).
Defined.

(** A service whose password is empty after interpolation: the start of the
    job container fails before any container is created. *)
Lemma partial_service_credentials_example :
  (exists err,
     fst (fst (run (stub_backend statOk cloneOk (true, None) [])
                 (startJobContainer ascii_ToLower stub_NewContainer stub_GetActPath
                    (example_run_context
                       (example_job (Some {[ "username" := "user"; "password" := "" ]}))))
                 []))
     = Some err)
  /\ Forall (fun o => is_Create o = false)
       (snd (run (stub_backend statOk cloneOk (true, None) [])
               (startJobContainer ascii_ToLower stub_NewContainer stub_GetActPath
                  (example_run_context
                     (example_job (Some {[ "username" := "user"; "password" := "" ]}))))
               [])).
Proof.
  apply (proj2 (service_credentials_resolved_before_create ascii_ToLower stub_NewContainer
                  stub_GetActPath
                  (example_run_context
                     (example_job (Some {[ "username" := "user"; "password" := "" ]})))
                  (stub_backend statOk cloneOk (true, None) []) (fun s => s)
                  (fun _ _ _ => eq_refl))
           "db"
           (example_service (Some {[ "username" := "user"; "password" := "" ]}))
           {[ "username" := "user"; "password" := "" ]} []).
  - left. reflexivity.
  - reflexivity.
  - right. right. split; [discriminate | reflexivity].
Defined.

(** A clone that fails as an abbreviated SHA: preparation stops and the
    error names the full commit. *)
Lemma short_ref_example :
  fst (fst (run (stub_backend statOk
                   (cloneErrShortRef (errorString "short sha references are not supported")
                      "5d1c3c2e4a0f6b7c8d9e0f1a2b3c4d5e6f708192")
                   (true, None) [])
              (prepareActionExecutor ascii_EqualFold (example_step "actions/setup-go@5d1c3c2"))
              []))
  = Some (errorString
      "Unable to resolve action `actions/setup-go@5d1c3c2`, the provided ref `5d1c3c2` is the shortened version of a commit SHA, which is not supported. Please use the full commit SHA `5d1c3c2e4a0f6b7c8d9e0f1a2b3c4d5e6f708192` instead").
Proof.
  exact (proj2 (prepare_fetch_failure_handling ascii_EqualFold
                  (example_step "actions/setup-go@5d1c3c2")
                  (stub_backend statOk
                     (cloneErrShortRef (errorString "short sha references are not supported")
                        "5d1c3c2e4a0f6b7c8d9e0f1a2b3c4d5e6f708192")
                     (true, None) [])
                  []
                  [OpGetGithubContext; OpHttpGet "https://gitea.com/actions/setup-go"]
                  []
                  {| clone_URL := "https://gitea.com/actions/setup-go";
                     clone_Ref := "5d1c3c2";
                     clone_Dir := "/home/runner/.cache/act/actions-setup-go@5d1c3c2";
                     clone_Token := "" |}
                  eq_refl)).
Defined.

(** The key of a reference with a host, and the directory its action is
    cloned into. *)
Lemma cache_key_example :
  safeFilename "https://gitea.com/actions/checkout@v4"
  = "https---gitea.com-actions-checkout@v4"
  /\ forall input,
       In (OpGitClone input)
         (snd (run (stub_backend statOk cloneOk (true, None) [])
                 (prepareActionExecutor ascii_EqualFold
                    (example_step "https://gitea.com/actions/setup-go@v4")) []))
       -> clone_Dir input = "/home/runner/.cache/act/https---gitea.com-actions-setup-go@v4".
Proof.
  split.
  - exact (proj1 (safeFilename_cache_key ascii_EqualFold "https://gitea.com/actions/checkout@v4")).
  - intros input.
    exact (proj1 (proj2 (safeFilename_cache_key ascii_EqualFold
                           "https://gitea.com/actions/setup-go@v4"))
             (example_step "https://gitea.com/actions/setup-go@v4")
             (stub_backend statOk cloneOk (true, None) []) [] input eq_refl).
Defined.

(** The job container's creation in a run with one service: the network
    has been created before it. *)
Lemma network_before_containers_example :
  In (OpNetworkCreate "act_WORKFLOW-ci_JOB-build-network")
    (take 12
       (snd (run (stub_backend statOk cloneOk (true, None) [0; 0; 0; 0])
               (startJobContainer ascii_ToLower stub_NewContainer stub_GetActPath
                  (example_run_context (example_job None))) []))).
Proof.
  apply (network_created_before_containers ascii_ToLower stub_NewContainer stub_GetActPath
           (example_run_context (example_job None))
           (stub_backend statOk cloneOk (true, None) [0; 0; 0; 0]) []
           (take 12
              (snd (run (stub_backend statOk cloneOk (true, None) [0; 0; 0; 0])
                      (startJobContainer ascii_ToLower stub_NewContainer stub_GetActPath
                         (example_run_context (example_job None))) [])))
           (drop 13
              (snd (run (stub_backend statOk cloneOk (true, None) [0; 0; 0; 0])
                      (startJobContainer ascii_ToLower stub_NewContainer stub_GetActPath
                         (example_run_context (example_job None))) [])))
           (rc_JobContainer
              (snd (fst (run (stub_backend statOk cloneOk (true, None) [0; 0; 0; 0])
                           (startJobContainer ascii_ToLower stub_NewContainer stub_GetActPath
                              (example_run_context (example_job None))) []))))
           [] []).
  - reflexivity.
  - vm_compute. reflexivity.
Defined.

(** A container spec without credentials: the secrets are returned. *)
Lemma secrets_fallback_example :
  run (stub_backend statOk cloneOk (true, None) [])
    (handleCredentials (example_run_context example_container_job)) []
  = (("bob", "", None), []).
Proof.
  exact (handleCredentials_falls_back_to_secrets
           (example_run_context example_container_job)
           (stub_backend statOk cloneOk (true, None) []) [] eq_refl).
Defined.

(** * Further properties of the code *)

(** ** Cache keys *)

Lemma map_bytes_append (f : ascii -> ascii) (a b : string) :
  map_bytes f (a +:+ b) = map_bytes f a +:+ map_bytes f b.
Proof.
  induction a as [|x a IH]; [reflexivity|].
  rewrite append_cons. cbn [map_bytes]. rewrite IH. reflexivity.
Qed.

Lemma sanitize_byte_clean (c : ascii) : path_hostile (sanitize_byte c) = false.
Proof.
  unfold sanitize_byte. destruct (path_hostile c) eqn:E; [reflexivity | exact E].
Qed.

Lemma sanitize_byte_fixed (c : ascii) : sanitize_byte (sanitize_byte c) = sanitize_byte c.
Proof.
  unfold sanitize_byte at 1. rewrite sanitize_byte_clean. reflexivity.
Qed.

(** X1.  The cache key of a reference has as many bytes as the reference,
    contains none of the bytes [< > : quote / backslash | ? *] (so it is one
    path component), and is a key of itself: applying [safeFilename] twice
    is the same as applying it once. *)
Theorem safeFilename_is_one_path_component (s : string) :
  String.length (safeFilename s) = String.length s
  /\ all_bytes (fun c => negb (path_hostile c)) (safeFilename s) = true
  /\ safeFilename (safeFilename s) = safeFilename s.
Proof.
  rewrite !safeFilename_bytewise. induction s as [|c s (IHlen & IHclean & IHidem)].
  - repeat split.
  - cbn [map_bytes String.length all_bytes].
    rewrite IHlen, IHclean, IHidem, sanitize_byte_clean, sanitize_byte_fixed.
    repeat split.
Qed.

(** X2.  The key does not tell the replaced bytes from one another or from
    the hyphen: two references that differ in one position, where one has a
    byte of the replaced set and the other has such a byte or a hyphen, have
    the same cache key, hence the same cache directory. *)
Theorem safeFilename_confuses_separators (a b : string) (c d : ascii) :
  path_hostile c = true ->
  path_hostile d = true \/ d = "-"%char ->
  safeFilename (a +:+ String c b) = safeFilename (a +:+ String d b).
Proof.
  intros Hc Hd. rewrite !safeFilename_bytewise, !map_bytes_append.
  cbn [map_bytes]. f_equal. f_equal.
  unfold sanitize_byte. rewrite Hc.
  destruct Hd as [Hd | ->]; [rewrite Hd|]; reflexivity.
Qed.

Lemma safeFilename_collision_example :
  safeFilename "actions/setup-go@release/v4" = safeFilename "actions/setup-go@release-v4".
Proof.
  exact (safeFilename_confuses_separators "actions/setup-go@release" "v4" "/" "-"
           eq_refl (or_intror eq_refl)).
Defined.

(** ** Container names *)

Lemma all_bytes_map_bytes (p : ascii -> bool) (f : ascii -> ascii) (s : string) :
  (forall c, p (f c) = true) -> all_bytes p (map_bytes f s) = true.
Proof.
  intros H. induction s as [|c s IH]; [reflexivity|].
  cbn [map_bytes all_bytes]. rewrite H, IH. reflexivity.
Qed.

Lemma all_bytes_TrimLeft1 (p : ascii -> bool) (s : string) (c : ascii) :
  all_bytes p s = true -> all_bytes p (TrimLeft1 s c) = true.
Proof.
  induction s as [|d s IH]; [reflexivity|]. cbn [all_bytes TrimLeft1].
  intros H. apply andb_true_iff in H as [Hd Hs].
  destruct (Ascii.eqb d c); [apply IH, Hs|]. cbn [all_bytes]. rewrite Hd, Hs. reflexivity.
Qed.

Lemma all_bytes_TrimRight1 (p : ascii -> bool) (s : string) (c : ascii) :
  all_bytes p s = true -> all_bytes p (TrimRight1 s c) = true.
Proof.
  induction s as [|d s IH]; [reflexivity|]. cbn [all_bytes TrimRight1].
  intros H. apply andb_true_iff in H as [Hd Hs]. specialize (IH Hs).
  destruct (TrimRight1 s c) as [|e t].
  - destruct (Ascii.eqb d c); [reflexivity|]. cbn [all_bytes]. rewrite Hd. reflexivity.
  - cbn [all_bytes] in *. rewrite Hd, IH. reflexivity.
Qed.

Lemma TrimLeft1_not_led (s : string) (c : ascii) : not_led_by c (TrimLeft1 s c).
Proof.
  induction s as [|d s IH]; [exact I|]. cbn [TrimLeft1].
  destruct (Ascii.eqb d c) eqn:E; [exact IH | exact E].
Qed.

Lemma TrimRight1_not_led (s : string) (c : ascii) :
  not_led_by c s -> not_led_by c (TrimRight1 s c).
Proof.
  destruct s as [|d s]; [trivial|]. cbn [not_led_by TrimRight1]. intros H.
  destruct (TrimRight1 s c); [rewrite H|]; exact H.
Qed.

Lemma Replace_from_all_bytes (p : ascii -> bool) (old new : string) (s : string) :
  all_bytes p new = true -> all_bytes p s = true ->
  forall skip, all_bytes p (Replace_from [(old, new)] skip s) = true.
Proof.
  intros Hnew. induction s as [|c s IH]; intros Hs skip; [reflexivity|].
  cbn [all_bytes] in Hs. apply andb_true_iff in Hs as [Hc Hs].
  cbn [Replace_from]. destruct skip as [|k]; [|apply IH, Hs].
  cbn [first_match]. destruct (negb (String.eqb old "") && HasPrefix (String c s) old).
  - rewrite all_bytes_append, Hnew. apply IH, Hs.
  - cbn [all_bytes]. rewrite Hc. apply IH, Hs.
Qed.

Lemma Replace_from_length (s : string) :
  forall skip,
    String.length (Replace_from [("--", "-")] skip s) <= String.length s - skip
    /\ (Contains (drop_bytes skip s) "--" = true ->
        String.length (Replace_from [("--", "-")] skip s) < String.length s).
Proof.
  induction s as [|c s IH]; intros skip.
  - cbn. split; [lia|]. destruct skip; cbn; discriminate.
  - cbn [Replace_from]. destruct skip as [|k].
    + cbn [first_match drop_bytes]. change (negb ("--" =? "")%string) with true.
      cbn [andb]. destruct (HasPrefix (String c s) "--") eqn:Hp.
      * destruct (IH 1) as [Hle _].
        assert (Hs : 1 <= String.length s).
        { cbn [HasPrefix] in Hp. destruct s; [rewrite andb_false_r in Hp; discriminate|].
          cbn. lia. }
        change (String.length "--" - 1) with 1.
        rewrite append_cons, append_nil. cbn [String.length]. split; lia.
      * destruct (IH 0) as [Hle Hlt]. cbn [String.length]. split; [lia|].
        cbn [Contains]. rewrite Hp. cbn [orb]. intros H.
        assert (Hd : drop_bytes 0 s = s) by (destruct s; reflexivity).
        rewrite Hd in Hlt. specialize (Hlt H). lia.
    + destruct (IH k) as [Hle Hlt]. cbn [String.length drop_bytes]. split; [lia|].
      intros H. specialize (Hlt H). lia.
Qed.

Lemma ReplaceAll_shorter (v : string) :
  Contains v "--" = true ->
  String.length (ReplaceAll v "--" "-") < String.length v.
Proof.
  intros H. unfold ReplaceAll, Replace. apply Replace_from_length.
  destruct v; exact H.
Qed.

Lemma collapse_dashes_done (fuel : nat) (v : string) :
  String.length v <= fuel -> Contains (collapse_dashes fuel v) "--" = false.
Proof.
  revert v. induction fuel as [|fuel IH]; intros v Hlen; cbn [collapse_dashes].
  - destruct v; [reflexivity | cbn in Hlen; lia].
  - destruct (Contains v "--") eqn:E; [|exact E].
    apply IH. pose proof (ReplaceAll_shorter v E). lia.
Qed.

Lemma ReplaceAll_not_led (v : string) :
  not_led_by "-" v -> v <> "" ->
  not_led_by "-" (ReplaceAll v "--" "-") /\ ReplaceAll v "--" "-" <> "".
Proof.
  destruct v as [|c v]; [congruence|]. cbn [not_led_by]. intros Hc _.
  unfold ReplaceAll, Replace. cbn [Replace_from first_match HasPrefix].
  rewrite Hc. cbn [andb negb]. change (negb ("--" =? "")%string) with true. cbn [andb].
  cbn [not_led_by]. split; [exact Hc | discriminate].
Qed.

Lemma collapse_dashes_keeps (p : ascii -> bool) (fuel : nat) (v : string) :
  p "-"%char = true -> all_bytes p v = true -> not_led_by "-" v ->
  all_bytes p (collapse_dashes fuel v) = true
  /\ not_led_by "-" (collapse_dashes fuel v)
  /\ (v <> "" -> collapse_dashes fuel v <> "").
Proof.
  intros Hp. revert v. induction fuel as [|fuel IH]; intros v Hv Hled; cbn [collapse_dashes].
  - auto.
  - destruct (Contains v "--") eqn:E; [|auto].
    assert (Hne : v <> "") by (intros ->; discriminate).
    destruct (ReplaceAll_not_led v Hled Hne) as [Hled' Hne'].
    destruct (IH (ReplaceAll v "--" "-")) as (H1 & H2 & H3); [|exact Hled'|].
    + unfold ReplaceAll, Replace. apply Replace_from_all_bytes; [|exact Hv].
      cbn. rewrite Hp. reflexivity.
    + auto.
Qed.

Lemma all_bytes_impl (p q : ascii -> bool) (s : string) :
  (forall c, p c = true -> q c = true) -> all_bytes p s = true -> all_bytes q s = true.
Proof.
  intros Hpq. induction s as [|c s IH]; [reflexivity|]. cbn [all_bytes].
  intros H. apply andb_true_iff in H as [Hc Hs]. rewrite (Hpq _ Hc), (IH Hs). reflexivity.
Qed.

Lemma Contains_dashes_join (a b : string) :
  Contains (a +:+ "_" +:+ b) "--" = Contains a "--" || Contains b "--".
Proof.
  induction a as [|c a IH].
  - rewrite append_nil. reflexivity.
  - rewrite append_cons. cbn [Contains]. rewrite IH, orb_assoc. f_equal. f_equal.
    destruct a as [|d a]; [|reflexivity].
    rewrite append_nil. cbn. rewrite !andb_false_r. reflexivity.
Qed.

(** One part of a container name, once cleaned: not empty, made of the bytes
    of the class, not led by a hyphen and without two hyphens in a row. *)
Lemma Join_clean_parts (parts : list string) :
  Forall (fun v => v <> "" /\ all_bytes name_byte v = true
                   /\ not_led_by "-" v /\ Contains v "--" = false) parts ->
  all_bytes (fun c => name_byte c || Ascii.eqb c "_") (Join parts "_") = true
  /\ Contains (Join parts "_") "--" = false
  /\ not_led_by "-" (Join parts "_")
  /\ (parts <> [] -> Join parts "_" <> "").
Proof.
  induction 1 as [|v rest (Hne & Hbytes & Hled & Hdd) Hrest (IH1 & IH2 & IH3 & IH4)].
  - cbn. repeat split. congruence.
  - assert (Hv : all_bytes (fun c => name_byte c || Ascii.eqb c "_") v = true).
    { eapply all_bytes_impl; [|exact Hbytes]. intros c ->. reflexivity. }
    destruct rest as [|w rest].
    + cbn [Join]. auto.
    + change (Join (v :: w :: rest) "_") with (v +:+ "_" +:+ Join (w :: rest) "_").
      rewrite !all_bytes_append, Hv, IH1, Contains_dashes_join, Hdd, IH2.
      repeat split.
      * destruct v; [congruence | exact Hled].
      * destruct v; [congruence | discriminate].
Qed.

(** X3.  A container name built by [createSimpleContainerName] consists of
    letters, digits, hyphens and underscores only, has no two hyphens in a
    row (the loop over "--" has run to its end), and, when it is not empty,
    begins with a letter or a digit. *)
Theorem createSimpleContainerName_is_clean (parts : list string) :
  all_bytes (fun c => name_byte c || Ascii.eqb c "_") (createSimpleContainerName parts)
  = true
  /\ Contains (createSimpleContainerName parts) "--" = false
  /\ match createSimpleContainerName parts with
     | EmptyString => True
     | String c _ => name_byte c && negb (Ascii.eqb c "-") = true
     end.
Proof.
  unfold createSimpleContainerName.
  match goal with |- context [Join ?l _] => set (cleaned := l) end.
  assert (Hclean : Forall (fun v => v <> "" /\ all_bytes name_byte v = true
                             /\ not_led_by "-" v /\ Contains v "--" = false) cleaned).
  { subst cleaned. apply List.Forall_forall. intros v Hin.
    apply list_elem_of_In, list_elem_of_filter in Hin as [Hne Hin].
    apply Is_true_true in Hne.
    apply list_elem_of_In, in_map_iff in Hin as (part & <- & _).
    set (mapped := map_bytes (fun c => if name_byte c then c else "-"%char) part) in *.
    assert (Hmapped : all_bytes name_byte mapped = true).
    { apply all_bytes_map_bytes. intros c. destruct (name_byte c) eqn:E; [exact E | reflexivity]. }
    assert (Htrim : all_bytes name_byte (Trim1 mapped "-") = true).
    { apply all_bytes_TrimRight1, all_bytes_TrimLeft1, Hmapped. }
    assert (Hled : not_led_by "-" (Trim1 mapped "-")).
    { apply TrimRight1_not_led, TrimLeft1_not_led. }
    destruct (collapse_dashes_keeps name_byte (String.length (Trim1 mapped "-"))
                (Trim1 mapped "-") eq_refl Htrim Hled) as (H1 & H2 & _).
    split; [|split; [exact H1 | split; [exact H2|]]].
    - apply negb_true_iff, String.eqb_neq in Hne. exact Hne.
    - apply collapse_dashes_done. lia. }
  destruct (Join_clean_parts cleaned Hclean) as (H1 & H2 & H3 & _).
  split; [exact H1 | split; [exact H2|]].
  destruct (Join cleaned "_") as [|c rest] eqn:E; [exact I|].
  cbn [all_bytes] in H1. apply andb_true_iff in H1 as [Hc _].
  cbn [not_led_by] in H3. rewrite H3. cbn [negb]. rewrite andb_true_r.
  destruct (name_byte c); [reflexivity|]. cbn [orb] in Hc.
  apply Ascii.eqb_eq in Hc. subst c.
  (* an underscore cannot lead: the first part leads, and it is made of class bytes *)
  destruct cleaned as [|v rest']; [discriminate|].
  apply Forall_cons in Hclean as [(Hne & Hbytes & _) _].
  destruct v as [|d v]; [congruence|].
  assert (d = "_"%char).
  { destruct rest'; cbn [Join] in E; [|rewrite append_cons in E]; congruence. }
  subst d. discriminate Hbytes.
Qed.

(** ** Trimming and merging *)

Lemma take_drop_bytes (n : nat) (s : string) : s = take_bytes n s +:+ drop_bytes n s.
Proof.
  revert s. induction n as [|n IH]; intros [|c s]; try reflexivity.
  cbn [take_bytes drop_bytes]. rewrite append_cons. f_equal. apply IH.
Qed.

Lemma take_bytes_length (n : nat) (s : string) :
  String.length (take_bytes n s) = Nat.min n (String.length s).
Proof.
  revert s. induction n as [|n IH]; intros [|c s]; try reflexivity.
  cbn [take_bytes String.length]. rewrite IH. reflexivity.
Qed.

Lemma append_empty_r (s : string) : s +:+ "" = s.
Proof. induction s as [|c s IH]; [reflexivity|]. rewrite append_cons, IH. reflexivity. Qed.

(** X4.  [trimToLen] returns the first [l] bytes of the string, all of it
    when it has no more than [l] bytes, and nothing when [l] is negative:
    the result is a prefix of the string, of length [min(len(s), max(l, 0))]. *)
Theorem trimToLen_is_bounded_prefix (s : string) (l : Z) :
  (exists rest, s = trimToLen s l +:+ rest)
  /\ Z.of_nat (String.length (trimToLen s l))
     = Z.min (Z.of_nat (String.length s)) (Z.max l 0).
Proof.
  unfold trimToLen.
  destruct (l <? 0)%Z eqn:Hneg;
    [apply Z.ltb_lt in Hneg | apply Z.ltb_ge in Hneg];
    match goal with |- context [(?a >? ?b)%Z] => destruct (Z.gtb_spec a b) as [Hgt | Hle] end.
  - split; [eexists; apply take_drop_bytes|]. rewrite take_bytes_length. lia.
  - split; [exists ""; symmetry; apply append_empty_r | lia].
  - split; [eexists; apply take_drop_bytes|]. rewrite take_bytes_length. lia.
  - split; [exists ""; symmetry; apply append_empty_r | lia].
Qed.

Lemma map_fold_assign (m acc : gmap string string) :
  map_fold (fun k v rtnMap => <[k := v]> rtnMap) acc m = m ∪ acc.
Proof.
  apply (map_fold_weak_ind (fun r m => r = m ∪ acc)).
  - symmetry. apply (left_id_L ∅ (∪)).
  - intros i x m' r _ ->. apply insert_union_l.
Qed.

Lemma mergeMaps_snoc (maps : list (gmap string string)) (m : gmap string string) :
  mergeMaps (maps ++ [m]) = m ∪ mergeMaps maps.
Proof.
  unfold mergeMaps. rewrite fold_left_app. cbn [fold_left]. apply map_fold_assign.
Qed.

(** X5.  In the map returned by [mergeMaps] a key has the value given by the
    last map of the argument list that has the key: later maps override
    earlier ones, and a key that no map has is absent. *)
Theorem mergeMaps_last_wins (maps : list (gmap string string)) (k v : string) :
  mergeMaps maps !! k = Some v <->
  exists (i : nat) (m : gmap string string),
    maps !! i = Some m /\ m !! k = Some v
    /\ forall (j : nat) (m' : gmap string string),
         i < j -> maps !! j = Some m' -> m' !! k = None.
Proof.
  induction maps as [|m maps IH] using rev_ind.
  - unfold mergeMaps. cbn [fold_left]. rewrite lookup_empty. split; [discriminate|].
    intros (i & m & H & _). rewrite lookup_nil in H. discriminate.
  - rewrite mergeMaps_snoc, lookup_union_Some_raw, IH. split.
    + intros [Hm | (Hnone & i & m0 & Hi & Hk & Hlast)].
      * exists (length maps), m. split; [|split].
        -- rewrite lookup_app_r, Nat.sub_diag by lia. reflexivity.
        -- exact Hm.
        -- intros j m' Hij Hj. apply lookup_lt_Some in Hj.
           rewrite length_app in Hj. cbn in Hj. lia.
      * exists i, m0. split; [|split].
        -- rewrite lookup_app_l; [exact Hi|]. eapply lookup_lt_Some, Hi.
        -- exact Hk.
        -- intros j m' Hij Hj. destruct (decide (j < length maps)) as [Hlt | Hge].
           ++ rewrite lookup_app_l in Hj by exact Hlt. eapply Hlast; eassumption.
           ++ rewrite lookup_app_r in Hj by lia.
              destruct (j - length maps) as [|n] eqn:E; cbn in Hj; [|discriminate].
              injection Hj as <-. exact Hnone.
    + intros (i & m0 & Hi & Hk & Hlast).
      destruct (decide (i < length maps)) as [Hlt | Hge].
      * right. split.
        -- apply (Hlast (length maps)); [exact Hlt|].
           rewrite lookup_app_r, Nat.sub_diag by lia. reflexivity.
        -- exists i, m0. rewrite lookup_app_l in Hi by exact Hlt.
           split; [exact Hi | split; [exact Hk|]].
           intros j m' Hij Hj. apply (Hlast j m' Hij).
           rewrite lookup_app_l; [exact Hj|]. eapply lookup_lt_Some, Hj.
      * left. rewrite lookup_app_r in Hi by lia.
        destruct (i - length maps) as [|n] eqn:E; cbn in Hi; [|discriminate].
        injection Hi as <-. exact Hk.
Qed.

(** X6.  The environment [GetEnv] returns always has ACT set to "true".  An
    environment that is already set is kept, with that one entry added, and
    the workflow, the job and the configuration are not read; an unset one
    is built from them, where the configuration overrides the job, which
    overrides the workflow, and is empty but for ACT when a part of the run
    context is missing.  Calling [GetEnv] again changes nothing. *)
Theorem GetEnv_sets_ACT_and_merges
    (Env : option (gmap string string))
    (sources : option (gmap string string * gmap string string * gmap string string)) :
  GetEnv Env sources !! "ACT" = Some "true"
  /\ (forall env : gmap string string,
        GetEnv (Some env) sources = <["ACT" := "true"]> env)
  /\ (forall workflowEnv jobEnvironment configEnv : gmap string string,
        GetEnv None (Some (workflowEnv, jobEnvironment, configEnv))
        = <["ACT" := "true"]> (configEnv ∪ jobEnvironment ∪ workflowEnv))
  /\ GetEnv None None = {[ "ACT" := "true" ]}
  /\ (forall sources', GetEnv (Some (GetEnv Env sources)) sources' = GetEnv Env sources).
Proof.
  split; [apply lookup_insert_eq|]. split; [reflexivity|]. split; [|split].
  - intros w j c. unfold GetEnv.
    change [w; j; c] with ((([] ++ [w]) ++ [j]) ++ [c]).
    rewrite !mergeMaps_snoc. unfold mergeMaps. cbn [fold_left].
    rewrite (right_id_L ∅ (∪)), (assoc_L (∪)). reflexivity.
  - reflexivity.
  - intros sources'. unfold GetEnv at 1. apply insert_id. apply lookup_insert_eq.
Qed.

(** ** Lookups in nested maps *)

(** X7.  A lookup along a path of keys is the lookup along its first part
    followed, in the map found there, by the lookup along the rest; when
    what the first part leads to is not a map, the result is [nil].  The
    empty path gives [nil], and a single key gives the entry of the map, or
    [nil] when the map has no such key. *)
Theorem nestedMapLookup_follows_path
    (m : list (string * any)) (ks1 ks2 : list string) :
  ks1 <> [] -> ks2 <> [] ->
  nestedMapLookup m (ks1 ++ ks2) =
    match nestedMapLookup m ks1 with
    | anyMap m' => nestedMapLookup m' ks2
    | _ => anyNil
    end.
Proof.
  intros H1 H2. revert m. induction ks1 as [|k rest IH]; [congruence|]. intros m.
  cbn [app nestedMapLookup]. destruct (map_entry m k) as [rval|]; [|reflexivity].
  destruct rest as [|r rest].
  - cbn [app]. destruct ks2 as [|k2 ks2]; [congruence|]. reflexivity.
  - cbn [app]. destruct rval; try reflexivity. apply IH. discriminate.
Qed.

Lemma nestedMapLookup_event_example :
  nestedMapLookup
    [("pull_request",
      anyMap [("number", anyOther "7");
              ("head", anyMap [("ref", anyString "feature")])])]
    ["pull_request"; "head"; "ref"]
  = nestedMapLookup
      [("number", anyOther "7"); ("head", anyMap [("ref", anyString "feature")])]
      ["head"; "ref"].
Proof.
  exact (nestedMapLookup_follows_path
           [("pull_request",
             anyMap [("number", anyOther "7");
                     ("head", anyMap [("ref", anyString "feature")])])]
           ["pull_request"] ["head"; "ref"]
           ltac:(discriminate) ltac:(discriminate)).
Defined.

(** ** Workflow triggers *)

Lemma events_of_sequence_strings fmt_T (val : list any) (names : list string)
    (res : list Event) :
  strings_of_slice val = Some names ->
  events_of_sequence fmt_T val res
  = returned (res ++ map (fun t => {| ev_Name := t; ev_Acts := None |}) names).
Proof.
  revert names res. induction val as [|v val IH]; intros names res H.
  - injection H as <-. cbn. rewrite app_nil_r. reflexivity.
  - cbn [strings_of_slice] in H. destruct v; try discriminate.
    destruct (strings_of_slice val) as [l|]; [|discriminate]. injection H as <-.
    cbn [events_of_sequence]. rewrite (IH l _ eq_refl), <- app_assoc. reflexivity.
Qed.

Lemma events_of_sequence_other fmt_T (val : list any) (res : list Event) :
  strings_of_slice val = None ->
  exists t, In t val /\ (forall s, t <> anyString s)
            /\ events_of_sequence fmt_T val res
               = failed (errorString ("invalid type " +:+ fmt_T t)).
Proof.
  revert res. induction val as [|v val IH]; intros res H; [discriminate|].
  cbn [strings_of_slice] in H.
  destruct v as [|s|l|l|m|text];
    try (eexists; split; [left; reflexivity | split; [discriminate | reflexivity]]).
  destruct (strings_of_slice val); [discriminate|].
  destruct (IH (res ++ [{| ev_Name := s; ev_Acts := None |}]) eq_refl) as (t & Hin & Hns & E).
  exists t. split; [right; exact Hin | split; [exact Hns | exact E]].
Qed.

(** X8.  For a trigger written as a sequence: when every element is a
    string, [ParseRawOn] returns one event per element, in order, named by
    the element and without activity types; otherwise it returns no event
    but an error that names the type of an element that is not a string. *)
Theorem ParseRawOn_sequence
    (fmt_T fmt_sharp_v : any -> string) (fmt_v_Kind : Kind -> string)
    (rawOn : Node) (val : list any) :
  node_Kind rawOn = SequenceNode -> Decode_slice rawOn = inl val ->
  match strings_of_slice val with
  | Some names =>
      ParseRawOn fmt_T fmt_sharp_v fmt_v_Kind rawOn
      = returned (map (fun t => {| ev_Name := t; ev_Acts := None |}) names)
  | None =>
      exists t, In t val /\ (forall s, t <> anyString s)
                /\ ParseRawOn fmt_T fmt_sharp_v fmt_v_Kind rawOn
                   = failed (errorString ("invalid type " +:+ fmt_T t))
  end.
Proof.
  intros Hkind Hval. unfold ParseRawOn. rewrite Hkind, Hval.
  destruct (strings_of_slice val) as [names|] eqn:E.
  - rewrite (events_of_sequence_strings fmt_T val names [] E). reflexivity.
  - apply events_of_sequence_other, E.
Qed.

Lemma ParseRawOn_sequence_example :
  ParseRawOn (fun _ => "int") (fun _ => "1") (fun _ => "0")
    {| node_Kind := SequenceNode; Decode_string := inr (errorString "cannot unmarshal");
       Decode_slice := inl [anyString "push"; anyString "pull_request"];
       Decode_map := inr (errorString "cannot unmarshal") |}
  = returned [ {| ev_Name := "push"; ev_Acts := None |};
               {| ev_Name := "pull_request"; ev_Acts := None |} ].
Proof.
  exact (ParseRawOn_sequence (fun _ => "int") (fun _ => "1") (fun _ => "0")
           {| node_Kind := SequenceNode;
              Decode_string := inr (errorString "cannot unmarshal");
              Decode_slice := inl [anyString "push"; anyString "pull_request"];
              Decode_map := inr (errorString "cannot unmarshal") |}
           [anyString "push"; anyString "pull_request"] eq_refl eq_refl).
Defined.

Lemma events_of_mapping_names fmt_sharp_v (val : list (string * any))
    (res events : list Event) :
  events_of_mapping fmt_sharp_v val res = returned events ->
  Forall (fun e => ev_Acts e <> None) res ->
  map ev_Name events =
    map ev_Name res ++
    map fst (List.filter (fun kv => match snd kv with anySlice _ => false | _ => true end) val)
  /\ Forall (fun e => ev_Acts e <> None) events.
Proof.
  revert res. induction val as [|[k v] val IH]; intros res H Hres.
  - injection H as <-. cbn. rewrite app_nil_r. auto.
  - cbn [events_of_mapping] in H. cbn [List.filter snd].
    assert (Hstep : forall acts,
      events_of_mapping fmt_sharp_v val (res ++ [{| ev_Name := k; ev_Acts := Some acts |}])
      = returned events ->
      map ev_Name events = map ev_Name res ++ k :: map fst
        (List.filter (fun kv => match snd kv with anySlice _ => false | _ => true end) val)
      /\ Forall (fun e => ev_Acts e <> None) events).
    { intros acts E. apply IH in E as [E1 E2].
      - rewrite E1, map_app, <- app_assoc. auto.
      - apply Forall_app. split; [exact Hres|]. constructor; [discriminate | constructor]. }
    destruct v as [|s|l|l|t|text]; cbn [map fst]; try (apply (Hstep _ H)).
    + apply IH; assumption.
    + destruct (acts_of_map fmt_sharp_v t ∅) as [acts|err|]; try discriminate.
      apply (Hstep _ H).
    + discriminate.
Qed.

(** X9.  For a trigger written as a mapping: when [ParseRawOn] returns, the
    events are named by the keys of the mapping, one per key in the order
    of the range, except that a key whose value is a [[]interface{}] (the
    form of a schedule) gives no event at all and no error; every event
    returned has an activity map that is not [nil]. *)
Theorem ParseRawOn_mapping_names
    (fmt_T fmt_sharp_v : any -> string) (fmt_v_Kind : Kind -> string)
    (rawOn : Node) (val : list (string * any)) (events : list Event) :
  node_Kind rawOn = MappingNode -> Decode_map rawOn = inl val ->
  ParseRawOn fmt_T fmt_sharp_v fmt_v_Kind rawOn = returned events ->
  map ev_Name events =
    map fst (List.filter (fun kv => match snd kv with anySlice _ => false | _ => true end) val)
  /\ Forall (fun e => ev_Acts e <> None) events.
Proof.
  intros Hkind Hval. unfold ParseRawOn. rewrite Hkind, Hval. intros H.
  apply events_of_mapping_names in H; [exact H | constructor].
Qed.

Lemma ParseRawOn_mapping_example :
  ParseRawOn (fun _ => "int") (fun _ => "1") (fun _ => "0")
    {| node_Kind := MappingNode; Decode_string := inr (errorString "cannot unmarshal");
       Decode_slice := inr (errorString "cannot unmarshal");
       Decode_map := inl [ ("push", anyMap [("branches", anySlice [anyString "main"])]);
                           ("schedule", anySlice [anyMap [("cron", anyString "0 0 * * *")]]);
                           ("workflow_dispatch", anyNil) ] |}
  = returned
      [ {| ev_Name := "push"; ev_Acts := Some (<["branches" := ["main"]]> ∅) |};
        {| ev_Name := "workflow_dispatch"; ev_Acts := Some ∅ |} ]
  /\ map ev_Name
       [ {| ev_Name := "push"; ev_Acts := Some (<["branches" := ["main"]]> ∅) |};
         {| ev_Name := "workflow_dispatch"; ev_Acts := Some ∅ |} ]
     = ["push"; "workflow_dispatch"].
Proof.
  split; [reflexivity|].
  exact (proj1 (ParseRawOn_mapping_names (fun _ => "int") (fun _ => "1") (fun _ => "0")
           {| node_Kind := MappingNode;
              Decode_string := inr (errorString "cannot unmarshal");
              Decode_slice := inr (errorString "cannot unmarshal");
              Decode_map :=
                inl [ ("push", anyMap [("branches", anySlice [anyString "main"])]);
                      ("schedule", anySlice [anyMap [("cron", anyString "0 0 * * *")]]);
                      ("workflow_dispatch", anyNil) ] |}
           _ _ eq_refl eq_refl eq_refl)).
Defined.

Lemma strings_of_slice_None (b : list any) :
  strings_of_slice b = None -> exists x, In x b /\ forall s, x <> anyString s.
Proof.
  induction b as [|v b IH]; [discriminate|]. cbn [strings_of_slice].
  destruct v as [|s|l|l|m|text];
    try (intros _; eexists; split; [left; reflexivity | discriminate]).
  destruct (strings_of_slice b); [discriminate|]. intros _.
  destruct (IH eq_refl) as (x & Hin & Hx). exists x. split; [right; exact Hin | exact Hx].
Qed.

Lemma acts_of_map_panicked fmt_sharp_v (t : list (string * any))
    (acts : gmap string (list string)) :
  acts_of_map fmt_sharp_v t acts = panicked ->
  exists act b, In (act, anySlice b) t /\ strings_of_slice b = None.
Proof.
  revert acts. induction t as [|[act branches] t IH]; intros acts; [discriminate|].
  cbn [acts_of_map].
  assert (Hrest : forall acts',
    acts_of_map fmt_sharp_v t acts' = panicked ->
    exists act0 b, In (act0, anySlice b) ((act, branches) :: t)
                   /\ strings_of_slice b = None).
  { intros acts' E. destruct (IH _ E) as (act0 & b & Hin & Hb).
    exists act0, b. split; [right; exact Hin | exact Hb]. }
  destruct branches as [|s|l|l|m|text]; try discriminate; try apply Hrest.
  destruct (strings_of_slice l) eqn:E; [apply Hrest|].
  intros _. exists act, l. split; [left; reflexivity | exact E].
Qed.

Lemma events_of_mapping_panicked fmt_sharp_v (val : list (string * any))
    (res : list Event) :
  events_of_mapping fmt_sharp_v val res = panicked ->
  exists k t, In (k, anyMap t) val /\ acts_of_map fmt_sharp_v t ∅ = panicked.
Proof.
  revert res. induction val as [|[k v] val IH]; intros res; [discriminate|].
  cbn [events_of_mapping].
  assert (Hrest : forall res',
    events_of_mapping fmt_sharp_v val res' = panicked ->
    exists k0 t, In (k0, anyMap t) ((k, v) :: val)
                 /\ acts_of_map fmt_sharp_v t ∅ = panicked).
  { intros res' E. destruct (IH _ E) as (k0 & t & Hin & Ht).
    exists k0, t. split; [right; exact Hin | exact Ht]. }
  destruct v as [|s|l|l|t|text]; try discriminate; try apply Hrest.
  destruct (acts_of_map fmt_sharp_v t ∅) eqn:E; try discriminate; [apply Hrest|].
  intros _. exists k, t. split; [left; reflexivity | exact E].
Qed.

Lemma events_of_sequence_returns fmt_T (val : list any) (res : list Event) :
  events_of_sequence fmt_T val res <> panicked.
Proof.
  revert res. induction val as [|v val IH]; intros res; [discriminate|].
  cbn [events_of_sequence]. destruct v; try discriminate. apply IH.
Qed.

(** X10.  [ParseRawOn] panics in one situation only: the trigger is a
    mapping, one of its events has a map of activity types, and one of these
    is given as a [[]interface{}] with an element that is not a string (the
    type assertion on that element fails).  On a scalar, a sequence or a
    node of another kind it always returns. *)
Theorem ParseRawOn_panics_only_on_mixed_list
    (fmt_T fmt_sharp_v : any -> string) (fmt_v_Kind : Kind -> string) (rawOn : Node) :
  ParseRawOn fmt_T fmt_sharp_v fmt_v_Kind rawOn = panicked ->
  node_Kind rawOn = MappingNode
  /\ exists (val : list (string * any)) (k : string) (t : list (string * any))
            (act : string) (b : list any) (x : any),
       Decode_map rawOn = inl val
       /\ In (k, anyMap t) val /\ In (act, anySlice b) t
       /\ In x b /\ forall s, x <> anyString s.
Proof.
  unfold ParseRawOn. destruct (node_Kind rawOn); try discriminate.
  - destruct (Decode_slice rawOn) as [val|err]; [|discriminate].
    intros H. exfalso. exact (events_of_sequence_returns _ _ _ H).
  - destruct (Decode_map rawOn) as [val|err]; [|discriminate].
    intros H. split; [reflexivity|].
    apply events_of_mapping_panicked in H as (k & t & Hin & H).
    apply acts_of_map_panicked in H as (act & b & Hin' & H).
    apply strings_of_slice_None in H as (x & Hx & Hns).
    exists val, k, t, act, b, x. auto.
  - destruct (Decode_string rawOn); discriminate.
Qed.

Lemma ParseRawOn_panic_example :
  ParseRawOn (fun _ => "int") (fun _ => "1") (fun _ => "0")
    {| node_Kind := MappingNode; Decode_string := inr (errorString "cannot unmarshal");
       Decode_slice := inr (errorString "cannot unmarshal");
       Decode_map :=
         inl [("push", anyMap [("branches", anySlice [anyString "main"; anyOther "1"])])] |}
  = panicked
  /\ exists (val : list (string * any)) (k : string) (t : list (string * any))
            (act : string) (b : list any) (x : any),
       inl [("push", anyMap [("branches", anySlice [anyString "main"; anyOther "1"])])]
       = (inl val : list (string * any) + error)
       /\ In (k, anyMap t) val /\ In (act, anySlice b) t
       /\ In x b /\ forall s, x <> anyString s.
Proof.
  split; [reflexivity|].
  exact (proj2 (ParseRawOn_panics_only_on_mixed_list (fun _ => "int") (fun _ => "1")
              (fun _ => "0")
              {| node_Kind := MappingNode;
                 Decode_string := inr (errorString "cannot unmarshal");
                 Decode_slice := inr (errorString "cannot unmarshal");
                 Decode_map :=
                   inl [("push", anyMap [("branches",
                                          anySlice [anyString "main"; anyOther "1"])])] |}
              eq_refl)).
Defined.

(** ** The socket of the container daemon, binds and mounts *)

Lemma Index_absent (s substr : string) :
  Contains s substr = false -> Index s substr = (-1)%Z.
Proof.
  induction s as [|c s IH]; cbn [Contains Index]; intros H;
    apply orb_false_iff in H as [Hp Hs]; rewrite Hp; [reflexivity|].
  rewrite (IH Hs). reflexivity.
Qed.

Lemma Index_after_scheme (scheme rest : string) :
  all_bytes (fun c => negb (Ascii.eqb c ":")) scheme = true ->
  Index (scheme +:+ "://" +:+ rest) "://" = Z.of_nat (String.length scheme).
Proof.
  induction scheme as [|c scheme IH]; intros H.
  - reflexivity.
  - cbn [all_bytes] in H. apply andb_true_iff in H as [Hc Hs].
    rewrite append_cons. cbn [Index HasPrefix]. apply negb_true_iff in Hc. rewrite Hc.
    cbn [andb]. rewrite (IH Hs).
    destruct (Z.eqb_spec (Z.of_nat (String.length scheme)) (-1)); [lia|].
    cbn [String.length]. lia.
Qed.

Lemma take_bytes_append (a b : string) : take_bytes (String.length a) (a +:+ b) = a.
Proof.
  induction a as [|c a IH]; [destruct b; reflexivity|].
  rewrite append_cons. cbn [String.length take_bytes]. rewrite IH. reflexivity.
Qed.

Lemma drop_bytes_append (a b : string) : drop_bytes (String.length a) (a +:+ b) = b.
Proof.
  induction a as [|c a IH]; [destruct b; reflexivity|].
  rewrite append_cons. cbn [String.length drop_bytes]. exact IH.
Qed.

(** X11.  The path under which the daemon socket is mounted: a daemon
    address without "://" is taken as the path itself.  For an address
    [scheme://rest] (the scheme without a colon): a scheme that
    [strings.EqualFold] equates with npipe gives the default
    [/var/run/docker.sock]; one it equates with unix gives [rest]; any other
    scheme made of ASCII letters only (tcp, ssh, the empty scheme) gives the
    default; and an address whose scheme has another byte is returned as it
    is. *)
Theorem getDockerDaemonSocketMountPath_by_scheme
    (strings_EqualFold : string -> string -> bool) :
  (forall daemonPath : string,
     Contains daemonPath "://" = false ->
     getDockerDaemonSocketMountPath strings_EqualFold daemonPath = daemonPath)
  /\ (forall scheme rest : string,
        all_bytes (fun c => negb (Ascii.eqb c ":")) scheme = true ->
        getDockerDaemonSocketMountPath strings_EqualFold (scheme +:+ "://" +:+ rest)
        = if strings_EqualFold scheme "npipe" then "/var/run/docker.sock"
          else if strings_EqualFold scheme "unix" then rest
          else if all_bytes ascii_letter scheme then "/var/run/docker.sock"
          else scheme +:+ "://" +:+ rest).
Proof.
  split.
  - intros daemonPath H. unfold getDockerDaemonSocketMountPath.
    rewrite (Index_absent _ _ H). reflexivity.
  - intros scheme rest H. unfold getDockerDaemonSocketMountPath.
    rewrite (Index_after_scheme scheme rest H).
    destruct (Z.eqb_spec (Z.of_nat (String.length scheme)) (-1)); [lia|]. cbn [negb].
    rewrite Nat2Z.id, take_bytes_append.
    destruct (strings_EqualFold scheme "npipe"); [reflexivity|].
    destruct (strings_EqualFold scheme "unix"); [|reflexivity].
    replace (Z.to_nat (Z.of_nat (String.length scheme) + 3))
      with (String.length (scheme +:+ "://")).
    + rewrite <- append_assoc. apply drop_bytes_append.
    + clear. induction scheme as [|c scheme IH]; [reflexivity|].
      rewrite append_cons. cbn [String.length]. rewrite IH. lia.
Qed.

Lemma getDockerDaemonSocketMountPath_unix_example :
  getDockerDaemonSocketMountPath ascii_EqualFold "unix:///run/user/1000/docker.sock"
  = "/run/user/1000/docker.sock".
Proof.
  exact (proj2 (getDockerDaemonSocketMountPath_by_scheme ascii_EqualFold)
           "unix" "/run/user/1000/docker.sock" eq_refl).
Defined.

Lemma addVolumes_binds (filepath_IsAbs : string -> bool) (volumes binds : list string)
    (mounts : gmap string string) :
  fst (addVolumes filepath_IsAbs volumes binds mounts)
  = binds ++ List.filter (fun v => negb (Contains v ":") || filepath_IsAbs v) volumes.
Proof.
  revert binds mounts. induction volumes as [|v rest IH]; intros binds mounts.
  - cbn. rewrite app_nil_r. reflexivity.
  - cbn [addVolumes List.filter]. destruct (negb (Contains v ":") || filepath_IsAbs v).
    + rewrite IH, <- app_assoc. reflexivity.
    + destruct (SplitN2 v ":") as [|source [|target [|]]]; apply IH.
Qed.

(** X12.  The binds of the job container are, in this order: the daemon
    socket, bound to [/var/run/docker.sock], unless the configured socket is
    "-" (an empty setting means the default socket, and is replaced by it);
    the volumes of the job's container that have no colon or are absolute
    paths; and, with [BindWorkdir], the working directory bound to its path
    in the container, with the modifier [:z] when SELinux is enabled and
    else [:delegated] on darwin.  Without [BindWorkdir] the working
    directory is not bound but mounted as the volume named after the job
    container. *)
Theorem GetBindsAndMounts_binds
    (strings_EqualFold : string -> string -> bool)
    (runtime_GOOS : string) (selinux_GetEnabled : bool)
    (filepath_IsAbs : string -> bool) (ext_GetActPath : string)
    (ext_ToContainerPath : string -> string)
    (rc : RunContext) (ContainerDaemonSocket : string) (Volumes : option (list string))
    (BindWorkdir : bool) (Workdir : string) :
  let result :=
    GetBindsAndMounts strings_EqualFold runtime_GOOS selinux_GetEnabled filepath_IsAbs
      ext_GetActPath ext_ToContainerPath rc ContainerDaemonSocket Volumes BindWorkdir
      Workdir in
  let socket :=
    if String.eqb ContainerDaemonSocket "" then "/var/run/docker.sock"
    else ContainerDaemonSocket in
  snd result = socket
  /\ fst (fst result)
     = (if String.eqb socket "-" then []
        else [getDockerDaemonSocketMountPath strings_EqualFold socket
              +:+ ":/var/run/docker.sock"])
       ++ List.filter (fun v => negb (Contains v ":") || filepath_IsAbs v)
            (default [] Volumes)
       ++ (if BindWorkdir
           then [Workdir +:+ ":" +:+ ext_ToContainerPath Workdir +:+
                 (if selinux_GetEnabled then ":z"
                  else if String.eqb runtime_GOOS "darwin" then ":delegated" else "")]
           else [])
  /\ (if BindWorkdir then True
      else snd (fst result) !! jobContainerName rc = Some (ext_ToContainerPath Workdir)).
Proof.
  intros result socket. subst result. unfold GetBindsAndMounts. fold socket.
  set (binds0 := if negb (String.eqb socket "-") then _ else _).
  set (mounts0 := <[_ := ext_GetActPath]> _).
  assert (Hbinds0 : binds0 = if String.eqb socket "-" then []
                             else [getDockerDaemonSocketMountPath strings_EqualFold socket
                                   +:+ ":/var/run/docker.sock"]).
  { subst binds0. destruct (String.eqb socket "-"); reflexivity. }
  destruct Volumes as [volumes|]; cbn [default].
  - pose proof (addVolumes_binds filepath_IsAbs volumes binds0 mounts0) as Hb.
    destruct (addVolumes filepath_IsAbs volumes binds0 mounts0) as [binds mounts].
    cbn [fst] in Hb. subst binds. rewrite Hbinds0.
    destruct BindWorkdir; cbn [fst snd].
    + split; [reflexivity|]. split; [|exact I].
      rewrite <- app_assoc. destruct selinux_GetEnabled; reflexivity.
    + split; [reflexivity|]. split; [|apply lookup_insert_eq].
      rewrite app_nil_r. reflexivity.
  - rewrite Hbinds0. destruct BindWorkdir; cbn [fst snd List.filter app].
    + split; [reflexivity|]. split; [|exact I].
      destruct selinux_GetEnabled; reflexivity.
    + split; [reflexivity|]. split; [|apply lookup_insert_eq].
      rewrite app_nil_r. reflexivity.
Qed.

(** ** References that parse *)

Lemma span_to_end (p : ascii -> bool) (a : string) :
  all_bytes p a = true -> span p a = (a, "").
Proof.
  intros H. pose proof (span_append_stop p a "" H I) as E.
  assert (Ha : a +:+ "" = a).
  { clear. induction a as [|c a IH]; [reflexivity|]. rewrite append_cons, IH. reflexivity. }
  rewrite Ha in E. exact E.
Qed.

(** X13.  Every well-formed plain reference parses into its parts: for an
    organisation and a repository that are not empty and have no slash or
    at-sign, a path without at-sign, and a ref that is not empty and has no
    newline, [parseAction] of [org/repo@ref] gives the organisation, the
    repository, the empty path and the ref, and [parseAction] of
    [org/repo/path@ref] gives the path as well; the URL is left empty.  The
    ref may contain slashes and at-signs. *)
Theorem parseAction_parses_reference (org repo path ref : string) :
  segment org -> segment repo -> all_bytes not_at path = true ->
  ref <> "" -> all_bytes not_newline ref = true ->
  parseAction (org +:+ "/" +:+ repo +:+ "@" +:+ ref)
  = Some {| ra_URL := ""; ra_Org := org; ra_Repo := repo; ra_Path := ""; ra_Ref := ref |}
  /\ parseAction (org +:+ "/" +:+ repo +:+ "/" +:+ path +:+ "@" +:+ ref)
     = Some {| ra_URL := ""; ra_Org := org; ra_Repo := repo; ra_Path := path;
               ra_Ref := ref |}.
Proof.
  intros [Horg Horg'] [Hrepo Hrepo'] Hpath Href Href'.
  unfold parseAction, match_action.
  destruct org as [|o0 org]; [congruence|]. destruct repo as [|r0 repo]; [congruence|].
  split.
  - rewrite (span_append_stop not_slash_at (String o0 org) _ Horg') by reflexivity.
    rewrite (append_cons "/"), append_nil. cbv beta iota. rewrite Ascii.eqb_refl.
    rewrite (span_append_stop not_slash_at (String r0 repo) _ Hrepo') by reflexivity.
    rewrite (append_cons "@"), append_nil. cbv beta iota.
    change (Ascii.eqb "@" "/") with false. cbv beta iota. rewrite Ascii.eqb_refl.
    cbn [andb]. rewrite Href', (eqb_empty_false _ Href). reflexivity.
  - rewrite (span_append_stop not_slash_at (String o0 org) _ Horg') by reflexivity.
    rewrite (append_cons "/"), append_nil. cbv beta iota. rewrite Ascii.eqb_refl.
    rewrite (span_append_stop not_slash_at (String r0 repo) _ Hrepo') by reflexivity.
    rewrite (append_cons "/"), append_nil. cbv beta iota. rewrite Ascii.eqb_refl.
    rewrite (span_append_stop not_at path _ Hpath) by reflexivity.
    rewrite (append_cons "@"), append_nil. cbv beta iota. rewrite Ascii.eqb_refl.
    cbn [andb]. rewrite Href', (eqb_empty_false _ Href). reflexivity.
Qed.

Lemma parseAction_example :
  parseAction ("actions" +:+ "/" +:+ "cache" +:+ "/" +:+ "restore" +:+ "@" +:+ "refs/tags/v4")
  = Some {| ra_URL := ""; ra_Org := "actions"; ra_Repo := "cache"; ra_Path := "restore";
            ra_Ref := "refs/tags/v4" |}.
Proof.
  apply (parseAction_parses_reference "actions" "cache" "restore" "refs/tags/v4").
  - split; [discriminate | reflexivity].
  - split; [discriminate | reflexivity].
  - reflexivity.
  - discriminate.
  - reflexivity.
Defined.

Lemma HasPrefix_app (s prefix rest : string) :
  HasPrefix s prefix = true -> HasPrefix (s +:+ rest) prefix = true.
Proof.
  revert s. induction prefix as [|p prefix IH]; intros s H; [reflexivity|].
  destruct s as [|c s]; [discriminate|]. cbn [HasPrefix] in H.
  apply andb_true_iff in H as [Hc Hs].
  rewrite append_cons. cbn [HasPrefix]. rewrite Hc, (IH _ Hs). reflexivity.
Qed.

(** X14.  The clone URL of a remote action always has a scheme: it starts
    with "http://" or "https://" ("https://" is put in front of a base
    without one) and ends with the organisation and the repository.  The
    base is the URL written in the reference when there is one, in which
    case the default given by the caller plays no part. *)
Theorem CloneURL_has_scheme (ra : remoteAction) (defaultURL : string) :
  HasPrefix (CloneURL ra defaultURL) "http://"
  || HasPrefix (CloneURL ra defaultURL) "https://" = true
  /\ (exists base, CloneURL ra defaultURL
                   = base +:+ "/" +:+ ra_Org ra +:+ "/" +:+ ra_Repo ra)
  /\ (if String.eqb (ra_URL ra) "" then True
      else forall other : string, CloneURL ra other = CloneURL ra defaultURL).
Proof.
  unfold CloneURL.
  set (u := if String.eqb (ra_URL ra) "" then defaultURL else ra_URL ra).
  split; [|split].
  - destruct (HasPrefix u "http://") eqn:H1; cbn [negb andb].
    + rewrite (HasPrefix_app _ _ _ H1). reflexivity.
    + destruct (HasPrefix u "https://") eqn:H2; cbn [negb].
      * rewrite (HasPrefix_app _ _ _ H2). apply orb_true_r.
      * rewrite (HasPrefix_app ("https://" +:+ u) "https://"
                   ("/" +:+ ra_Org ra +:+ "/" +:+ ra_Repo ra)); [apply orb_true_r|].
        reflexivity.
  - eexists. reflexivity.
  - subst u. destruct (String.eqb (ra_URL ra) ""); [exact I | reflexivity].
Qed.

Lemma SplitN2_append (host tail : string) :
  all_bytes not_slash host = true -> SplitN2 (host +:+ "/" +:+ tail) "/" = [host; tail].
Proof.
  intros H. unfold SplitN2.
  change (fun c => negb (Ascii.eqb c "/")) with not_slash.
  rewrite (span_append_stop not_slash host _ H) by reflexivity.
  reflexivity.
Qed.

(** X15.  A reference that begins with "https://" or "http://" is read as
    scheme, host, a slash and a plain reference (the host ends at the first
    slash and may be empty): [newRemoteAction] parses the plain reference and
    records scheme and host as the URL, and it gives [nil] when the plain
    reference does not parse.  The clone URL of the result is scheme, host,
    organisation and repository, whatever default URL is given. *)
Theorem newRemoteAction_with_host (schema host s : string) :
  schema = "https://" \/ schema = "http://" ->
  all_bytes not_slash host = true ->
  newRemoteAction (schema +:+ host +:+ "/" +:+ s)
  = match parseAction s with
    | Some ret => Some (set_ra_URL ret (schema +:+ host))
    | None => None
    end
  /\ forall (ra : remoteAction) (defaultURL : string),
       newRemoteAction (schema +:+ host +:+ "/" +:+ s) = Some ra ->
       CloneURL ra defaultURL
       = schema +:+ host +:+ "/" +:+ ra_Org ra +:+ "/" +:+ ra_Repo ra.
Proof.
  intros Hschema Hhost.
  assert (Hparse :
    newRemoteAction (schema +:+ host +:+ "/" +:+ s)
    = match parseAction s with
      | Some ret => Some (set_ra_URL ret (schema +:+ host))
      | None => None
      end).
  { unfold newRemoteAction. destruct Hschema as [-> | ->].
    - cbn [newRemoteAction_from].
      assert (Hp : HasPrefix ("https://" +:+ host +:+ "/" +:+ s) "https://" = true)
        by reflexivity.
      rewrite Hp. unfold TrimPrefix. rewrite Hp.
      change (drop_bytes (String.length "https://") ("https://" +:+ host +:+ "/" +:+ s))
        with (host +:+ "/" +:+ s).
      rewrite (SplitN2_append host s Hhost). reflexivity.
    - cbn [newRemoteAction_from].
      assert (Hp : HasPrefix ("http://" +:+ host +:+ "/" +:+ s) "https://" = false)
        by reflexivity.
      assert (Hq : HasPrefix ("http://" +:+ host +:+ "/" +:+ s) "http://" = true)
        by reflexivity.
      rewrite Hp, Hq. unfold TrimPrefix. rewrite Hq.
      change (drop_bytes (String.length "http://") ("http://" +:+ host +:+ "/" +:+ s))
        with (host +:+ "/" +:+ s).
      rewrite (SplitN2_append host s Hhost). reflexivity. }
  split; [exact Hparse|].
  intros ra defaultURL E. rewrite Hparse in E.
  destruct (parseAction s) as [ret|]; [|discriminate]. injection E as <-.
  unfold CloneURL. cbn [set_ra_URL ra_URL ra_Org ra_Repo].
  assert (Hne : String.eqb (schema +:+ host) "" = false)
    by (destruct Hschema as [-> | ->]; reflexivity).
  rewrite Hne.
  destruct Hschema as [-> | ->].
  - assert (Hq : HasPrefix ("https://" +:+ host) "http://" = false) by reflexivity.
    assert (Hp : HasPrefix ("https://" +:+ host) "https://" = true) by reflexivity.
    rewrite Hq, Hp. cbn [negb andb]. rewrite !append_assoc. reflexivity.
  - assert (Hq : HasPrefix ("http://" +:+ host) "http://" = true) by reflexivity.
    rewrite Hq. cbn [negb andb]. rewrite !append_assoc. reflexivity.
Qed.

Lemma newRemoteAction_with_host_example :
  newRemoteAction ("https://" +:+ "gitea.example.com" +:+ "/" +:+ "actions/checkout@v4")
  = Some {| ra_URL := "https://gitea.example.com"; ra_Org := "actions";
            ra_Repo := "checkout"; ra_Path := ""; ra_Ref := "v4" |}.
Proof.
  apply (newRemoteAction_with_host "https://" "gitea.example.com" "actions/checkout@v4").
  - left. reflexivity.
  - reflexivity.
Defined.

(** ** Looking for a server that has the action *)

(** X16.  [GetAvailableCloneURL] asks the given action servers in their
    order, one GET of the action's clone URL each, and stops at the first
    answer that is not a 404: every request but the last one made was
    answered 404.  On a 200 it returns that clone URL; a transport error is
    returned as it is; another status gives "unexpected http status code";
    and when all servers (or none at all) have been asked in vain it returns
    "no available url found".  No server after the deciding one is
    contacted. *)
Theorem GetAvailableCloneURL_probes_in_order
    (ra : remoteAction) (actionURLs : list string) (Bk : Backend) (h : list Op) :
  exists n : nat,
    n <= length actionURLs
    /\ snd (run Bk (GetAvailableCloneURL ra actionURLs) h)
       = map (fun u => OpHttpGet (CloneURL ra u)) (take n actionURLs)
    /\ (forall (i : nat) (u : string),
          S i < n -> actionURLs !! i = Some u ->
          Bk (h ++ map (fun u => OpHttpGet (CloneURL ra u)) (take i actionURLs))
             (OpHttpGet (CloneURL ra u))
          = httpStatus 404)
    /\ match n with
       | O =>
           actionURLs = []
           /\ fst (run Bk (GetAvailableCloneURL ra actionURLs) h)
              = ("", Some (errorString "no available url found"))
       | S k =>
           exists u : string,
             actionURLs !! k = Some u
             /\ fst (run Bk (GetAvailableCloneURL ra actionURLs) h)
                = match Bk (h ++ map (fun u => OpHttpGet (CloneURL ra u))
                                   (take k actionURLs))
                           (OpHttpGet (CloneURL ra u)) with
                  | httpErr err => ("", Some err)
                  | httpStatus code =>
                      if code =? 200 then (CloneURL ra u, None)
                      else if code =? 404
                           then ("", Some (errorString "no available url found"))
                           else ("", Some (errorString
                                   ("unexpected http status code: " +:+ decimal code)))
                  end
             /\ (Bk (h ++ map (fun u => OpHttpGet (CloneURL ra u)) (take k actionURLs))
                    (OpHttpGet (CloneURL ra u)) = httpStatus 404 ->
                 S k = length actionURLs)
       end.
Proof.
  revert h. induction actionURLs as [|u0 rest IH]; intros h.
  - exists 0. cbn. repeat split; try reflexivity. intros i u Hi. lia.
  - cbn [GetAvailableCloneURL]. rewrite run_Vis. cbn [fst snd].
    destruct (Bk h (OpHttpGet (CloneURL ra u0))) as [err | code] eqn:Hans.
    + exists 1. cbn [length take map run fst snd]. rewrite take_0. cbn [map].
      split; [lia|]. split; [reflexivity|]. split; [intros i u Hi; lia|].
      exists u0. split; [reflexivity|]. rewrite app_nil_r, Hans.
      split; [reflexivity | discriminate].
    + destruct (code =? 200) eqn:H200.
      * exists 1. cbn [length take map run fst snd]. rewrite take_0. cbn [map].
        split; [lia|]. split; [reflexivity|]. split; [intros i u Hi; lia|].
        exists u0. split; [reflexivity|]. rewrite app_nil_r, Hans, H200.
        split; [reflexivity|]. intros E. injection E as ->. discriminate.
      * destruct (code =? 404) eqn:H404.
        -- apply Nat.eqb_eq in H404. subst code.
           destruct (IH (h ++ [OpHttpGet (CloneURL ra u0)])) as (n & Hn & Hops & Hprev & Hlast).
           exists (S n). cbn [length take map]. split; [lia|].
           split; [rewrite Hops; reflexivity|]. split.
           ++ intros i u Hi Hu. destruct i as [|i].
              ** cbn in Hu. injection Hu as <-. rewrite take_0. cbn [map].
                 rewrite app_nil_r. exact Hans.
              ** cbn in Hu. cbn [take map].
                 specialize (Hprev i u ltac:(lia) Hu).
                 rewrite <- app_assoc in Hprev. exact Hprev.
           ++ destruct n as [|k].
              ** destruct Hlast as [-> Hres]. exists u0. split; [reflexivity|].
                 cbn [take map]. rewrite app_nil_r, Hans. cbn [Nat.eqb].
                 split; [|reflexivity]. rewrite Hres. reflexivity.
              ** destruct Hlast as (u & Hu & Hres & Hend). exists u.
                 split; [exact Hu|]. cbn [take map].
                 rewrite <- app_assoc in Hres, Hend. cbn [app] in Hres, Hend.
                 split; [exact Hres|]. intros E. rewrite (Hend E). reflexivity.
        -- exists 1. cbn [length take map run fst snd]. rewrite take_0. cbn [map].
           split; [lia|]. split; [reflexivity|]. split; [intros i u Hi; lia|].
           exists u0. split; [reflexivity|]. rewrite app_nil_r, Hans, H200, H404.
           split; [reflexivity|]. intros E. injection E as ->. discriminate.
Qed.

(** ** What a computation returns *)

Lemma returns_run {A : Type} (Q : A -> Prop) (Bk : Backend) (m : Exec A) (h : list Op) :
  returns Q m -> Q (fst (run Bk m h)).
Proof.
  intros Hm. revert h. induction Hm as [a Ha | o k Hk IH]; intros h.
  - exact Ha.
  - rewrite run_Vis. apply IH.
Qed.

Lemma returns_bind {A B : Type} (Q : A -> Prop) (R : B -> Prop) (m : Exec A)
    (f : A -> Exec B) :
  returns Q m -> (forall a, Q a -> returns R (f a)) -> returns R (bind m f).
Proof.
  intros Hm Hf. induction Hm as [a Ha | o k Hk IH]; cbn [bind].
  - apply Hf, Ha.
  - constructor. exact IH.
Qed.

Lemma returns_weaken {A : Type} (Q R : A -> Prop) (m : Exec A) :
  (forall a, Q a -> R a) -> returns Q m -> returns R m.
Proof. intros HQR Hm. induction Hm; constructor; auto. Qed.

Lemma returns_any {A : Type} (m : Exec A) : returns (fun _ => True) m.
Proof. induction m; constructor; auto. Qed.

Lemma returns_inv {A : Type} (Q : A -> Prop) (m : Exec A) :
  returns Q m ->
  match m with
  | Ret a => Q a
  | Vis o k => forall r, returns Q (k r)
  end.
Proof. intros H. destruct H; assumption. Qed.

Lemma ops_in_bind_returns {A B : Type} (P : Op -> Prop) (Q : A -> Prop) (m : Exec A)
    (f : A -> Exec B) :
  ops_in P m -> returns Q m -> (forall a, Q a -> ops_in P (f a)) -> ops_in P (bind m f).
Proof.
  intros Hm Hq Hf. induction m as [a | o k IH]; cbn [bind].
  - apply Hf. exact (returns_inv _ _ Hq).
  - apply ops_in_Vis_inv in Hm as [Ho Hk]. constructor; [exact Ho|].
    intros r. apply IH; [apply Hk|]. exact (returns_inv _ _ Hq r).
Qed.

(** ** What the preparation of a remote action fetches *)

Lemma GetAvailableCloneURL_returns (ra : remoteAction) (actionURLs : list string) :
  returns (fun r : string * option error =>
             snd r = None -> In (fst r) (map (CloneURL ra) actionURLs))
    (GetAvailableCloneURL ra actionURLs).
Proof.
  induction actionURLs as [|u rest IH]; cbn [GetAvailableCloneURL].
  - constructor. discriminate.
  - constructor. intros [err | code].
    + constructor. discriminate.
    + destruct (code =? 200); [constructor; intros _; left; reflexivity|].
      destruct (code =? 404); [|constructor; discriminate].
      eapply returns_weaken; [|exact IH]. intros [url e] H E. right. auto.
Qed.

Lemma GetAvailableCloneURL_asks (ra : remoteAction) (actionURLs : list string) :
  ops_in (fun o => exists u, In u actionURLs /\ o = OpHttpGet (CloneURL ra u))
    (GetAvailableCloneURL ra actionURLs).
Proof.
  induction actionURLs as [|u rest IH]; cbn [GetAvailableCloneURL].
  - constructor.
  - constructor; [exists u; split; [left|]; reflexivity|]. intros [err | code].
    + constructor.
    + destruct (code =? 200); [constructor|].
      destruct (code =? 404); [|constructor].
      eapply ops_in_weaken; [|exact IH]. intros o (u' & Hin & ->).
      exists u'. split; [right; exact Hin | reflexivity].
Qed.

Lemma replaceGheAction_keeps (strings_EqualFold : string -> string -> bool)
    (config : Config) (ra : remoteAction) (github : GithubContext) :
  let ra' := fst (replaceGheAction strings_EqualFold config ra github) in
  ra_Org ra' = ra_Org ra /\ ra_Repo ra' = ra_Repo ra /\ ra_Path ra' = ra_Path ra
  /\ ra_Ref ra' = ra_Ref ra
  /\ (ra' = ra \/ ra' = set_ra_URL ra "github.com")
  /\ ((exists action, In action (ReplaceGheActionWithGithubCom config)
                      /\ strings_EqualFold (ra_Org ra +:+ "/" +:+ ra_Repo ra) action = true)
      -> ra_URL ra' = "github.com").
Proof.
  unfold replaceGheAction.
  generalize (ReplaceGheActionWithGithubCom config). intros actions.
  revert ra github. induction actions as [|action rest IH]; intros ra github.
  - cbn. repeat split; auto. intros (a & [] & _).
  - cbn [fold_left].
    destruct (strings_EqualFold (ra_Org ra +:+ "/" +:+ ra_Repo ra) action) eqn:E.
    + destruct (IH (set_ra_URL ra "github.com")
                  (set_ghc_Token github (ReplaceGheActionTokenWithGithubCom config)))
        as (H1 & H2 & H3 & H4 & H5 & H6).
      cbn [set_ra_URL ra_Org ra_Repo ra_Path ra_Ref ra_URL] in *.
      repeat split; auto.
      * destruct H5 as [-> | ->]; auto.
      * intros _. destruct H5 as [-> | ->]; reflexivity.
    + destruct (IH ra github) as (H1 & H2 & H3 & H4 & H5 & H6).
      repeat split; auto.
      intros (a & [<- | Hin] & Ha); [congruence|]. apply H6. eauto.
Qed.

(** The calls of preparation, by kind: whatever holds of the context and
    log calls, of a GET and of a clone of the action as parsed (and moved to
    github.com when listed) at one of the configured servers, and of the
    reading of the manifest, holds of every call. *)
Lemma prepareActionExecutor_calls (strings_EqualFold : string -> string -> bool)
    (sar : stepActionRemote) (P : Op -> Prop) :
  let uses := step_Uses (sar_Step sar) in
  let config := rc_Config (sar_RunContext sar) in
  P OpGetGithubContext ->
  (forall lvl msg, P (OpLog lvl msg)) ->
  (forall ra0 github u,
     newRemoteAction uses = Some ra0 ->
     In u (DefaultActionsURLs config) ->
     let ra := fst (replaceGheAction strings_EqualFold config ra0 github) in
     P (OpHttpGet (CloneURL ra u))
     /\ P (OpGitClone {| clone_URL := CloneURL ra u; clone_Ref := ra_Ref ra;
                         clone_Dir := cacheDirOf (sar_RunContext sar) uses;
                         clone_Token := "" |})) ->
  (forall actionDir actionPath, P (OpReadAction uses actionDir actionPath)) ->
  ops_in P (prepareActionExecutor strings_EqualFold sar).
Proof.
  intros uses config Hctx Hlog Hfetch Hread. unfold prepareActionExecutor.
  destruct (_ && _); [constructor|]. fold uses config.
  destruct (newRemoteAction uses) as [ra0|] eqn:Hparse;
    cbn [set_sar_remoteAction sar_remoteAction sar_Step sar_RunContext]; [|constructor].
  apply ops_in_bind.
  { apply ops_in_bind; [apply ops_in_call, Hctx | intros; constructor]. }
  intros github. destruct (_ && _).
  { apply ops_in_bind; [apply ops_in_call, Hlog | intros; constructor]. }
  pose proof (fun u => Hfetch ra0 github u eq_refl) as Hfetch'.
  destruct (replaceGheAction strings_EqualFold config ra0 github) as [remoteAction github'].
  cbn [fst] in Hfetch'.
  eapply ops_in_bind_returns.
  { eapply ops_in_weaken; [|apply GetAvailableCloneURL_asks].
    intros o (u & Hin & ->). apply Hfetch', Hin. }
  { apply GetAvailableCloneURL_returns. }
  intros [cloneURL [err|]] Hurl; [constructor|]. cbn [fst snd] in Hurl.
  specialize (Hurl eq_refl). apply in_map_iff in Hurl as (u & <- & Hin).
  apply ops_in_bind.
  { apply ops_in_call. apply Hfetch', Hin. }
  assert (Hread' : forall (s : stepActionRemote) actionDir actionPath,
    ops_in P
      (bind (bind (call (OpReadAction uses actionDir actionPath))
               (fun x : option Action * option error =>
                  let '(actionModel, err) := x in Ret (err, set_sar_action s actionModel)))
         (fun x : option error * stepActionRemote =>
            let '(err, s') := x in
            match err with
            | Some _ => Ret (err, s')
            | None => Ret (None, s')
            end))).
  { intros s actionDir actionPath. apply ops_in_bind.
    - apply ops_in_bind; [apply ops_in_call, Hread | intros []; constructor].
    - intros [[e|] s']; constructor. }
  intros [|err commit|err|err]; cbn [NewPipelineExecutor].
  - apply Hread'.
  - constructor.
  - apply ops_in_bind.
    + unfold NewInfoExecutor, stateless.
      apply ops_in_bind; [|intros; constructor].
      apply ops_in_bind; [apply ops_in_call, Hlog | intros; constructor].
    + intros [[e|] s]; [constructor|]. apply Hread'.
  - constructor.
Qed.

(** X17.  Whatever the preparation of a remote action clones, it clones
    without a token, at the ref written in the reference, and from the clone
    URL of the parsed action at one of the configured action servers; when
    the action is listed in [ReplaceGheActionWithGithubCom] the parsed action
    is first moved to github.com. *)
Theorem prepare_clones_without_token (strings_EqualFold : string -> string -> bool)
    (sar : stepActionRemote) (Bk : Backend) (h : list Op)
    (input : NewGitCloneExecutorInput) :
  In (OpGitClone input) (snd (run Bk (prepareActionExecutor strings_EqualFold sar) h)) ->
  clone_Token input = ""
  /\ exists (ra : remoteAction) (u : string),
       newRemoteAction (step_Uses (sar_Step sar)) = Some ra
       /\ In u (DefaultActionsURLs (rc_Config (sar_RunContext sar)))
       /\ clone_Ref input = ra_Ref ra
       /\ (clone_URL input = CloneURL ra u
           \/ clone_URL input = CloneURL (set_ra_URL ra "github.com") u).
Proof.
  intros Hin.
  set (P := fun o : Op => forall input, o = OpGitClone input ->
          clone_Token input = ""
          /\ exists (ra : remoteAction) (u : string),
               newRemoteAction (step_Uses (sar_Step sar)) = Some ra
               /\ In u (DefaultActionsURLs (rc_Config (sar_RunContext sar)))
               /\ clone_Ref input = ra_Ref ra
               /\ (clone_URL input = CloneURL ra u
                   \/ clone_URL input = CloneURL (set_ra_URL ra "github.com") u)).
  assert (Hcalls : ops_in P (prepareActionExecutor strings_EqualFold sar)).
  { apply prepareActionExecutor_calls; subst P; cbv beta.
    - discriminate.
    - discriminate.
    - intros ra0 github u Hparse Hu ra. split; [discriminate|].
      intros input' E. injection E as <-. cbn [clone_Token clone_Ref clone_URL].
      split; [reflexivity|]. exists ra0, u.
      destruct (replaceGheAction_keeps strings_EqualFold (rc_Config (sar_RunContext sar))
                  ra0 github) as (_ & _ & _ & Href & Hra & _).
      fold ra in Href, Hra. repeat split; auto.
      destruct Hra as [-> | ->]; auto.
    - discriminate. }
  pose proof (ops_in_run _ Bk _ h Hcalls) as Hops.
  rewrite Forall_forall in Hops. apply list_elem_of_In in Hin.
  exact (Hops _ Hin input eq_refl).
Qed.

Lemma prepare_clones_without_token_example :
  clone_Token
    {| clone_URL := "https://gitea.com/actions/setup-go"; clone_Ref := "v4";
       clone_Dir := "/home/runner/.cache/act/actions-setup-go@v4"; clone_Token := "" |}
  = ""
  /\ exists (ra : remoteAction) (u : string),
       newRemoteAction "actions/setup-go@v4" = Some ra
       /\ In u ["https://gitea.com"]
       /\ "v4" = ra_Ref ra
       /\ ("https://gitea.com/actions/setup-go" = CloneURL ra u
           \/ "https://gitea.com/actions/setup-go"
              = CloneURL (set_ra_URL ra "github.com") u).
Proof.
  apply (prepare_clones_without_token ascii_EqualFold (example_step "actions/setup-go@v4")
           (stub_backend statOk cloneOk (true, None) []) []
           {| clone_URL := "https://gitea.com/actions/setup-go"; clone_Ref := "v4";
              clone_Dir := "/home/runner/.cache/act/actions-setup-go@v4";
              clone_Token := "" |}).
  right. right. left. reflexivity.
Defined.

(** X18.  For an action listed in [ReplaceGheActionWithGithubCom] (its
    [org/repo] is equated with an entry by [strings.EqualFold]), every GET
    and every clone of the preparation goes to
    [https://github.com/{org}/{repo}], whatever host the reference names and
    whatever action servers are configured. *)
Theorem prepare_listed_action_from_github (strings_EqualFold : string -> string -> bool)
    (sar : stepActionRemote) (ra : remoteAction) (action : string)
    (Bk : Backend) (h : list Op) :
  newRemoteAction (step_Uses (sar_Step sar)) = Some ra ->
  In action (ReplaceGheActionWithGithubCom (rc_Config (sar_RunContext sar))) ->
  strings_EqualFold (ra_Org ra +:+ "/" +:+ ra_Repo ra) action = true ->
  Forall (fetches_from ("https://github.com/" +:+ ra_Org ra +:+ "/" +:+ ra_Repo ra))
    (snd (run Bk (prepareActionExecutor strings_EqualFold sar) h)).
Proof.
  intros Hparse Hin Hfold. apply ops_in_run. apply prepareActionExecutor_calls.
  - exact I.
  - intros; exact I.
  - intros ra0 github u Hparse' Hu ra'. rewrite Hparse in Hparse'. injection Hparse' as <-.
    destruct (replaceGheAction_keeps strings_EqualFold (rc_Config (sar_RunContext sar))
                ra github) as (Horg & Hrepo & _ & _ & _ & Hurl).
    fold ra' in Horg, Hrepo, Hurl.
    assert (E : CloneURL ra' u
                = "https://github.com/" +:+ ra_Org ra +:+ "/" +:+ ra_Repo ra).
    { unfold CloneURL. rewrite Hurl, Horg, Hrepo by eauto. reflexivity. }
    cbn [fetches_from clone_URL]. auto.
  - intros; exact I.
Qed.

Lemma prepare_listed_action_from_github_example :
  Forall (fetches_from "https://github.com/actions/setup-go")
    (snd (run (stub_backend statOk cloneOk (true, None) [])
            (prepareActionExecutor ascii_EqualFold example_listed_step) [])).
Proof.
  apply (prepare_listed_action_from_github ascii_EqualFold example_listed_step
           {| ra_URL := "https://ghe.example.com"; ra_Org := "actions";
              ra_Repo := "setup-go"; ra_Path := ""; ra_Ref := "v4" |}
           "Actions/Setup-Go").
  - reflexivity.
  - left. reflexivity.
  - reflexivity.
Defined.

(** ** Preparing twice, and the local checkout *)

Lemma prepareActionExecutor_leaves_reference (strings_EqualFold : string -> string -> bool)
    (sar : stepActionRemote) :
  returns (fun r : option error * stepActionRemote =>
             fst r = None -> is_Some (sar_remoteAction (snd r)))
    (prepareActionExecutor strings_EqualFold sar).
Proof.
  unfold prepareActionExecutor.
  destruct (_ && _) eqn:Hprepared.
  { constructor. intros _. apply andb_true_iff in Hprepared as [Hra _].
    apply bool_decide_eq_true in Hra. exact Hra. }
  destruct (newRemoteAction (step_Uses (sar_Step sar))) as [ra0|] eqn:Hparse;
    cbn [set_sar_remoteAction sar_remoteAction sar_Step sar_RunContext];
    [|constructor; discriminate].
  eapply returns_bind; [apply returns_any|]. intros github _. clear Hprepared.
  destruct (_ && _).
  { eapply returns_bind; [apply returns_any|]. intros _ _. constructor. intros _.
    cbn. eauto. }
  destruct (replaceGheAction _ _ _ _) as [remoteAction github'].
  eapply returns_bind; [apply returns_any|]. intros [cloneURL [err|]] _;
    [constructor; discriminate|].
  eapply returns_bind; [apply returns_any|]. intros res _.
  assert (Hread : forall (s : stepActionRemote) uses actionDir actionPath,
    is_Some (sar_remoteAction s) ->
    returns (fun r : option error * stepActionRemote =>
               fst r = None -> is_Some (sar_remoteAction (snd r)))
      (bind (bind (call (OpReadAction uses actionDir actionPath))
               (fun x : option Action * option error =>
                  let '(actionModel, err) := x in Ret (err, set_sar_action s actionModel)))
         (fun x : option error * stepActionRemote =>
            let '(err, s') := x in
            match err with
            | Some _ => Ret (err, s')
            | None => Ret (None, s')
            end))).
  { intros s uses actionDir actionPath Hs. cbn [bind call]. constructor.
    intros [actionModel [e|]]; constructor; [discriminate|]. intros _. exact Hs. }
  destruct res as [|err commit|err|err]; cbn [NewPipelineExecutor].
  - apply Hread. cbn. eauto.
  - constructor. discriminate.
  - unfold NewInfoExecutor, stateless. cbn [bind call]. constructor. intros _.
    apply Hread. cbn. eauto.
  - constructor. discriminate.
Qed.

(** X19.  Preparation is done once: when a run of the preparation returns
    without error and the action manifest it leaves is not [nil], every
    later run on the step, whatever the backend answers, returns at once
    without error, makes no call (no request, no clone, no read) and
    changes nothing. *)
Theorem prepare_is_done_once (strings_EqualFold : string -> string -> bool)
    (sar sar' : stepActionRemote) (Bk : Backend) (h ops : list Op) :
  run Bk (prepareActionExecutor strings_EqualFold sar) h = ((None, sar'), ops) ->
  sar_action sar' <> None ->
  forall (Bk' : Backend) (h' : list Op),
    run Bk' (prepareActionExecutor strings_EqualFold sar') h' = ((None, sar'), []).
Proof.
  intros Hrun Haction Bk' h'.
  pose proof (returns_run _ Bk _ h
                (prepareActionExecutor_leaves_reference strings_EqualFold sar)) as Hra.
  rewrite Hrun in Hra. cbn [fst snd] in Hra. specialize (Hra eq_refl).
  unfold prepareActionExecutor.
  rewrite (bool_decide_eq_true_2 _ Hra).
  assert (Hact : is_Some (sar_action sar')).
  { destruct (sar_action sar'); [eauto | congruence]. }
  rewrite (bool_decide_eq_true_2 _ Hact). reflexivity.
Qed.

Lemma prepare_is_done_once_example :
  run (stub_backend statNotExist (cloneErr (errorString "offline")) (true, None) [])
      (prepareActionExecutor ascii_EqualFold
         (set_sar_action
            (set_sar_remoteAction (example_step "actions/setup-go@v4")
               (newRemoteAction "actions/setup-go@v4"))
            (Some (mkAction "setup"))))
      []
  = ((None,
      set_sar_action
        (set_sar_remoteAction (example_step "actions/setup-go@v4")
           (newRemoteAction "actions/setup-go@v4"))
        (Some (mkAction "setup"))),
     []).
Proof.
  apply (prepare_is_done_once ascii_EqualFold (example_step "actions/setup-go@v4") _
           (stub_backend statOk cloneOk (true, None) []) []
           [OpGetGithubContext; OpHttpGet "https://gitea.com/actions/setup-go";
            OpGitClone {| clone_URL := "https://gitea.com/actions/setup-go";
                          clone_Ref := "v4";
                          clone_Dir := "/home/runner/.cache/act/actions-setup-go@v4";
                          clone_Token := "" |};
            OpReadAction "actions/setup-go@v4"
              "/home/runner/.cache/act/actions-setup-go@v4" ""]).
  - reflexivity.
  - discriminate.
Defined.

(** X20.  The checkout of the repository the run is for is not fetched:
    when the step is not prepared yet, [isLocalCheckout] holds of it in the
    context the backend gives, and [NoSkipCheckout] is off, the preparation
    records the parsed reference, asks for the context, logs one debug line
    and returns without error; it asks no server, clones nothing and reads
    no manifest, so the action stays [nil]. *)
Theorem prepare_skips_local_checkout (strings_EqualFold : string -> string -> bool)
    (sar : stepActionRemote) (Bk : Backend) (h : list Op) :
  sar_remoteAction sar = None \/ sar_action sar = None ->
  isLocalCheckout (Bk h OpGetGithubContext) (sar_Step sar) = true ->
  NoSkipCheckout (rc_Config (sar_RunContext sar)) = false ->
  exists ra : remoteAction,
    newRemoteAction (step_Uses (sar_Step sar)) = Some ra
    /\ IsCheckout ra = true
    /\ run Bk (prepareActionExecutor strings_EqualFold sar) h
       = ((None, set_sar_remoteAction sar (Some ra)),
          [OpGetGithubContext;
           OpLog DebugLevel
             "Skipping local actions/checkout because workdir was already copied"]).
Proof.
  intros Hnew Hlocal Hskip.
  assert (Hparse : exists ra, newRemoteAction (step_Uses (sar_Step sar)) = Some ra
                              /\ IsCheckout ra = true).
  { unfold isLocalCheckout in Hlocal.
    destruct (step_Type (sar_Step sar)); try discriminate.
    destruct (newRemoteAction (step_Uses (sar_Step sar))) as [ra|]; [|discriminate].
    exists ra. split; [reflexivity|]. destruct (IsCheckout ra); [reflexivity | discriminate]. }
  destruct Hparse as (ra & Hparse & Hcheckout). exists ra.
  split; [exact Hparse|]. split; [exact Hcheckout|].
  unfold prepareActionExecutor. rewrite (not_prepared _ Hnew), Hparse.
  cbn [set_sar_remoteAction sar_remoteAction sar_Step sar_RunContext].
  unfold sar_getGithubContext. cbn [bind call sar_remoteAction]. rewrite run_Vis.
  cbn [fst snd]. rewrite Hcheckout, Hskip. cbn [andb negb].
  match goal with
  | |- context [isLocalCheckout ?g (sar_Step sar)] =>
      replace (isLocalCheckout g (sar_Step sar)) with true
  end.
  reflexivity.
Qed.

Lemma prepare_skips_local_checkout_example :
  exists ra : remoteAction,
    newRemoteAction "actions/checkout@v4" = Some ra
    /\ IsCheckout ra = true
    /\ run (stub_backend statOk cloneOk (true, None) [])
           (prepareActionExecutor ascii_EqualFold (example_step "actions/checkout@v4")) []
       = ((None, set_sar_remoteAction (example_step "actions/checkout@v4") (Some ra)),
          [OpGetGithubContext;
           OpLog DebugLevel
             "Skipping local actions/checkout because workdir was already copied"]).
Proof.
  apply (prepare_skips_local_checkout ascii_EqualFold (example_step "actions/checkout@v4")
           (stub_backend statOk cloneOk (true, None) []) []).
  - left. reflexivity.
  - reflexivity.
  - reflexivity.
Defined.

Lemma GetAvailableCloneURL_all_404 (ra : remoteAction) (actionURLs : list string)
    (Bk : Backend) (h : list Op) :
  (forall (h' : list Op) (url : string), Bk h' (OpHttpGet url) = httpStatus 404) ->
  run Bk (GetAvailableCloneURL ra actionURLs) h
  = (("", Some (errorString "no available url found")),
     map (fun u => OpHttpGet (CloneURL ra u)) actionURLs).
Proof.
  intros H404. revert h. induction actionURLs as [|u rest IH]; intros h; [reflexivity|].
  cbn [GetAvailableCloneURL]. rewrite run_Vis, H404. cbn [Nat.eqb].
  rewrite IH. reflexivity.
Qed.

(** X21.  When no configured action server has the action (every GET is
    answered 404, or no server is configured), the preparation of an action
    other than actions/checkout asks each server once, in order, clones
    nothing, and returns the error "failed to get available clone url of
    [uses] action, error: no available url found", which wraps the error of
    the search. *)
Theorem prepare_fails_without_server (strings_EqualFold : string -> string -> bool)
    (sar : stepActionRemote) (ra0 : remoteAction) (Bk : Backend) (h : list Op) :
  sar_remoteAction sar = None \/ sar_action sar = None ->
  newRemoteAction (step_Uses (sar_Step sar)) = Some ra0 ->
  IsCheckout ra0 = false ->
  (forall (h' : list Op) (url : string), Bk h' (OpHttpGet url) = httpStatus 404) ->
  exists ra : remoteAction,
    (ra = ra0 \/ ra = set_ra_URL ra0 "github.com")
    /\ fst (fst (run Bk (prepareActionExecutor strings_EqualFold sar) h))
       = Some (wrapError
                 ("failed to get available clone url of [" +:+ step_Uses (sar_Step sar)
                  +:+ "] action, error: no available url found")
                 (errorString "no available url found"))
    /\ snd (run Bk (prepareActionExecutor strings_EqualFold sar) h)
       = OpGetGithubContext ::
         map (fun u => OpHttpGet (CloneURL ra u))
           (DefaultActionsURLs (rc_Config (sar_RunContext sar))).
Proof.
  intros Hnew Hparse Hcheckout H404.
  unfold prepareActionExecutor. rewrite (not_prepared _ Hnew), Hparse.
  cbn [set_sar_remoteAction sar_remoteAction sar_Step sar_RunContext].
  unfold sar_getGithubContext. cbn [bind call sar_remoteAction]. rewrite run_Vis.
  cbn [fst snd]. rewrite Hcheckout. cbn [andb].
  match goal with
  | |- context [replaceGheAction ?a ?b ?c ?d] =>
      pose proof (replaceGheAction_keeps a b c d) as (_ & _ & _ & _ & Hra & _);
      destruct (replaceGheAction a b c d) as [ra github']
  end.
  cbn [fst] in Hra. exists ra. split; [exact Hra|].
  rewrite run_bind, GetAvailableCloneURL_all_404 by exact H404.
  cbn [fst snd run]. rewrite app_nil_r. split; reflexivity.
Qed.

Lemma prepare_fails_without_server_example :
  exists ra : remoteAction,
    (ra = {| ra_URL := ""; ra_Org := "actions"; ra_Repo := "setup-go"; ra_Path := "";
             ra_Ref := "v4" |}
     \/ ra = set_ra_URL {| ra_URL := ""; ra_Org := "actions"; ra_Repo := "setup-go";
                           ra_Path := ""; ra_Ref := "v4" |} "github.com")
    /\ fst (fst (run (fun _ o =>
                        match o return Resp o with
                        | OpHttpGet _ => httpStatus 404
                        | o' => stub_backend statOk cloneOk (true, None) [] [] o'
                        end)
                     (prepareActionExecutor ascii_EqualFold
                        (example_step "actions/setup-go@v4")) []))
       = Some (wrapError
                 ("failed to get available clone url of [" +:+ "actions/setup-go@v4"
                  +:+ "] action, error: no available url found")
                 (errorString "no available url found"))
    /\ snd (run (fun _ o =>
                   match o return Resp o with
                   | OpHttpGet _ => httpStatus 404
                   | o' => stub_backend statOk cloneOk (true, None) [] [] o'
                   end)
                (prepareActionExecutor ascii_EqualFold
                   (example_step "actions/setup-go@v4")) [])
       = OpGetGithubContext ::
         map (fun u => OpHttpGet (CloneURL ra u)) ["https://gitea.com"].
Proof.
  apply (prepare_fails_without_server ascii_EqualFold (example_step "actions/setup-go@v4")).
  - left. reflexivity.
  - reflexivity.
  - reflexivity.
  - reflexivity.
Defined.

(** ** Reusable workflows: the lock, the fetch and the stages *)

Lemma lock_around_fetch_released (ops : list Op) :
  Forall (fun o => is_lock_op o = false /\ is_Stat o = false /\ is_GitClone o = false)
    ops ->
  lock_around_fetch lock_released ops = true.
Proof.
  intros H. induction H as [|o ops (Hlock & Hstat & Hclone) _ IH]; [reflexivity|].
  destruct o; cbn in *; try exact IH; discriminate.
Qed.

Lemma newReusableWorkflowExecutor_after_release {S : Type} (rc : RunContext)
    (directory workflow : string) (s : S) (Bk : Backend) (h : list Op) :
  lock_around_fetch lock_released
    (snd (run Bk (newReusableWorkflowExecutor rc directory workflow s) h)) = true.
Proof.
  apply lock_around_fetch_released, ops_in_run.
  unfold newReusableWorkflowExecutor, stateless.
  apply ops_in_bind; [|intros; constructor].
  apply ops_in_bind; [apply ops_in_call; auto|]. intros [e|]; [constructor|].
  apply ops_in_bind; [apply ops_in_call; auto|]. intros [e|]; [constructor|].
  apply ops_in_bind; [apply ops_in_call; auto|]. intros [e|]; [constructor|].
  apply (ops_in_call _ OpRunPlan); auto.
Qed.

Lemma reusableWorkflowExecutor_lock_around_fetch {S : Type} (rc : RunContext)
    (uses : string) (s : S) (Bk : Backend) (h : list Op) :
  lock_around_fetch lock_untaken (snd (run Bk (reusableWorkflowExecutor rc uses s) h))
  = true.
Proof.
  destruct (newRemoteReusableWorkflow uses) as [r|] eqn:Hparse.
  - rewrite (reusableWorkflowExecutor_run rc uses r s Bk h Hparse).
    assert (Htail : forall h',
      lock_around_fetch lock_released
        (snd (run Bk (newReusableWorkflowExecutor rc (cacheDirOf rc uses) (FilePath r) s) h'))
      = true).
    { intros h'. apply newReusableWorkflowExecutor_after_release. }
    destruct (Bk (h ++ [OpLock]) (OpStat (cacheDirOf rc uses))) as [| |e].
    + cbn. apply Htail.
    + destruct (cloneResult_error _) as [err|]; cbn; [reflexivity | apply Htail].
    + cbn. apply Htail.
  - unfold reusableWorkflowExecutor. rewrite Hparse. reflexivity.
Qed.

(** X22.  An executor of a reusable workflow, local or remote, holds
    [executorLock] around the fetch and nothing else.  In every run,
    whatever the backend answers (the directory missing or not, the clone
    failing or not, the reference malformed), the executor makes no call at
    all or its first call takes the lock; while it holds the lock it only
    tests the cache directory and clones; it releases the lock; and every
    other call, the planning and the running of the workflow among them,
    is made after the release, with no further lock, test or clone.  So the
    lock is released before the executor goes on to plan the workflow, and
    the executor never returns holding it. *)
Theorem reusable_workflow_releases_lock
    (S : Type) (rc : RunContext) (s : S) (Bk : Backend) (h : list Op) :
  lock_around_fetch lock_untaken
    (snd (run Bk (newRemoteReusableWorkflowExecutor rc s) h)) = true
  /\ lock_around_fetch lock_untaken
       (snd (run Bk (newLocalReusableWorkflowExecutor rc s) h)) = true.
Proof. split; apply reusableWorkflowExecutor_lock_around_fetch. Qed.

(** A trace that keeps the lock while the workflow is planned and run, and
    one that releases it only to take it again, are not of this shape; the
    trace of a fetch followed by the four stages is. *)
Example lock_around_fetch_examples :
  lock_around_fetch lock_untaken
    [OpLock; OpStat "dir"; OpNewWorkflowPlanner "dir" "wf.yml"; OpPlanEvent "workflow_call";
     OpNewReusableWorkflowRunner; OpRunPlan; OpUnlock] = false
  /\ lock_around_fetch lock_untaken
       [OpLock; OpStat "dir"; OpUnlock; OpNewWorkflowPlanner "dir" "wf.yml"; OpLock; OpUnlock]
     = false
  /\ lock_around_fetch lock_untaken
       [OpNewWorkflowPlanner "dir" "wf.yml"; OpLock; OpStat "dir"; OpUnlock] = false
  /\ lock_around_fetch lock_untaken
       [OpLock; OpStat "dir"; OpUnlock; OpNewWorkflowPlanner "dir" "wf.yml";
        OpPlanEvent "workflow_call"; OpNewReusableWorkflowRunner; OpRunPlan] = true.
Proof. repeat split; reflexivity. Qed.

(** X23.  When the cache directory of a remote reusable workflow is
    reported missing and the clone fails, the executor returns the clone's
    error having made four calls: the lock, the check, the clone and the
    unlock.  The workflow is neither planned nor run.  The clone is made
    from [{GitHubInstance}/{org}/{repo}] at the ref of the reference, into
    the cache directory, with the configured token. *)
Theorem reusable_workflow_fetch_failure
    (S : Type) (rc : RunContext) (s : S) (Bk : Backend) (h : list Op)
    (r : remoteReusableWorkflow) (err : error) :
  let uses := job_Uses (rc_Job rc) in
  let dir := rc_ActionCacheDir rc +:+ "/" +:+ safeFilename uses in
  let input :=
    {| clone_URL := GitHubInstance (rc_Config rc) +:+ "/" +:+ rrw_Org r +:+ "/" +:+ rrw_Repo r;
       clone_Ref := rrw_Ref r; clone_Dir := dir; clone_Token := Token (rc_Config rc) |} in
  newRemoteReusableWorkflow uses = Some r ->
  Bk (h ++ [OpLock]) (OpStat dir) = statNotExist ->
  cloneResult_error (Bk (h ++ [OpLock; OpStat dir]) (OpGitClone input)) = Some err ->
  run Bk (newRemoteReusableWorkflowExecutor rc s) h
  = ((Some err, s), [OpLock; OpStat dir; OpGitClone input; OpUnlock]).
Proof.
  intros uses dir input Hparse Hstat Hclone.
  unfold newRemoteReusableWorkflowExecutor. fold uses.
  rewrite (reusableWorkflowExecutor_run rc uses r s Bk h Hparse).
  unfold cacheDirOf. fold dir. rewrite Hstat. fold input. rewrite Hclone. reflexivity.
Qed.

Lemma reusable_workflow_fetch_failure_example :
  run (stub_backend statNotExist (cloneErr (errorString "repository not found"))
         (true, None) [])
      (newRemoteReusableWorkflowExecutor
         (example_run_context example_remote_workflow_job) tt) []
  = ((Some (errorString "repository not found"), tt),
     [OpLock;
      OpStat "/home/runner/.cache/act/octocat-hello-world-.github-workflows-ci.yml@v1";
      OpGitClone
        {| clone_URL := "https://gitea.example.com/octocat/hello-world";
           clone_Ref := "v1";
           clone_Dir :=
             "/home/runner/.cache/act/octocat-hello-world-.github-workflows-ci.yml@v1";
           clone_Token := "secret-token" |};
      OpUnlock]).
Proof.
  apply (reusable_workflow_fetch_failure unit
           (example_run_context example_remote_workflow_job) tt
           (stub_backend statNotExist (cloneErr (errorString "repository not found"))
              (true, None) [])
           []
           {| rrw_GitPlatform := "github"; rrw_URL := ""; rrw_Org := "octocat";
              rrw_Repo := "hello-world"; rrw_Filename := "ci.yml"; rrw_Ref := "v1" |}
           (errorString "repository not found")).
  - reflexivity.
  - reflexivity.
  - reflexivity.
Defined.

(** X24.  A remote reusable workflow whose reference parses is cloned
    exactly when the check of its cache directory reports that the
    directory does not exist: on any other answer of the check, also on an
    error such as a denied permission, no clone is made and the workflow is
    planned from whatever is there. *)
Theorem reusable_workflow_clones_iff_missing
    (S : Type) (rc : RunContext) (s : S) (Bk : Backend) (h : list Op)
    (r : remoteReusableWorkflow) :
  newRemoteReusableWorkflow (job_Uses (rc_Job rc)) = Some r ->
  (exists input,
     In (OpGitClone input) (snd (run Bk (newRemoteReusableWorkflowExecutor rc s) h)))
  <-> Bk (h ++ [OpLock])
         (OpStat (rc_ActionCacheDir rc +:+ "/" +:+ safeFilename (job_Uses (rc_Job rc))))
      = statNotExist.
Proof.
  intros Hparse. unfold newRemoteReusableWorkflowExecutor.
  set (uses := job_Uses (rc_Job rc)) in *.
  change (rc_ActionCacheDir rc +:+ "/" +:+ safeFilename uses) with (cacheDirOf rc uses).
  rewrite (reusableWorkflowExecutor_run rc uses r s Bk h Hparse).
  assert (Htail : forall h' input,
    ~ In (OpGitClone input)
        (snd (run Bk (newReusableWorkflowExecutor rc (cacheDirOf rc uses) (FilePath r) s) h'))).
  { intros h' input Hin.
    pose proof (ops_in_run _ Bk _ h'
                  (newReusableWorkflowExecutor_ops rc (cacheDirOf rc uses) (FilePath r) s))
      as Hops.
    rewrite Forall_forall in Hops. apply list_elem_of_In in Hin.
    destruct (Hops _ Hin) as [Hc _]. discriminate. }
  destruct (Bk (h ++ [OpLock]) (OpStat (cacheDirOf rc uses))) as [| |e] eqn:Hstat.
  - split; [|discriminate]. intros (input & Hin). exfalso. cbn in Hin.
    destruct Hin as [E | [E | [E | Hin]]]; try discriminate. exact (Htail _ _ Hin).
  - split; [reflexivity|]. intros _. eexists.
    destruct (cloneResult_error _); cbn; right; right; left; reflexivity.
  - split; [|discriminate]. intros (input & Hin). exfalso. cbn in Hin.
    destruct Hin as [E | [E | [E | Hin]]]; try discriminate. exact (Htail _ _ Hin).
Qed.

Lemma reusable_workflow_clones_iff_missing_example :
  (exists input,
     In (OpGitClone input)
       (snd (run (stub_backend (statErr (errorString "permission denied")) cloneOk
                    (true, None) [])
               (newRemoteReusableWorkflowExecutor
                  (example_run_context example_remote_workflow_job) tt) [])))
  <-> statErr (errorString "permission denied") = statNotExist.
Proof.
  apply (reusable_workflow_clones_iff_missing unit
           (example_run_context example_remote_workflow_job) tt
           (stub_backend (statErr (errorString "permission denied")) cloneOk
              (true, None) []) []
           {| rrw_GitPlatform := "github"; rrw_URL := ""; rrw_Org := "octocat";
              rrw_Repo := "hello-world"; rrw_Filename := "ci.yml"; rrw_Ref := "v1" |}).
  reflexivity.
Defined.

Lemma expect_Some (lit s t : string) : expect lit s = Some t -> s = lit +:+ t.
Proof.
  unfold expect. destruct (HasPrefix s lit) eqn:H; [|discriminate].
  intros E. injection E as <-. apply HasPrefix_append, H.
Qed.

(** X25.  A reusable-workflow reference that parses is put together from
    its parts: it is [{org}/{repo}/.{platform}/workflows/{filename}@{ref}]
    for the organisation, repository, platform, file name and ref that
    [newRemoteReusableWorkflow] returns.  The first four are not empty; the
    organisation, the repository and the platform have no slash, the file
    name has no at-sign (it may have slashes), the ref has no newline and
    may be empty; the URL is left empty. *)
Theorem newRemoteReusableWorkflow_round_trip (uses : string) (r : remoteReusableWorkflow) :
  newRemoteReusableWorkflow uses = Some r ->
  uses = rrw_Org r +:+ "/" +:+ rrw_Repo r +:+ "/." +:+ rrw_GitPlatform r +:+ "/workflows/"
         +:+ rrw_Filename r +:+ "@" +:+ rrw_Ref r
  /\ rrw_URL r = ""
  /\ (rrw_Org r <> "" /\ all_bytes not_slash (rrw_Org r) = true)
  /\ (rrw_Repo r <> "" /\ all_bytes not_slash (rrw_Repo r) = true)
  /\ (rrw_GitPlatform r <> "" /\ all_bytes not_slash (rrw_GitPlatform r) = true)
  /\ (rrw_Filename r <> "" /\ all_bytes not_at (rrw_Filename r) = true)
  /\ all_bytes not_newline (rrw_Ref r) = true.
Proof.
  unfold newRemoteReusableWorkflow, match_reusable.
  pose proof (span_spec not_slash uses) as (H1 & Horg & _).
  destruct (span not_slash uses) as [org rest1]. cbn [fst snd] in *.
  destruct (String.eqb org "") eqn:Eorg; [discriminate|].
  destruct (expect "/" rest1) as [rest2|] eqn:E1; [|discriminate].
  pose proof (span_spec not_slash rest2) as (H2 & Hrepo & _).
  destruct (span not_slash rest2) as [repo rest3]. cbn [fst snd] in *.
  destruct (String.eqb repo "") eqn:Erepo; [discriminate|].
  destruct (expect "/." rest3) as [rest4|] eqn:E2; [|discriminate].
  pose proof (span_spec not_slash rest4) as (H3 & Hplat & _).
  destruct (span not_slash rest4) as [platform rest5]. cbn [fst snd] in *.
  destruct (String.eqb platform "") eqn:Eplat; [discriminate|].
  destruct (expect "/workflows/" rest5) as [rest6|] eqn:E3; [|discriminate].
  pose proof (span_spec not_at rest6) as (H4 & Hfile & _).
  destruct (span not_at rest6) as [filename rest7]. cbn [fst snd] in *.
  destruct (String.eqb filename "") eqn:Efile; [discriminate|].
  destruct (expect "@" rest7) as [ref|] eqn:E4; [|discriminate].
  destruct (all_bytes not_newline ref) eqn:Href; [|discriminate].
  intros E. injection E as <-.
  cbn [rrw_Org rrw_Repo rrw_GitPlatform rrw_Filename rrw_Ref rrw_URL].
  apply expect_Some in E1, E2, E3, E4. apply String.eqb_neq in Eorg, Erepo, Eplat, Efile.
  split; [|repeat split; assumption].
  rewrite H1, E1, H2, E2, H3, E3, H4, E4. reflexivity.
Qed.

Lemma newRemoteReusableWorkflow_round_trip_example :
  "octocat/hello-world/.github/workflows/ci.yml@v1"
  = "octocat" +:+ "/" +:+ "hello-world" +:+ "/." +:+ "github" +:+ "/workflows/"
    +:+ "ci.yml" +:+ "@" +:+ "v1".
Proof.
  apply (newRemoteReusableWorkflow_round_trip
           "octocat/hello-world/.github/workflows/ci.yml@v1"
           {| rrw_GitPlatform := "github"; rrw_URL := ""; rrw_Org := "octocat";
              rrw_Repo := "hello-world"; rrw_Filename := "ci.yml"; rrw_Ref := "v1" |}).
  reflexivity.
Defined.

(** The stages of running a reusable workflow come in a fixed order and
    stop at the first that fails. *)
Lemma newReusableWorkflowExecutor_stages
    (S : Type) (rc : RunContext) (directory workflow : string) (s : S)
    (Bk : Backend) (h : list Op) :
  run Bk (newReusableWorkflowExecutor rc directory workflow s) h
  = match Bk h (OpNewWorkflowPlanner directory workflow) with
    | Some err => ((Some err, s), [OpNewWorkflowPlanner directory workflow])
    | None =>
        match Bk (h ++ [OpNewWorkflowPlanner directory workflow])
                 (OpPlanEvent "workflow_call") with
        | Some err =>
            ((Some err, s),
             [OpNewWorkflowPlanner directory workflow; OpPlanEvent "workflow_call"])
        | None =>
            match Bk (h ++ [OpNewWorkflowPlanner directory workflow;
                            OpPlanEvent "workflow_call"])
                     OpNewReusableWorkflowRunner with
            | Some err =>
                ((Some err, s),
                 [OpNewWorkflowPlanner directory workflow; OpPlanEvent "workflow_call";
                  OpNewReusableWorkflowRunner])
            | None =>
                ((Bk (h ++ [OpNewWorkflowPlanner directory workflow;
                            OpPlanEvent "workflow_call"; OpNewReusableWorkflowRunner])
                     OpRunPlan, s),
                 [OpNewWorkflowPlanner directory workflow; OpPlanEvent "workflow_call";
                  OpNewReusableWorkflowRunner; OpRunPlan])
            end
        end
    end.
Proof.
  unfold newReusableWorkflowExecutor, stateless. cbn [bind call run].
  destruct (Bk h (OpNewWorkflowPlanner directory workflow)) as [e|]; [reflexivity|].
  cbn [bind run]. rewrite <- ?app_assoc. cbn [app].
  destruct (Bk _ (OpPlanEvent "workflow_call")) as [e|]; [reflexivity|].
  cbn [bind run]. rewrite <- ?app_assoc. cbn [app].
  destruct (Bk _ OpNewReusableWorkflowRunner) as [e|]; [reflexivity|].
  cbn [bind run]. rewrite <- ?app_assoc. cbn [app]. reflexivity.
Qed.

(** X26.  A job that calls a remote reusable workflow, with a condition
    that holds, a reference that parses and a cache directory that is
    there: [Executor()] evaluates the condition and, without looking at
    runner labels or platforms and without running the job executor, checks
    the directory under the lock, releases the lock, and then plans
    [./.{platform}/workflows/{filename}] inside the cache directory for the
    event "workflow_call" (whatever event triggered the caller), makes the
    runner and runs the plan, in this order.  When these stages succeed it
    returns no error and leaves the run context as it is. *)
Theorem Executor_runs_cached_reusable_workflow
    (strings_ToLower : string -> string)
    (newJobExecutor : RunContext -> Executor RunContext)
    (rc : RunContext) (Bk : Backend) (h : list Op) (r : remoteReusableWorkflow) :
  let job := rc_Job rc in
  let dir := rc_ActionCacheDir rc +:+ "/" +:+ safeFilename (job_Uses job) in
  let workflow := "./." +:+ rrw_GitPlatform r +:+ "/workflows/" +:+ rrw_Filename r in
  job_Type job = JobTypeReusableWorkflowRemote ->
  Bk h (OpEvalBool (job_If job)) = (true, None) ->
  newRemoteReusableWorkflow (job_Uses job) = Some r ->
  Bk (h ++ [OpEvalBool (job_If job); OpLock]) (OpStat dir) = statOk ->
  (forall h', Bk h' (OpNewWorkflowPlanner dir workflow) = None) ->
  (forall h', Bk h' (OpPlanEvent "workflow_call") = None) ->
  (forall h', Bk h' OpNewReusableWorkflowRunner = None) ->
  (forall h', Bk h' OpRunPlan = None) ->
  exists executor : Executor RunContext,
    rc_Executor strings_ToLower newJobExecutor rc = returned executor
    /\ run Bk (executor rc) h
       = ((None, rc),
          [OpEvalBool (job_If job); OpLock; OpStat dir; OpUnlock;
           OpNewWorkflowPlanner dir workflow; OpPlanEvent "workflow_call";
           OpNewReusableWorkflowRunner; OpRunPlan]).
Proof.
  intros job dir workflow Htype Hcond Hparse Hstat Hplanner Hplan Hrunner Hrun.
  unfold rc_Executor. fold job. rewrite Htype.
  eexists. split; [reflexivity|].
  unfold isEnabled. fold job. rewrite Htype.
  cbn [bind call]. rewrite run_Vis, Hcond. cbn [negb fst snd bind].
  unfold newRemoteReusableWorkflowExecutor. fold job.
  rewrite (reusableWorkflowExecutor_run rc (job_Uses job) r rc Bk _ Hparse).
  unfold cacheDirOf. fold dir. rewrite <- !app_assoc. cbn [app]. rewrite Hstat.
  rewrite newReusableWorkflowExecutor_stages.
  unfold FilePath. fold workflow. rewrite Hplanner, Hplan, Hrunner, Hrun. reflexivity.
Qed.

Lemma Executor_runs_cached_reusable_workflow_example :
  exists executor : Executor RunContext,
    rc_Executor ascii_ToLower (fun _ => stateless (Create None [] []))
      (example_run_context example_remote_workflow_job)
    = returned executor
    /\ run (stub_backend statOk cloneOk (true, None) [])
         (executor (example_run_context example_remote_workflow_job)) []
       = ((None, example_run_context example_remote_workflow_job),
          [OpEvalBool "";
           OpLock;
           OpStat "/home/runner/.cache/act/octocat-hello-world-.github-workflows-ci.yml@v1";
           OpUnlock;
           OpNewWorkflowPlanner
             "/home/runner/.cache/act/octocat-hello-world-.github-workflows-ci.yml@v1"
             "./.github/workflows/ci.yml";
           OpPlanEvent "workflow_call";
           OpNewReusableWorkflowRunner;
           OpRunPlan]).
Proof.
  apply (Executor_runs_cached_reusable_workflow ascii_ToLower
           (fun _ => stateless (Create None [] []))
           (example_run_context example_remote_workflow_job)
           (stub_backend statOk cloneOk (true, None) []) []
           {| rrw_GitPlatform := "github"; rrw_URL := ""; rrw_Org := "octocat";
              rrw_Repo := "hello-world"; rrw_Filename := "ci.yml"; rrw_Ref := "v1" |});
    reflexivity.
Defined.

(** ** The calls of the provisioning of a job *)

(** A single call whose operation is of the kind asked for, by computation. *)
Ltac provisioning_call :=
  unfold compose, Pull, Create, Start, Copy, Interpolate; cbv beta;
  match goal with
  | |- ops_in _ (call ?o) =>
      apply (ops_in_call _ o); first [split; reflexivity | hnf; left; reflexivity | reflexivity]
  end.

Lemma handleCredentials_provisioning (rc : RunContext) :
  ops_in (fun o => provisioning_op o = true /\ no_driver_op o = true) (handleCredentials rc).
Proof.
  unfold handleCredentials, Interpolate.
  destruct (job_Container (rc_Job rc)) as [container|]; [|constructor].
  destruct (cs_Credentials container) as [credentials|]; [|constructor].
  destruct (negb _); [constructor|].
  apply ops_in_bind; [provisioning_call | intros _].
  apply ops_in_bind; [provisioning_call | intros username].
  destruct (String.eqb username ""); [constructor|].
  apply ops_in_bind; [provisioning_call | intros password].
  destruct (String.eqb password ""); [constructor|].
  destruct (_ || _); constructor.
Qed.

Lemma handleServiceCredentials_provisioning (rc : RunContext)
    (creds : option (gmap string string)) :
  ops_in (fun o => provisioning_op o = true /\ no_driver_op o = true)
    (handleServiceCredentials rc creds).
Proof.
  unfold handleServiceCredentials, Interpolate.
  destruct creds as [creds|]; [|constructor].
  destruct (negb _); [constructor|].
  apply ops_in_bind; [provisioning_call | intros _].
  apply ops_in_bind; [provisioning_call | intros username].
  destruct (String.eqb username ""); [constructor|].
  apply ops_in_bind; [provisioning_call | intros password].
  destruct (String.eqb password ""); constructor.
Qed.

Lemma platformImage_provisioning (strings_ToLower : string -> string) (rc : RunContext) :
  ops_in (fun o => provisioning_op o = true /\ no_driver_op o = true)
    (platformImage strings_ToLower rc).
Proof.
  unfold platformImage, Interpolate.
  destruct (job_Container (rc_Job rc)) as [c|].
  - provisioning_call.
  - apply ops_in_bind.
    { destruct (job_RunsOn (rc_Job rc)); [constructor|].
      provisioning_call. }
    intros _. apply ops_in_bind.
    { apply ops_in_mapM. intros v. provisioning_call. }
    intros runsOn. destruct (negb _); constructor.
Qed.

Lemma addServiceContainers_provisioning
    (container_NewContainer : NewContainerInput -> ExecutionsEnvironment)
    (networkName : string) (services : list (string * ContainerSpec)) (rc : RunContext) :
  ops_in (fun o => provisioning_op o = true /\ no_driver_op o = true)
    (addServiceContainers container_NewContainer networkName services rc).
Proof.
  revert rc. induction services as [|[serviceId spec] rest IH]; intros rc;
    cbn [addServiceContainers]; [constructor|].
  apply ops_in_bind.
  { apply ops_in_mapM. intros [k v]. apply ops_in_bind; [|intros; constructor].
    provisioning_call. }
  intros interpolatedEnvs. apply ops_in_bind.
  { apply ops_in_mapM. intros v. provisioning_call. }
  intros interpolatedCmd. apply ops_in_bind; [apply handleServiceCredentials_provisioning|].
  intros [[username password] [err|]]; [constructor | apply IH].
Qed.

Lemma pipeline_step_ops {S : Type} (P : Op -> Prop) (e : Executor S)
    (rest : list (option (Executor S))) (s : S) :
  ops_in P (e s) -> (forall s', ops_in P (NewPipelineExecutor rest s')) ->
  ops_in P (NewPipelineExecutor (Some e :: rest) s).
Proof.
  intros He Hrest. cbn [NewPipelineExecutor].
  apply ops_in_bind; [exact He|]. intros [[err|] s']; [constructor | apply Hrest].
Qed.

Lemma stateless_ops {S : Type} (P : Op -> Prop) (m : Exec (option error)) (s : S) :
  ops_in P m -> ops_in P (stateless m s).
Proof.
  intros Hm. unfold stateless. apply ops_in_bind; [exact Hm | intros; constructor].
Qed.

(** X27.  Every call that [startJobContainer] makes, in every run, is a log
    line, an interpolation, the making of an evaluator, the query of the
    architecture, the scheduling of parallel tasks, a pull, creation or start
    of a container or a copy into one, or the creation of the network named
    after the job container, and this last one only with [NeedCreateNetwork]:
    without it no network is created, and in no case is anything fetched,
    locked or planned. *)
Theorem startJobContainer_calls
    (strings_ToLower : string -> string)
    (container_NewContainer : NewContainerInput -> ExecutionsEnvironment)
    (GetActPath : ExecutionsEnvironment -> string)
    (rc : RunContext) (Bk : Backend) (h : list Op) :
  Forall (fun o =>
            provisioning_op o = true
            \/ (NeedCreateNetwork (rc_Config rc) = true
                /\ o = OpNetworkCreate (jobContainerName rc +:+ "-network")))
    (snd (run Bk (startJobContainer strings_ToLower container_NewContainer GetActPath rc) h)).
Proof.
  apply ops_in_run.
  set (P := fun o => provisioning_op o = true
                     \/ (NeedCreateNetwork (rc_Config rc) = true
                         /\ o = OpNetworkCreate (jobContainerName rc +:+ "-network"))).
  assert (Hweak : forall (A : Type) (m : Exec A),
    ops_in (fun o => provisioning_op o = true /\ no_driver_op o = true) m -> ops_in P m).
  { intros A m. apply ops_in_weaken. intros o [Ho _]. left. exact Ho. }
  unfold startJobContainer.
  apply ops_in_bind; [apply Hweak, platformImage_provisioning | intros image].
  apply ops_in_bind; [apply Hweak, handleCredentials_provisioning|].
  intros [[username password] [err|]]; [constructor|].
  apply ops_in_bind; [provisioning_call | intros _].
  apply ops_in_bind; [provisioning_call | intros arch].
  apply ops_in_bind; [apply Hweak, addServiceContainers_provisioning|].
  intros [[err|] rc']; [constructor|].
  cbn [set_JobContainer set_cleanUpJobContainer rc_JobContainer rc_Config rc_EventJSON].
  destruct (container_NewContainer _) as [jc|]; [|constructor].
  apply pipeline_step_ops.
  { unfold pullServicesImages. apply stateless_ops.
    apply NewParallelExecutor_ops; [hnf; left; reflexivity|].
    apply Forall_fmap, Forall_true. intros c. provisioning_call. }
  intros rc1. apply pipeline_step_ops; [apply stateless_ops; provisioning_call|].
  intros rc2. apply pipeline_step_ops.
  { unfold IfBool. destruct (NeedCreateNetwork (rc_Config rc)) eqn:Hneed; [|constructor].
    unfold createNetwork. apply stateless_ops.
    apply (ops_in_call _ (OpNetworkCreate _)). hnf. right. auto. }
  intros rc3. apply pipeline_step_ops.
  { unfold startServiceContainers. apply stateless_ops.
    apply NewParallelExecutor_ops; [hnf; left; reflexivity|].
    apply Forall_fmap, Forall_true. intros c. unfold compose, closed. cbv beta.
    apply ops_in_bind; [|intros [? ?]; constructor].
    apply pipeline_step_ops; [apply stateless_ops; provisioning_call|].
    intros []. apply pipeline_step_ops; [apply stateless_ops; provisioning_call|].
    intros []. apply pipeline_step_ops; [apply stateless_ops; provisioning_call|].
    intros []. constructor. }
  intros rc4. apply pipeline_step_ops; [apply stateless_ops; provisioning_call|].
  intros rc5. apply pipeline_step_ops; [apply stateless_ops; provisioning_call|].
  intros rc6. apply pipeline_step_ops; [apply stateless_ops; provisioning_call|].
  intros rc7. constructor.
Qed.

(** X28.  When the credentials of the job's container cannot be resolved,
    [startJobContainer] returns "failed to handle credentials: " followed by
    the message of that error (the error itself is not wrapped), leaves the
    run context as it is, and has reached no container, image or network:
    no service container is even described. *)
Theorem startJobContainer_stops_at_job_credentials
    (strings_ToLower : string -> string)
    (container_NewContainer : NewContainerInput -> ExecutionsEnvironment)
    (GetActPath : ExecutionsEnvironment -> string)
    (rc : RunContext) (Bk : Backend) (h : list Op) (err : error) :
  snd (fst (run Bk (handleCredentials rc)
              (h ++ snd (run Bk (platformImage strings_ToLower rc) h))))
  = Some err ->
  fst (run Bk (startJobContainer strings_ToLower container_NewContainer GetActPath rc) h)
  = (Some (errorString ("failed to handle credentials: " +:+ Error err)), rc)
  /\ Forall (fun o => no_driver_op o = true)
       (snd (run Bk (startJobContainer strings_ToLower container_NewContainer GetActPath rc)
               h)).
Proof.
  intros Herr. unfold startJobContainer. rewrite run_bind. cbn [fst snd].
  rewrite run_bind. cbn [fst snd].
  pose proof (ops_in_run _ Bk _ h (platformImage_provisioning strings_ToLower rc)) as Himg.
  pose proof (ops_in_run _ Bk _ (h ++ snd (run Bk (platformImage strings_ToLower rc) h))
                (handleCredentials_provisioning rc)) as Hcred.
  destruct (run Bk (handleCredentials rc) _) as [[[username password] e] ops].
  cbn [fst snd] in *. subst e. cbn [run fst snd]. split; [reflexivity|].
  rewrite app_nil_r. apply Forall_app. split.
  - eapply Forall_impl; [exact Himg|]. intros o [_ Ho]. exact Ho.
  - eapply Forall_impl; [exact Hcred|]. intros o [_ Ho]. exact Ho.
Qed.

Lemma startJobContainer_stops_at_job_credentials_example :
  fst (run (stub_backend statOk cloneOk (true, None) [])
         (startJobContainer ascii_ToLower stub_NewContainer stub_GetActPath
            (example_run_context (example_credentials_job {[ "username" := "bob" ]})))
         [])
  = (Some (errorString
             ("failed to handle credentials: "
              +:+ Error (errorString "invalid property count for key 'credentials:'"))),
     example_run_context (example_credentials_job {[ "username" := "bob" ]}))
  /\ Forall (fun o => no_driver_op o = true)
       (snd (run (stub_backend statOk cloneOk (true, None) [])
               (startJobContainer ascii_ToLower stub_NewContainer stub_GetActPath
                  (example_run_context (example_credentials_job {[ "username" := "bob" ]})))
               [])).
Proof.
  apply (startJobContainer_stops_at_job_credentials ascii_ToLower stub_NewContainer
           stub_GetActPath
           (example_run_context (example_credentials_job {[ "username" := "bob" ]}))
           (stub_backend statOk cloneOk (true, None) []) []
           (errorString "invalid property count for key 'credentials:'")).
  reflexivity.
Defined.

(** X29.  With a credentials mapping on the job's container, and an
    evaluator that interpolates by a fixed function: [handleCredentials]
    succeeds exactly when the mapping has two entries and the user name and
    the password are not empty, both as written and as interpolated; it then
    returns the two interpolated values, and the DOCKER_USERNAME and
    DOCKER_PASSWORD secrets play no part.  In every other case it returns
    an error. *)
Theorem handleCredentials_explicit
    (rc : RunContext) (container : ContainerSpec) (credentials : gmap string string)
    (Bk : Backend) (interp : string -> string) (h : list Op) :
  interpolates Bk interp ->
  job_Container (rc_Job rc) = Some container ->
  cs_Credentials container = Some credentials ->
  let username := index credentials "username" in
  let password := index credentials "password" in
  (snd (fst (run Bk (handleCredentials rc) h)) = None
   <-> size credentials = 2 /\ username <> "" /\ password <> ""
       /\ interp username <> "" /\ interp password <> "")
  /\ (snd (fst (run Bk (handleCredentials rc) h)) = None ->
      fst (run Bk (handleCredentials rc) h) = (interp username, interp password, None)).
Proof.
  intros Hinterp Hcontainer Hcreds username password.
  unfold handleCredentials, Interpolate. rewrite Hcontainer, Hcreds.
  destruct (Nat.eqb_spec (size credentials) 2) as [Hsize | Hsize]; cbn [negb].
  2:{ cbn [run fst snd]. split; [|discriminate].
      split; [discriminate|]. intros (H & _). contradiction. }
  cbn [bind call]. rewrite run_Vis. cbn [fst]. rewrite run_Vis. cbn [fst].
  rewrite !Hinterp. fold username.
  destruct (String.eqb_spec (interp username) "") as [Hu | Hu].
  { cbn [run fst snd]. split; [|discriminate].
    split; [discriminate|]. intros (_ & _ & _ & H & _). contradiction. }
  rewrite run_Vis. cbn [fst]. rewrite !Hinterp. fold password.
  destruct (String.eqb_spec (interp password) "") as [Hp | Hp].
  { cbn [run fst snd]. split; [|discriminate].
    split; [discriminate|]. intros (_ & _ & _ & _ & H). contradiction. }
  destruct (String.eqb_spec username "") as [Hu' | Hu']; cbn [orb].
  { cbn [run fst snd]. split; [|discriminate].
    split; [discriminate|]. intros (_ & H & _). contradiction. }
  destruct (String.eqb_spec password "") as [Hp' | Hp'].
  { cbn [run fst snd]. split; [|discriminate].
    split; [discriminate|]. intros (_ & _ & H & _). contradiction. }
  cbn [run fst snd]. split; [|reflexivity]. split; [|reflexivity]. auto.
Qed.

Lemma handleCredentials_explicit_example :
  fst (run (stub_backend statOk cloneOk (true, None) [])
         (handleCredentials
            (example_run_context
               (example_credentials_job {[ "username" := "alice"; "password" := "s3cret" ]})))
         [])
  = ("alice", "s3cret", None).
Proof.
  refine (proj2 (handleCredentials_explicit
           (example_run_context
              (example_credentials_job {[ "username" := "alice"; "password" := "s3cret" ]}))
           {| cs_Image := "node:16"; cs_Env := []; cs_Cmd := []; cs_Options := "";
              cs_Credentials := Some {[ "username" := "alice"; "password" := "s3cret" ]} |}
           {[ "username" := "alice"; "password" := "s3cret" ]}
           (stub_backend statOk cloneOk (true, None) []) (fun s => s) []
           _ eq_refl eq_refl) _).
  - intros h ev template. reflexivity.
  - vm_compute. reflexivity.
Defined.

(** ** Jobs for a platform that is not configured *)

Lemma run_mapM_Interpolate (Bk : Backend) (interp : string -> string) (ev : evaluator)
    (l : list string) (h : list Op) :
  interpolates Bk interp ->
  run Bk (mapM (fun v => Interpolate ev v) l) h
  = (map interp l, map (OpInterpolate ev) l).
Proof.
  intros Hinterp. revert h. induction l as [|v l IH]; intros h; [reflexivity|].
  cbn [mapM]. unfold Interpolate at 1. cbn [bind call]. rewrite run_Vis, Hinterp.
  rewrite run_bind, IH. cbn [run fst snd map]. rewrite app_nil_r. reflexivity.
Qed.

Lemma run_skip_labels (Bk : Backend) (interp : string -> string) (l : list string)
    (h : list Op) :
  interpolates Bk interp ->
  run Bk (forM_ (fun runnerLabel =>
                   platformName <- Interpolate rcExprEval runnerLabel ;;
                   call (OpLog InfoLevel
                     (construction_sign +:+
                      "  Skipping unsupported platform -- Try running with `-P "
                      +:+ platformName +:+ "=...`")))
            l) h
  = (tt,
     flat_map (fun runnerLabel =>
                 [OpInterpolate rcExprEval runnerLabel;
                  OpLog InfoLevel
                    (construction_sign +:+
                     "  Skipping unsupported platform -- Try running with `-P "
                     +:+ interp runnerLabel +:+ "=...`")])
       l).
Proof.
  intros Hinterp. revert h. induction l as [|v l IH]; intros h; [reflexivity|].
  cbn [forM_ flat_map]. unfold Interpolate at 1. cbn [bind call].
  rewrite run_Vis, Hinterp. cbn [fst snd]. rewrite run_Vis. cbn [fst snd].
  rewrite IH. reflexivity.
Qed.

Lemma no_platform_image (strings_ToLower : string -> string) (platforms : gmap string string)
    (labels : list string) :
  Forall (fun label => index platforms (strings_ToLower label) = "") labels ->
  default ""
    (head (filter (fun image => negb (String.eqb image ""))
             (map (fun runnerLabel => index platforms (strings_ToLower runnerLabel))
                labels)))
  = "".
Proof.
  induction 1 as [|label labels Hlabel _ IH]; [reflexivity|].
  cbn [map]. rewrite Hlabel. exact IH.
Qed.

(** X30.  A default job whose condition holds, that names no container and
    whose runner labels, once interpolated and put in lower case, have no
    image among the configured platforms, is skipped, not failed:
    [Executor()] returns an executor, which returns no error, leaves the run
    context as it is and does not run the job; besides evaluating the
    condition and interpolating the labels it only logs, per label, that
    the platform is unsupported.  The job is a default job both when
    [Executor()] is called, on [rc0], and when the executor runs, on
    [rc]. *)
Theorem job_skipped_on_unsupported_platform
    (strings_ToLower : string -> string)
    (newJobExecutor : RunContext -> Executor RunContext)
    (rc0 rc : RunContext) (Bk : Backend) (interp : string -> string) (h : list Op)
    (labels : list string) :
  job_Type (rc_Job rc0) = JobTypeDefault ->
  interpolates Bk interp ->
  Bk h (OpEvalBool (job_If (rc_Job rc))) = (true, None) ->
  job_Type (rc_Job rc) = JobTypeDefault ->
  job_Container (rc_Job rc) = None ->
  PlatformPicker (rc_Config rc) = None ->
  job_RunsOn (rc_Job rc) = Some labels ->
  Forall (fun label =>
            index (Platforms (rc_Config rc)) (strings_ToLower (interp label)) = "")
    labels ->
  exists executor : Executor RunContext,
    rc_Executor strings_ToLower newJobExecutor rc0 = returned executor
    /\ run Bk (executor rc) h
       = ((None, rc),
          OpEvalBool (job_If (rc_Job rc))
          :: map (OpInterpolate rcExprEval) labels
          ++ flat_map (fun label =>
                         [OpInterpolate rcExprEval label;
                          OpLog InfoLevel
                            (construction_sign +:+
                             "  Skipping unsupported platform -- Try running with `-P "
                             +:+ interp label +:+ "=...`")])
               labels).
Proof.
  intros Htype0 Hinterp Hcond Htype Hcontainer Hpicker Hruns Hplatforms.
  unfold rc_Executor. rewrite Htype0. eexists. split; [reflexivity|].
  unfold isEnabled. cbn [bind call]. rewrite run_Vis, Hcond.
  cbn [negb fst snd]. rewrite Htype.
  unfold platformImage. rewrite Hcontainer, Hruns, Hpicker. cbn [default bind].
  rewrite !run_bind. rewrite (run_mapM_Interpolate Bk interp) by exact Hinterp.
  cbn [fst snd]. cbn [String.eqb negb run fst snd].
  rewrite no_platform_image.
  2:{ apply Forall_fmap. exact Hplatforms. }
  cbn [String.eqb fst snd bind run].
  rewrite !run_bind. rewrite (run_skip_labels Bk interp) by exact Hinterp.
  cbn [fst snd run]. rewrite !app_nil_r. reflexivity.
Qed.

Lemma job_skipped_on_unsupported_platform_example :
  exists executor : Executor RunContext,
    rc_Executor ascii_ToLower (fun _ => stateless (Create None [] []))
      (example_run_context example_unsupported_job)
    = returned executor
    /\ run (stub_backend statOk cloneOk (true, None) [])
         (executor (example_run_context example_unsupported_job)) []
       = ((None, example_run_context example_unsupported_job),
          [OpEvalBool "success()";
           OpInterpolate rcExprEval "windows-latest";
           OpInterpolate rcExprEval "windows-latest";
           OpLog InfoLevel
             (construction_sign +:+
              "  Skipping unsupported platform -- Try running with `-P "
              +:+ "windows-latest" +:+ "=...`")]).
Proof.
  apply (job_skipped_on_unsupported_platform ascii_ToLower
           (fun _ => stateless (Create None [] []))
           (example_run_context example_unsupported_job)
           (example_run_context example_unsupported_job)
           (stub_backend statOk cloneOk (true, None) []) (fun s => s) []
           ["windows-latest"]).
  - reflexivity.
  - intros h ev template. reflexivity.
  - reflexivity.
  - reflexivity.
  - reflexivity.
  - reflexivity.
  - reflexivity.
  - repeat constructor.
Defined.
